(** * CheckerChain miner: score aggregation and batch orchestration

    A shallow embedding of [checkerchain/miner/forward.py]:

    - [get_overall_score], the aggregation of a ten-criterion breakdown into
      one overall score, over IEEE 754 binary64 numbers (Python's [float]);
    - [forward], the batch orchestrator with its process-wide cache
      [miner_preds], its two [asyncio.gather] waves and the fallback score.

    and, at the end, of [checkerchain/miner/llm.py]: [create_llm] and
    [generate_review_score], over the client they call.

    Python's [float] is the kernel's primitive binary64 type; Python's [int]
    is [Z]; a [dict] keyed by product id is a [gmap]; a list updated by index
    is a list with stdpp's insert. *)

From Stdlib Require Import ZArith QArith Qminmax Uint63 Floats Lia.
From stdpp Require Import base option list gmap strings.

#[local] Set Warnings "-inexact-float".
#[local] Open Scope Z_scope.

(** ** Python runtime pieces used by the module *)

Module Py.

(** Exceptions are only ever caught as [Exception]; the embedding names
    the kinds the module's own statements can raise and leaves the rest,
    what an awaited coroutine fails with, as a message. *)
Inductive exn : Type :=
| OverflowError
| IndexError
| InvalidStateError
| Exception (msg : string).

(** The outcome of evaluating an expression: a value or a raised exception. *)
Inductive result (A : Type) : Type :=
| Return (a : A)
| Raise (e : exn).
Arguments Return {A} a.
Arguments Raise {A} e.

Definition bind {A B : Type} (m : result A) (k : A -> result B) : result B :=
  match m with
  | Return a => k a
  | Raise e => Raise e
  end.

(** [for x in l: ...] collecting one value per item, stopping at the first
    exception. *)
Fixpoint for_each {A B : Type} (f : A -> result B) (l : list A) : result (list B) :=
  match l with
  | [] => Return []
  | x :: l' => bind (f x) (fun y => bind (for_each f l') (fun ys => Return (y :: ys)))
  end.

(** [float(n)] for an [int] n, also the conversion [n * 1.1] applies to its
    left operand: the nearest binary64 (ties to even), [OverflowError] when
    that is beyond the largest finite one. *)
Definition float_of_int (n : Z) : result float :=
  match binary_normalize prec emax n 0 false with
  | S754_infinity _ => Raise OverflowError
  | sf => Return (SF2Prim sf)
  end.

(** [n * x] for an [int] n and a [float] x. *)
Definition mul_int_float (n : Z) (x : float) : result float :=
  bind (float_of_int n) (fun f => Return (f * x)%float).

(** [min(a, b)] and [max(a, b)]: the first argument unless the second is
    strictly smaller (larger). The [int] literals the module passes (0, 10,
    100) are binary64 values, so comparing against them is the float
    comparison, and the [int] a call may hand back is the float it equals. *)
Definition min (a b : float) : float := if (b <? a)%float then b else a.
Definition max (a b : float) : float := if (a <? b)%float then b else a.

(** [sum(xs)]: the start value [0] plus the items, left to right, one
    binary64 addition after the other. *)
Definition sum (xs : list float) : float := fold_left PrimFloat.add xs 0%float.

(** The integer nearest to [a / d], ties to the even one. *)
Definition div_half_even (a : Z) (d : Z) : Z :=
  let q := a / d in
  let r := a mod d in
  match 2 * r ?= d with
  | Lt => q
  | Gt => q + 1
  | Eq => if Z.even q then q else q + 1
  end.

(** The number of hundredths nearest to the exact value [m * 2^e]. *)
Definition hundredths (m : positive) (e : Z) : Z :=
  if 0 <=? e then Z.pos m * 100 * 2 ^ e
  else div_half_even (Z.pos m * 100) (2 ^ (- e)).

(** The binary64 nearest to [n / 100], with the sign [s]. *)
Definition of_hundredths (s : bool) (n : Z) : float :=
  match n with
  | Z.pos p => SF2Prim (SFdiv prec emax (S754_finite s p 0) (S754_finite false 100 0))
  | _ => SF2Prim (S754_zero s)
  end.

(** [round(x, 2)] on a float: the exact value of [x] is rounded to two
    decimals, ties to even, and the decimal result is read back as the
    nearest binary64; zeros, infinities and NaN round to themselves. *)
Definition round2 (x : float) : float :=
  match Prim2SF x with
  | S754_finite s m e => of_hundredths s (hundredths m e)
  | _ => x
  end.

End Py.

#[global] Instance result_ret : MRet Py.result := @Py.Return.
#[global] Instance result_bind : MBind Py.result :=
  fun A B k m => Py.bind m k.

(** ** checkerchain/miner/llm.py: the structured output of the oracle *)

Record ScoreBreakdown : Type := mkBreakdown {
  project : Z;
  userbase : Z;
  utility : Z;
  security : Z;
  team : Z;
  tokenomics : Z;
  marketing : Z;
  roadmap : Z;
  clarity : Z;
  partnerships : Z
}.

Record ReviewScoreSchema : Type := mkReview {
  product : string;
  overall_score : Z;
  breakdown : ScoreBreakdown
}.

(** The names of the fields of [ScoreBreakdown], the keys of the dicts
    [weights], [scores] and [normalized_scores]. *)
Inductive field : Type :=
| Project | Userbase | Utility | Security | Team
| Tokenomics | Marketing | Roadmap | Clarity | Partnerships.

(** [ScoreBreakdown.model_fields.keys()]: the fields in declaration order. *)
Definition model_fields : list field :=
  [Project; Userbase; Utility; Security; Team;
   Tokenomics; Marketing; Roadmap; Clarity; Partnerships].

Definition getattr (b : ScoreBreakdown) (f : field) : Z :=
  match f with
  | Project => project b
  | Userbase => userbase b
  | Utility => utility b
  | Security => security b
  | Team => team b
  | Tokenomics => tokenomics b
  | Marketing => marketing b
  | Roadmap => roadmap b
  | Clarity => clarity b
  | Partnerships => partnerships b
  end.

(** What an awaited oracle call may hand back: an instance of the schema, or
    any other object. *)
Inductive py_object : Type :=
| Review (r : ReviewScoreSchema)
| OtherObject.

(** ** checkerchain/miner/forward.py: get_overall_score *)

Definition weights (key : field) : float :=
  match key with
  | Project => 1.1
  | Userbase => 0.9
  | Utility => 1.2
  | Security => 1.7
  | Team => 0.4
  | Tokenomics => 1.1
  | Marketing => 1.5
  | Roadmap => 1.0
  | Clarity => 0.4
  | Partnerships => 0.7
  end%float.

(** One turn of the normalization loop followed by the [float(...)] the sum
    applies to the stored value. *)
Definition normalized_score (score : Z) : Py.result float :=
  if score <=? 2 then Py.mul_int_float score 1.1
  else if score >=? 9 then
    x ← Py.mul_int_float score 0.98; Py.Return (Py.min 10 x)
  else Py.float_of_int score.

(** The weighted sum of line 55, before the clamp. *)
Definition weighted_sum (b : ScoreBreakdown) : Py.result float :=
  terms ← Py.for_each
            (fun key => n ← normalized_score (getattr b key);
                        Py.Return (n * weights key)%float)
            model_fields;
  Py.Return (Py.sum terms).

Definition clamp_0_100 (overall_score : float) : float :=
  Py.max 0 (Py.min 100 overall_score).

(** [None] for an argument that is not a [ReviewScoreSchema]. *)
Definition get_overall_score (ai_response : py_object) : Py.result (option float) :=
  match ai_response with
  | Review r =>
      overall_score ← weighted_sum (breakdown r);
      Py.Return (Some (Py.round2 (clamp_0_100 overall_score)))
  | OtherObject => Py.Return None
  end.

(** Breakdowns with one value in every field. *)
Definition uniform (v : Z) : ScoreBreakdown := mkBreakdown v v v v v v v v v v.

Definition review_of (b : ScoreBreakdown) : py_object :=
  Review (mkReview "p" 0 b).

(** ** checkerchain/miner/forward.py: forward *)

Definition ProductId : Type := string.

(** The two rounds of oracle calls of one batch: the first attempts, awaited
    by the gather of line 99, and the retries, awaited by that of line 143. *)
Inductive wave : Type := FirstWave | RetryWave.

#[global] Instance wave_eq_dec : EqDecision wave.
Proof. solve_decision. Defined.

(** What one call of [forward] does to the outside, in the order it does it:
    - [Fetch wv i id found]: a call of the lookup collaborator for slot [i] of
      the batch, made while partitioning ([FirstWave]) or while queueing a
      retry ([RetryWave]), and whether it answered with a record;
    - [Dispatch wv i id]: an oracle coroutine created for slot [i], to be
      awaited by the gather of wave [wv];
    - [Invoke k]: the gather in progress runs its awaitable number [k];
    - [CacheWrite i id score]: [miner_preds[id] = score], for slot [i]. *)
Inductive event : Type :=
| Fetch (wv : wave) (i : nat) (product_id : ProductId) (found : bool)
| Dispatch (wv : wave) (i : nat) (product_id : ProductId)
| Invoke (index : nat)
| CacheWrite (i : nat) (product_id : ProductId) (score : float).

Section Forward.

(** The collaborators. [World] is whatever they depend on and change (the
    network, the oracle's service); a lookup answers with a record or with
    nothing, an awaited oracle call returns an object or raises. *)
Context {World Product : Type}.
Variable fetch_product_data : ProductId -> World -> option Product * World.
Variable generate_review_score : Product -> World -> Py.result py_object * World.

(** The module-level dict, the outside world, the events of the call, and
    the local variables of [forward]. *)
Record store : Type := mkStore {
  miner_preds : gmap ProductId float;
  world : World;
  trace : list event;
  tasks : list Product;
  product_ids : list (nat * ProductId);
  predictions : list (option float);
  results : list (Py.result py_object);
  retry_tasks : list Product;
  retry_indices : list (nat * ProductId * nat);
  retry_results : list (Py.result py_object)
}.

Definition set_miner_preds (v : gmap ProductId float) (s : store) : store :=
  mkStore v (world s) (trace s) (tasks s) (product_ids s) (predictions s)
          (results s) (retry_tasks s) (retry_indices s) (retry_results s).
Definition set_world (v : World) (s : store) : store :=
  mkStore (miner_preds s) v (trace s) (tasks s) (product_ids s) (predictions s)
          (results s) (retry_tasks s) (retry_indices s) (retry_results s).
Definition set_trace (v : list event) (s : store) : store :=
  mkStore (miner_preds s) (world s) v (tasks s) (product_ids s) (predictions s)
          (results s) (retry_tasks s) (retry_indices s) (retry_results s).
Definition set_tasks (v : list Product) (s : store) : store :=
  mkStore (miner_preds s) (world s) (trace s) v (product_ids s) (predictions s)
          (results s) (retry_tasks s) (retry_indices s) (retry_results s).
Definition set_product_ids (v : list (nat * ProductId)) (s : store) : store :=
  mkStore (miner_preds s) (world s) (trace s) (tasks s) v (predictions s)
          (results s) (retry_tasks s) (retry_indices s) (retry_results s).
Definition set_predictions (v : list (option float)) (s : store) : store :=
  mkStore (miner_preds s) (world s) (trace s) (tasks s) (product_ids s) v
          (results s) (retry_tasks s) (retry_indices s) (retry_results s).
Definition set_results (v : list (Py.result py_object)) (s : store) : store :=
  mkStore (miner_preds s) (world s) (trace s) (tasks s) (product_ids s) (predictions s)
          v (retry_tasks s) (retry_indices s) (retry_results s).
Definition set_retry_tasks (v : list Product) (s : store) : store :=
  mkStore (miner_preds s) (world s) (trace s) (tasks s) (product_ids s) (predictions s)
          (results s) v (retry_indices s) (retry_results s).
Definition set_retry_indices (v : list (nat * ProductId * nat)) (s : store) : store :=
  mkStore (miner_preds s) (world s) (trace s) (tasks s) (product_ids s) (predictions s)
          (results s) (retry_tasks s) v (retry_results s).
Definition set_retry_results (v : list (Py.result py_object)) (s : store) : store :=
  mkStore (miner_preds s) (world s) (trace s) (tasks s) (product_ids s) (predictions s)
          (results s) (retry_tasks s) (retry_indices s) v.

Definition log (e : event) (s : store) : store := set_trace (trace s ++ [e]) s.

(** Statements run on the store and return a value or raise. *)
Definition M (A : Type) : Type := store -> Py.result A * store.

Definition ret {A : Type} (a : A) : M A := fun s => (Py.Return a, s).
Definition raise {A : Type} (e : Py.exn) : M A := fun s => (Py.Raise e, s).
Definition bindM {A B : Type} (m : M A) (k : A -> M B) : M B :=
  fun s => match m s with
           | (Py.Return a, s') => k a s'
           | (Py.Raise e, s') => (Py.Raise e, s')
           end.
Definition lift {A : Type} (r : Py.result A) : M A := fun s => (r, s).
Definition gets {A : Type} (f : store -> A) : M A := fun s => (Py.Return (f s), s).
Definition modify (f : store -> store) : M unit := fun s => (Py.Return tt, f s).

(** [try: body  except Exception as e: handler e]. *)
Definition try_except {A : Type} (body : M A) (handler : Py.exn -> M A) : M A :=
  fun s => match body s with
           | (Py.Return a, s') => (Py.Return a, s')
           | (Py.Raise e, s') => handler e s'
           end.

#[local] Instance M_ret : MRet M := @ret.
#[local] Instance M_bind : MBind M := fun A B k m => bindM m k.

(** [for i, x in enumerate(l): body i x], counting from [i]. *)
Fixpoint for_enumerate {A : Type} (body : nat -> A -> M unit) (i : nat) (l : list A) : M unit :=
  match l with
  | [] => ret tt
  | x :: l' => _ ← body i x; for_enumerate body (S i) l'
  end.

(** [l[i]] and [l[i] = x] raise [IndexError] out of range. *)
Definition getitem {A : Type} (l : list A) (i : nat) : M A :=
  match l !! i with
  | Some x => ret x
  | None => raise Py.IndexError
  end.
Definition setitem {A : Type} (l : list A) (i : nat) (x : A) : M (list A) :=
  if decide (i < length l)%nat then ret (<[i := x]> l) else raise Py.IndexError.

(** [predictions[i] = score]. *)
Definition set_prediction (i : nat) (score : option float) : M unit :=
  l ← gets predictions;
  l' ← setitem l i score;
  modify (set_predictions l').

(** [miner_preds[product_id] = score], on behalf of slot [i]. *)
Definition save_to_cache (i : nat) (product_id : ProductId) (score : float) : M unit :=
  modify (fun s => log (CacheWrite i product_id score)
                       (set_miner_preds (<[product_id := score]> (miner_preds s)) s)).

(** [fetch_product_data(product_id)], called for slot [i]. *)
Definition fetch (wv : wave) (i : nat) (product_id : ProductId) : M (option Product) :=
  fun s => let '(product, w) := fetch_product_data product_id (world s) in
           (Py.Return product,
            log (Fetch wv i product_id (bool_decide (is_Some product))) (set_world w s)).

(** [generate_review_score(product)]: the coroutine object; nothing runs
    before a gather awaits it. *)
Definition create_task (wv : wave) (i : nat) (product_id : ProductId) (product : Product) :
  M Product :=
  _ ← modify (log (Dispatch wv i product_id)); ret product.

(** *** asyncio.gather with return_exceptions=True

    Every awaitable gets a future; the event loop runs the awaitables to
    completion in an order of its own ([sched], then whatever is left in
    index order, since gather waits for all), each outcome is stored in the
    future of its awaitable, and the result list reads the futures in the
    order of the awaitables. *)
Fixpoint settle (order : list nat) (aws : list Product)
         (futs : list (option (Py.result py_object))) : M (list (option (Py.result py_object))) :=
  match order with
  | [] => ret futs
  | j :: order' =>
      match aws !! j, futs !! j with
      | Some p, Some None =>
          r ← (fun s => let '(r, w) := generate_review_score p (world s) in
                        (Py.Return r, log (Invoke j) (set_world w s)));
          settle order' aws (<[j := Some r]> futs)
      | _, _ => settle order' aws futs
      end
  end.

(** [fut.result()] of a future that is not done raises. *)
Definition future_result (fut : option (Py.result py_object)) : Py.result (Py.result py_object) :=
  match fut with
  | Some r => Py.Return r
  | None => Py.Raise Py.InvalidStateError
  end.

Definition gather (sched : list nat) (aws : list Product) : M (list (Py.result py_object)) :=
  futs ← settle (sched ++ seq 0 (length aws)) aws (replicate (length aws) None);
  lift (Py.for_each future_result futs).

(** *** The three loops of forward *)

(** Lines 78-91. *)
Definition partition_body (i : nat) (product_id : ProductId) : M unit :=
  cache ← gets miner_preds;
  match cache !! product_id with
  | Some cached => set_prediction i (Some cached)
  | None =>
      product ← fetch FirstWave i product_id;
      match product with
      | Some p =>
          _ ← modify (fun s => set_product_ids (product_ids s ++ [(i, product_id)]) s);
          t ← create_task FirstWave i product_id p;
          modify (fun s => set_tasks (tasks s ++ [t]) s)
      | None => set_prediction i None
      end
  end.

(** The block "Queue a retry" (lines 111-114, 124-127 and 135-138). *)
Definition queue_retry (i : nat) (product_id : ProductId) (task_index : nat) : M unit :=
  product ← fetch RetryWave i product_id;
  match product with
  | Some p =>
      t ← create_task RetryWave i product_id p;
      _ ← modify (fun s => set_retry_tasks (retry_tasks s ++ [t]) s);
      modify (fun s => set_retry_indices (retry_indices s ++ [(i, product_id, task_index)]) s)
  | None => ret tt
  end.

(** Lines 105-138. *)
Definition first_wave_body (task_index : nat) (result : Py.result py_object) : M unit :=
  ids ← gets product_ids;
  '(i, product_id) ← getitem ids task_index;
  match result with
  | Py.Raise _ => queue_retry i product_id task_index
  | Py.Return obj =>
      try_except
        (score ← lift (get_overall_score obj);
         match score with
         | Some sc =>
             if (sc <? 0)%float || (100 <? sc)%float
             then queue_retry i product_id task_index
             else _ ← set_prediction i (Some sc); save_to_cache i product_id sc
         | None => queue_retry i product_id task_index
         end)
        (fun _ => queue_retry i product_id task_index)
  end.

Definition fallback_score : float := 50.0%float.

(** Lines 145-172. *)
Definition retry_body (retry_index : nat) (retry_result : Py.result py_object) : M unit :=
  idx ← gets retry_indices;
  '(i, product_id, original_index) ← getitem idx retry_index;
  try_except
    (obj ← lift retry_result;
     score ← lift (get_overall_score obj);
     match score with
     | Some sc =>
         if (0 <=? sc)%float && (sc <=? 100)%float
         then _ ← set_prediction i (Some sc); save_to_cache i product_id sc
         else _ ← set_prediction i (Some fallback_score);
              save_to_cache i product_id fallback_score
     | None => _ ← set_prediction i (Some fallback_score);
               save_to_cache i product_id fallback_score
     end)
    (fun _ => _ ← set_prediction i (Some fallback_score);
              save_to_cache i product_id fallback_score).

(** Lines 63-179; the value is [synapse.response]. [sched1] and [sched2]
    are the orders in which the event loop completes the awaitables of the
    two gathers. The trace starts empty, so that it holds the events of this
    call, and so do the locals the call has not bound yet. *)
Definition forward (sched1 sched2 : list nat) (query : list ProductId) : M (list (option float)) :=
  _ ← modify (fun s => mkStore (miner_preds s) (world s) [] [] []
                               (replicate (length query) None) [] [] [] []);
  _ ← for_enumerate partition_body 0 query;
  ts ← gets tasks;
  match ts with
  | [] => gets predictions
  | _ =>
      rs ← gather sched1 ts;
      _ ← modify (set_results rs);
      _ ← modify (fun s => set_retry_indices [] (set_retry_tasks [] s));
      _ ← for_enumerate first_wave_body 0 rs;
      rts ← gets retry_tasks;
      _ ← match rts with
          | [] => ret tt
          | _ =>
              rrs ← gather sched2 rts;
              _ ← modify (set_retry_results rrs);
              for_enumerate retry_body 0 rrs
          end;
      gets predictions
  end.

(** The miner process: [miner_preds = {}] when the module is loaded, then
    one call of [forward] per request, each with the completion orders of
    its own two gathers. *)
Fixpoint serve (requests : list (list nat * list nat * list ProductId)) (s : store) :
  list (Py.result (list (option float))) * store :=
  match requests with
  | [] => ([], s)
  | (sched1, sched2, query) :: requests' =>
      let '(response, s') := forward sched1 sched2 query s in
      let '(responses, s'') := serve requests' s' in
      (response :: responses, s'')
  end.

End Forward.

Arguments store World Product : clear implicits.
Arguments M World Product A : clear implicits.

(** ** Scores as binary64 numbers *)

(** A number in the closed range [0, 100]. *)
Definition in_range (x : float) : bool := (0 <=? x)%float && (x <=? 100)%float.

Lemma ltb_leb (x y : float) : (x <? y)%float = true -> (x <=? y)%float = true.
Proof.
  rewrite ltb_spec, leb_spec. unfold SFltb, SFleb.
  destruct (SFcompare _ _) as [[]|]; congruence.
Qed.

(** Whatever the weighted sum is (infinite or not a number included), the
    clamp of line 58 hands on a number in [0, 100]. *)
Lemma clamp_0_100_in_range (x : float) : in_range (clamp_0_100 x) = true.
Proof.
  unfold clamp_0_100, Py.min, Py.max, in_range.
  destruct (x <? 100)%float eqn:Hhi.
  - destruct (0 <? x)%float eqn:Hlo.
    + rewrite (ltb_leb _ _ Hlo), (ltb_leb _ _ Hhi). reflexivity.
    + reflexivity.
  - reflexivity.
Qed.

Lemma digits2_pos_bound (m : positive) : Z.pos m < 2 ^ Z.pos (digits2_pos m).
Proof.
  induction m as [m IH | m IH |]; simpl digits2_pos.
  - rewrite Pos2Z.inj_succ, Z.pow_succ_r by lia. lia.
  - rewrite Pos2Z.inj_succ, Z.pow_succ_r by lia. lia.
  - reflexivity.
Qed.

(** The mantissa of a binary64 has at most 53 bits. *)
Lemma valid_mantissa_bound (s : bool) (m : positive) (e : Z) :
  valid_binary (S754_finite s m e) = true -> Z.pos m < 2 ^ 53.
Proof.
  unfold valid_binary, SpecFloat.valid_binary, bounded, canonical_mantissa, fexp.
  intros H. apply andb_prop in H as [H _]. apply Z.eqb_eq in H.
  pose proof (digits2_pos_bound m) as Hm.
  assert (Hd : Z.pos (digits2_pos m) <= 53) by (unfold prec in H; lia).
  eapply Z.lt_le_trans; [exact Hm|].
  apply Z.pow_le_mono_r; lia.
Qed.

Lemma Prim2SF_0 : Prim2SF 0 = S754_zero false.
Proof. vm_compute. reflexivity. Qed.

Lemma Prim2SF_100 : Prim2SF 100 = S754_finite false 7036874417766400 (-46).
Proof. vm_compute. reflexivity. Qed.

Lemma SFleb_zero_finite (s : bool) (m : positive) (e : Z) :
  SFleb (S754_zero false) (S754_finite s m e) = true -> s = false.
Proof. destruct s; [discriminate | reflexivity]. Qed.

Lemma SFleb_finite (m1 m2 : positive) (e1 e2 : Z) :
  SFleb (S754_finite false m1 e1) (S754_finite false m2 e2) = true ->
  e1 < e2 \/ (e1 = e2 /\ Z.pos m1 <= Z.pos m2).
Proof.
  unfold SFleb, SFcompare.
  destruct (e1 ?= e2) eqn:He.
  - apply Z.compare_eq in He. rewrite Pos.compare_cont_spec.
    intros H. right. split; [exact He|].
    apply Pos2Z.pos_le_pos.
    unfold Pos.le. destruct (m1 ?= m2)%positive; simpl in H; congruence.
  - rewrite Z.compare_lt_iff in He. left. exact He.
  - discriminate.
Qed.

Lemma pow2_46 : 2 ^ (- -46) = 70368744177664.
Proof. reflexivity. Qed.

Lemma mantissa_below_128 (m : positive) (e : Z) :
  Z.pos m < 2 ^ 53 -> e < -46 -> Z.pos m * 100 <= 10000 * 2 ^ (- e).
Proof.
  intros Hv He.
  assert (H53 : 2 ^ 53 = 9007199254740992) by reflexivity.
  assert (Hp : 2 ^ 47 <= 2 ^ (- e)) by (apply Z.pow_le_mono_r; lia).
  assert (H47 : 2 ^ 47 = 140737488355328) by reflexivity.
  lia.
Qed.

(** A finite binary64 in [0, 100], read as the exact number [m * 2^e]. *)
Lemma in_range_finite (x : float) (s : bool) (m : positive) (e : Z) :
  Prim2SF x = S754_finite s m e -> in_range x = true ->
  s = false /\ e < 0 /\ Z.pos m * 100 <= 10000 * 2 ^ (- e).
Proof.
  intros Hx Hr. unfold in_range in Hr. apply andb_prop in Hr as [Hlo Hhi].
  pose proof (Prim2SF_valid x) as Hv. rewrite Hx in Hv.
  apply valid_mantissa_bound in Hv.
  rewrite leb_spec, Hx in Hlo, Hhi.
  rewrite Prim2SF_0 in Hlo. rewrite Prim2SF_100 in Hhi.
  apply SFleb_zero_finite in Hlo. subst s. split; [reflexivity|].
  apply SFleb_finite in Hhi.
  destruct Hhi as [He | [-> Hm]].
  - split; [clear - He; lia|]. apply mantissa_below_128; assumption.
  - split; [reflexivity|]. rewrite pow2_46. clear - Hm. lia.
Qed.

Lemma div_half_even_bounds (a d n : Z) :
  0 <= a -> 0 < d -> a <= n * d -> 0 <= Py.div_half_even a d <= n.
Proof.
  intros Ha Hd Hn. unfold Py.div_half_even.
  pose proof (Z.div_mod a d ltac:(lia)) as Hdiv.
  pose proof (Z.mod_pos_bound a d Hd) as Hr.
  assert (Hq : 0 <= a / d) by (apply Z.div_pos; lia).
  assert (Hqn : a / d <= n).
  { apply Z.div_le_upper_bound; lia. }
  assert (Hlast : a / d = n -> a mod d = 0) by nia.
  destruct (2 * (a mod d) ?= d) eqn:Hc.
  - apply Z.compare_eq in Hc.
    destruct (Z.even (a / d)); [lia|].
    assert (a / d <> n) by (intros Hq'; apply Hlast in Hq'; lia). lia.
  - lia.
  - rewrite Z.compare_gt_iff in Hc.
    assert (a / d <> n) by (intros Hq'; apply Hlast in Hq'; lia). lia.
Qed.

(** Reading back any number of hundredths from 0 to 10000 gives a binary64
    in [0, 100]: checked on each of them. *)
Lemma of_hundredths_in_range (n : Z) :
  0 <= n <= 10000 -> in_range (Py.of_hundredths false n) = true.
Proof.
  intros Hn.
  assert (Hall : forallb (fun a => forallb (fun b =>
                   let k := Z.of_nat a * 100 + Z.of_nat b in
                   (10000 <? k) || in_range (Py.of_hundredths false k))
                   (seq 0 100)) (seq 0 101) = true) by (vm_compute; reflexivity).
  rewrite List.forallb_forall in Hall.
  specialize (Hall (Z.to_nat (n / 100))).
  rewrite List.forallb_forall in Hall.
  pose proof (Z.div_mod n 100 ltac:(lia)) as Hdiv.
  pose proof (Z.mod_pos_bound n 100 ltac:(lia)) as Hmod.
  assert (Hq : 0 <= n / 100 <= 100).
  { split; [apply Z.div_pos; lia | apply Z.div_le_upper_bound; lia]. }
  specialize (Hall ltac:(apply List.in_seq; lia) (Z.to_nat (n mod 100))
                   ltac:(apply List.in_seq; lia)).
  rewrite !Z2Nat.id in Hall by lia.
  replace (n / 100 * 100 + n mod 100) with n in Hall by lia.
  simpl in Hall. destruct (10000 <? n) eqn:Hgt; [apply Z.ltb_lt in Hgt; lia | exact Hall].
Qed.

(** [round(x, 2)] keeps a number of [0, 100] in [0, 100]. *)
Lemma round2_in_range (x : float) : in_range x = true -> in_range (Py.round2 x) = true.
Proof.
  intros Hr. unfold Py.round2.
  destruct (Prim2SF x) as [s | s | | s m e] eqn:Hx; try exact Hr.
  destruct (in_range_finite x s m e Hx Hr) as (-> & He & Hm).
  apply of_hundredths_in_range. unfold Py.hundredths.
  destruct (0 <=? e) eqn:He'; [apply Z.leb_le in He'; lia|].
  apply div_half_even_bounds; [lia | apply Z.pow_pos_nonneg; lia | exact Hm].
Qed.

(** Every score the aggregation returns is a number in [0, 100], whatever
    the criteria are. *)
Lemma get_overall_score_in_range (obj : py_object) (sc : float) :
  get_overall_score obj = Py.Return (Some sc) -> in_range sc = true.
Proof.
  destruct obj as [r|]; simpl; [|discriminate].
  unfold mbind, result_bind.
  destruct (weighted_sum (breakdown r)) as [x|e]; simpl; [|discriminate].
  intros [= <-]. apply round2_in_range, clamp_0_100_in_range.
Qed.

(** An [int] that [float()] converts: one whose nearest binary64 is finite. *)
Definition fits_float (v : Z) : Prop := exists f, Py.float_of_int v = Py.Return f.

Lemma normalized_score_returns (v : Z) :
  fits_float v -> exists n, normalized_score v = Py.Return n.
Proof.
  intros [f Hf]. unfold normalized_score, Py.mul_int_float.
  destruct (v <=? 2); [rewrite Hf; simpl; eauto|].
  destruct (v >=? 9); [|eauto].
  unfold mbind, result_bind. rewrite Hf. simpl. eauto.
Qed.

Lemma for_each_returns {A B : Type} (f : A -> Py.result B) (l : list A) :
  (forall x, exists y, f x = Py.Return y) -> exists ys, Py.for_each f l = Py.Return ys.
Proof.
  intros Hf. induction l as [|x l [ys IH]]; simpl; [eauto|].
  destruct (Hf x) as [y ->]. simpl. rewrite IH. simpl. eauto.
Qed.

(** The aggregation raises only where a criterion does not convert. *)
Lemma weighted_sum_returns (b : ScoreBreakdown) :
  (forall key, fits_float (getattr b key)) -> exists x, weighted_sum b = Py.Return x.
Proof.
  intros Hfits. unfold weighted_sum, mbind, result_bind.
  destruct (for_each_returns
              (fun key => Py.bind (normalized_score (getattr b key))
                                  (fun n => Py.Return (n * weights key)%float))
              model_fields) as [terms Hterms].
  { intros key. destruct (normalized_score_returns _ (Hfits key)) as [n ->].
    simpl. eauto. }
  rewrite Hterms. simpl. eauto.
Qed.

(** ** What forward makes of one oracle outcome *)

(** The score the first-wave loop accepts for an outcome of the gather, if
    it accepts one: the outcome is not an exception, the aggregation returns
    a score, and the check of line 121 passes. *)
Definition first_wave_score (result : Py.result py_object) : option float :=
  match result with
  | Py.Return obj =>
      match get_overall_score obj with
      | Py.Return (Some sc) =>
          if (sc <? 0)%float || (100 <? sc)%float then None else Some sc
      | _ => None
      end
  | Py.Raise _ => None
  end.

(** The score the retry loop stores for an outcome of the second gather. *)
Definition retry_score (retry_result : Py.result py_object) : float :=
  match retry_result with
  | Py.Return obj =>
      match get_overall_score obj with
      | Py.Return (Some sc) =>
          if (0 <=? sc)%float && (sc <=? 100)%float then sc else fallback_score
      | _ => fallback_score
      end
  | Py.Raise _ => fallback_score
  end.

(** The retry "fails or yields an invalid score". *)
Definition retry_failed (retry_result : Py.result py_object) : bool :=
  match retry_result with
  | Py.Return obj =>
      match get_overall_score obj with
      | Py.Return (Some sc) => negb ((0 <=? sc)%float && (sc <=? 100)%float)
      | _ => true
      end
  | Py.Raise _ => true
  end.

(** The lookups, the dispatches and the cache writes of a trace. *)
Definition fetched (wv : wave) (t : list event) : list (nat * ProductId * bool) :=
  omap (fun e => match e with
                 | Fetch wv' i id found => if decide (wv' = wv) then Some (i, id, found) else None
                 | _ => None
                 end) t.

Definition dispatched (wv : wave) (t : list event) : list (nat * ProductId) :=
  omap (fun e => match e with
                 | Dispatch wv' i id => if decide (wv' = wv) then Some (i, id) else None
                 | _ => None
                 end) t.

Definition writes (t : list event) : list (nat * ProductId * float) :=
  omap (fun e => match e with
                 | CacheWrite i id sc => Some (i, id, sc)
                 | _ => None
                 end) t.

Definition invoked (t : list event) : list nat :=
  omap (fun e => match e with Invoke k => Some k | _ => None end) t.

(** A cache all of whose scores are numbers in [0, 100]. *)
Definition cache_ok (cache : gmap ProductId float) : Prop :=
  forall id c, cache !! id = Some c -> in_range c = true.

(** The cache after a sequence of writes. *)
Definition replay (ws : list (nat * ProductId * float)) (cache : gmap ProductId float) :
  gmap ProductId float :=
  foldl (fun m w => <[w.1.2 := w.2]> m) cache ws.

Lemma first_wave_score_in_range (r : Py.result py_object) (sc : float) :
  first_wave_score r = Some sc -> in_range sc = true.
Proof.
  destruct r as [obj|e]; simpl; [|discriminate].
  destruct (get_overall_score obj) as [[sc'|]|e] eqn:Hs; try discriminate.
  destruct (_ || _); [discriminate|]. intros [= <-].
  eapply get_overall_score_in_range; eassumption.
Qed.

Lemma fallback_in_range : in_range fallback_score = true.
Proof. vm_compute. reflexivity. Qed.

Lemma retry_score_in_range (r : Py.result py_object) : in_range (retry_score r) = true.
Proof.
  destruct r as [obj|e]; simpl; [|apply fallback_in_range].
  destruct (get_overall_score obj) as [[sc'|]|e] eqn:Hs; try apply fallback_in_range.
  destruct (_ && _) eqn:Hg; [exact Hg | apply fallback_in_range].
Qed.

Lemma retry_failed_score (r : Py.result py_object) :
  retry_failed r = true -> retry_score r = fallback_score.
Proof.
  destruct r as [obj|e]; simpl; [|reflexivity].
  destruct (get_overall_score obj) as [[sc'|]|e]; try reflexivity.
  destruct (_ && _); [discriminate | reflexivity].
Qed.

Lemma SFleb_not_ltb (x y : spec_float) : SFleb x y = true -> SFltb y x = false.
Proof.
  unfold SFleb, SFltb.
  destruct x as [[]|[]| |[] m1 e1], y as [[]|[]| |[] m2 e2]; simpl; try congruence.
  - rewrite (Z.compare_antisym e2 e1), !Pos.compare_cont_spec, (Pos.compare_antisym m2 m1).
    destruct (e2 ?= e1); simpl; try congruence.
    destruct (m2 ?= m1)%positive; simpl; congruence.
  - rewrite (Z.compare_antisym e2 e1), !Pos.compare_cont_spec, (Pos.compare_antisym m2 m1).
    destruct (e2 ?= e1); simpl; try congruence.
    destruct (m2 ?= m1)%positive; simpl; congruence.
Qed.

Lemma leb_not_ltb (x y : float) : (x <=? y)%float = true -> (y <? x)%float = false.
Proof. rewrite leb_spec, ltb_spec. apply SFleb_not_ltb. Qed.

(** The check of line 121 never turns down a score the aggregation
    returned: only [None] reaches the "Invalid score" branch. *)
Lemma first_wave_check_passes (obj : py_object) (sc : float) :
  get_overall_score obj = Py.Return (Some sc) ->
  (sc <? 0)%float || (100 <? sc)%float = false.
Proof.
  intros Hs. apply get_overall_score_in_range in Hs.
  unfold in_range in Hs. apply andb_prop in Hs as [Hlo Hhi].
  rewrite (leb_not_ltb _ _ Hlo), (leb_not_ltb _ _ Hhi). reflexivity.
Qed.

(** ** Traces and sorted tags *)

Lemma fetched_app (wv : wave) (t1 t2 : list event) :
  fetched wv (t1 ++ t2) = fetched wv t1 ++ fetched wv t2.
Proof. apply omap_app. Qed.

Lemma dispatched_app (wv : wave) (t1 t2 : list event) :
  dispatched wv (t1 ++ t2) = dispatched wv t1 ++ dispatched wv t2.
Proof. apply omap_app. Qed.

Lemma writes_app (t1 t2 : list event) : writes (t1 ++ t2) = writes t1 ++ writes t2.
Proof. apply omap_app. Qed.

Lemma invoked_app (t1 t2 : list event) : invoked (t1 ++ t2) = invoked t1 ++ invoked t2.
Proof. apply omap_app. Qed.

Lemma fetched_invokes (wv : wave) (js : list nat) : fetched wv (map Invoke js) = [].
Proof. induction js; simpl; auto. Qed.

Lemma dispatched_invokes (wv : wave) (js : list nat) : dispatched wv (map Invoke js) = [].
Proof. induction js; simpl; auto. Qed.

Lemma writes_invokes (js : list nat) : writes (map Invoke js) = [].
Proof. induction js; simpl; auto. Qed.

Lemma invoked_invokes (js : list nat) : invoked (map Invoke js) = js.
Proof. induction js as [|j js IH]; simpl; [|f_equal; exact IH]; auto. Qed.

Lemma replay_app (ws1 ws2 : list (nat * ProductId * float)) (m : gmap ProductId float) :
  replay (ws1 ++ ws2) m = replay ws2 (replay ws1 m).
Proof. apply foldl_app. Qed.

(** A product id no write names keeps its entry. *)
Lemma replay_lookup_other (ws : list (nat * ProductId * float)) (m : gmap ProductId float)
      (id : ProductId) :
  (forall i sc, (i, id, sc) ∉ ws) -> replay ws m !! id = m !! id.
Proof.
  revert m. induction ws as [|[[i id'] sc] ws IH]; intros m Hno; simpl; [reflexivity|].
  rewrite IH.
  - apply lookup_insert_ne. intros ->. apply (Hno i sc). apply list_elem_of_here.
  - intros i' sc' Hin. apply (Hno i' sc'). apply list_elem_of_further. exact Hin.
Qed.

(** A product id written at least once, always with the same score, ends
    with that score. *)
Lemma replay_lookup_same (ws : list (nat * ProductId * float)) (m : gmap ProductId float)
      (id : ProductId) (sc : float) :
  (exists i, (i, id, sc) ∈ ws) ->
  (forall i sc', (i, id, sc') ∈ ws -> sc' = sc) ->
  replay ws m !! id = Some sc.
Proof.
  revert m. induction ws as [|[[i id'] sc'] ws IH] using rev_ind; intros m [i0 Hin] Hall.
  - inversion Hin.
  - rewrite replay_app. simpl.
    destruct (decide (id' = id)) as [->|Hne].
    + rewrite lookup_insert_eq. f_equal. apply (Hall i).
      apply elem_of_app. right. apply list_elem_of_here.
    + rewrite lookup_insert_ne by exact Hne. apply IH.
      * apply elem_of_app in Hin as [Hin|Hin]; [exists i0; exact Hin|].
        apply list_elem_of_singleton in Hin. congruence.
      * intros i1 sc1 Hin1. apply (Hall i1). apply elem_of_app. left. exact Hin1.
Qed.

(** Every entry of the cache after a replay is an old entry or a write. *)
Lemma replay_lookup_inv (ws : list (nat * ProductId * float)) (m : gmap ProductId float)
      (id : ProductId) (sc : float) :
  replay ws m !! id = Some sc -> m !! id = Some sc \/ exists i, (i, id, sc) ∈ ws.
Proof.
  revert m. induction ws as [|[[i id'] sc'] ws IH]; intros m; simpl; [auto|].
  intros H. apply IH in H as [H | [i0 H]].
  - destruct (decide (id' = id)) as [->|Hne].
    + rewrite lookup_insert_eq in H. injection H as ->.
      right. exists i. apply list_elem_of_here.
    + rewrite lookup_insert_ne in H by exact Hne. left. exact H.
  - right. exists i0. apply list_elem_of_further. exact H.
Qed.

(** Tags in increasing order of a key. *)
Definition increasing {A : Type} (f : A -> nat) (l : list A) : Prop :=
  forall k1 k2 x1 x2,
    (k1 < k2)%nat -> l !! k1 = Some x1 -> l !! k2 = Some x2 -> (f x1 < f x2)%nat.

Lemma increasing_nil {A : Type} (f : A -> nat) : increasing f [].
Proof. intros k1 k2 x1 x2 _ H. rewrite lookup_nil in H. discriminate. Qed.

Lemma increasing_snoc {A : Type} (f : A -> nat) (l : list A) (y : A) :
  increasing f l -> (forall k x, l !! k = Some x -> (f x < f y)%nat) -> increasing f (l ++ [y]).
Proof.
  intros Hinc Hy k1 k2 x1 x2 Hlt H1 H2.
  apply lookup_snoc_Some in H1 as [[Hk1 H1]|[Hk1 <-]];
    apply lookup_snoc_Some in H2 as [[Hk2 H2]|[Hk2 <-]]; try lia.
  - apply (Hinc k1 k2 x1 x2); assumption.
  - apply (Hy k1 x1). assumption.
Qed.

Lemma increasing_inj {A : Type} (f : A -> nat) (l : list A) (k1 k2 : nat) (x1 x2 : A) :
  increasing f l -> l !! k1 = Some x1 -> l !! k2 = Some x2 -> f x1 = f x2 -> k1 = k2.
Proof.
  intros Hinc H1 H2 Hf.
  destruct (Nat.lt_trichotomy k1 k2) as [Hlt|[Heq|Hgt]]; [|exact Heq|].
  - pose proof (Hinc _ _ _ _ Hlt H1 H2). lia.
  - pose proof (Hinc _ _ _ _ Hgt H2 H1). lia.
Qed.

Lemma increasing_tail {A : Type} (f : A -> nat) (x : A) (l : list A) :
  increasing f (x :: l) -> increasing f l /\ forall y, y ∈ l -> (f x < f y)%nat.
Proof.
  intros Hinc. split.
  - intros k1 k2 x1 x2 Hlt H1 H2. apply (Hinc (S k1) (S k2)); simpl; auto. lia.
  - intros y Hy. apply list_elem_of_lookup in Hy as [k Hk].
    apply (Hinc 0%nat (S k)); simpl; auto. lia.
Qed.

Lemma increasing_fmap {A B : Type} (f : B -> nat) (g : A -> B) (l : list A) :
  increasing (fun x => f (g x)) l -> increasing f (g <$> l).
Proof.
  intros Hinc k1 k2 y1 y2 Hlt H1 H2.
  rewrite list_lookup_fmap in H1, H2.
  destruct (l !! k1) as [x1|] eqn:E1; [|discriminate].
  destruct (l !! k2) as [x2|] eqn:E2; [|discriminate].
  simpl in H1, H2. injection H1 as <-. injection H2 as <-.
  apply (Hinc k1 k2 x1 x2); assumption.
Qed.

(** The number of tags of a slot. *)
Definition tags_of_slot {B : Type} (i : nat) (l : list (nat * B)) : nat :=
  length (filter (fun x => x.1 = i) l).

Lemma tags_of_slot_le_1 {B : Type} (i : nat) (l : list (nat * B)) :
  increasing fst l -> (tags_of_slot i l <= 1)%nat.
Proof.
  unfold tags_of_slot. induction l as [|x l IH]; intros Hinc; simpl; [lia|].
  apply increasing_tail in Hinc as [Hinc Hlt].
  rewrite filter_cons. destruct (decide (x.1 = i)) as [Hx|Hx]; [|apply IH; exact Hinc].
  simpl. assert (Hnone : filter (fun y : nat * B => y.1 = i) l = []).
  { destruct (filter (fun y : nat * B => y.1 = i) l) as [|y l'] eqn:Hf; [reflexivity|].
    assert (Hy : y ∈ filter (fun y : nat * B => y.1 = i) l)
      by (rewrite Hf; apply list_elem_of_here).
    apply list_elem_of_filter in Hy as [Hyi Hy]. specialize (Hlt y Hy). lia. }
  rewrite Hnone. simpl. lia.
Qed.

Lemma tags_of_slot_ge_1 {B : Type} (i : nat) (b : B) (l : list (nat * B)) :
  (i, b) ∈ l -> (1 <= tags_of_slot i l)%nat.
Proof.
  unfold tags_of_slot. intros Hin.
  assert (Hf : (i, b) ∈ filter (fun x : nat * B => x.1 = i) l)
    by (apply list_elem_of_filter; split; [reflexivity | exact Hin]).
  destruct (filter _ l); [inversion Hf | simpl; lia].
Qed.

(** ** Running the statements of forward *)

Section ForwardFacts.

Context {World Product : Type}.
Variable fetch_product_data : ProductId -> World -> option Product * World.
Variable generate_review_score : Product -> World -> Py.result py_object * World.

#[local] Abbreviation store := (store World Product).
#[local] Abbreviation M := (M World Product).

(** The loop rule: an invariant that every turn of the loop re-establishes,
    without raising, holds when the loop is over. *)
Lemma for_enumerate_inv {A : Type} (body : nat -> A -> M unit)
      (I : nat -> store -> Prop) (l : list A) :
  forall (i : nat) (s : store),
    I i s ->
    (forall (k : nat) (x : A) (s1 : store),
        l !! k = Some x -> I (i + k)%nat s1 ->
        exists s2, body (i + k)%nat x s1 = (Py.Return tt, s2) /\ I (S (i + k)) s2) ->
    exists s', for_enumerate body i l s = (Py.Return tt, s') /\ I (i + length l)%nat s'.
Proof.
  induction l as [|x l IH]; intros i s Hi Hbody; simpl.
  - exists s. rewrite Nat.add_0_r. split; [reflexivity | exact Hi].
  - destruct (Hbody 0%nat x s eq_refl) as (s2 & Hrun & Hi2).
    { rewrite Nat.add_0_r. exact Hi. }
    rewrite Nat.add_0_r in Hrun, Hi2.
    unfold mbind, M_bind, bindM. rewrite Hrun.
    destruct (IH (S i) s2 Hi2) as (s' & Hrun' & Hi').
    { intros k y s1 Hk Hinv. replace (S i + k)%nat with (i + S k)%nat in * by lia.
      apply Hbody; assumption. }
    exists s'. split; [exact Hrun'|].
    replace (i + S (length l))%nat with (S i + length l)%nat by lia. exact Hi'.
Qed.

Lemma set_prediction_run (i : nat) (v : option float) (s : store) :
  (i < length (predictions s))%nat ->
  set_prediction i v s = (Py.Return tt, set_predictions (<[i := v]> (predictions s)) s).
Proof.
  intros Hi. unfold set_prediction, mbind, M_bind, bindM, gets, setitem. simpl.
  destruct (decide (i < length (predictions s))%nat); [reflexivity | contradiction].
Qed.

(** The three ways a turn of the partition loop goes. *)
Lemma partition_body_cached (i : nat) (id : ProductId) (s : store) (c : float) :
  miner_preds s !! id = Some c ->
  (i < length (predictions s))%nat ->
  partition_body fetch_product_data i id s
  = (Py.Return tt, set_predictions (<[i := Some c]> (predictions s)) s).
Proof.
  intros Hc Hi. unfold partition_body, mbind, M_bind, bindM, gets. simpl.
  rewrite Hc. apply set_prediction_run; exact Hi.
Qed.

Lemma partition_body_found (i : nat) (id : ProductId) (s : store) (p : Product) (w : World) :
  miner_preds s !! id = None ->
  fetch_product_data id (world s) = (Some p, w) ->
  partition_body fetch_product_data i id s
  = (Py.Return tt,
     set_tasks (tasks s ++ [p])
       (log (Dispatch FirstWave i id)
          (set_product_ids (product_ids s ++ [(i, id)])
             (log (Fetch FirstWave i id true) (set_world w s))))).
Proof.
  intros Hc Hf. unfold partition_body, mbind, M_bind, bindM, gets, fetch. simpl.
  rewrite Hc, Hf. reflexivity.
Qed.

Lemma partition_body_absent (i : nat) (id : ProductId) (s : store) (w : World) :
  miner_preds s !! id = None ->
  fetch_product_data id (world s) = (None, w) ->
  (i < length (predictions s))%nat ->
  partition_body fetch_product_data i id s
  = (Py.Return tt,
     set_predictions (<[i := None]> (predictions s))
       (log (Fetch FirstWave i id false) (set_world w s))).
Proof.
  intros Hc Hf Hi. unfold partition_body, mbind, M_bind, bindM, gets, fetch. simpl.
  rewrite Hc, Hf. simpl. rewrite set_prediction_run by exact Hi. reflexivity.
Qed.

(** The two ways the block "Queue a retry" goes. *)
Lemma queue_retry_found (i : nat) (id : ProductId) (k : nat) (s : store) (p : Product) (w : World) :
  fetch_product_data id (world s) = (Some p, w) ->
  queue_retry fetch_product_data i id k s
  = (Py.Return tt,
     set_retry_indices (retry_indices s ++ [(i, id, k)])
       (set_retry_tasks (retry_tasks s ++ [p])
          (log (Dispatch RetryWave i id)
             (log (Fetch RetryWave i id true) (set_world w s))))).
Proof.
  intros Hf. unfold queue_retry, mbind, M_bind, bindM, fetch. simpl.
  rewrite Hf. reflexivity.
Qed.

Lemma queue_retry_absent (i : nat) (id : ProductId) (k : nat) (s : store) (w : World) :
  fetch_product_data id (world s) = (None, w) ->
  queue_retry fetch_product_data i id k s
  = (Py.Return tt, log (Fetch RetryWave i id false) (set_world w s)).
Proof.
  intros Hf. unfold queue_retry, mbind, M_bind, bindM, fetch. simpl.
  rewrite Hf. reflexivity.
Qed.

Lemma queue_retry_returns (i : nat) (id : ProductId) (k : nat) (s : store) :
  exists s', queue_retry fetch_product_data i id k s = (Py.Return tt, s').
Proof.
  destruct (fetch_product_data id (world s)) as [[p|] w] eqn:Hf.
  - eexists. apply queue_retry_found. exact Hf.
  - eexists. apply queue_retry_absent. exact Hf.
Qed.

(** A turn of the first-wave loop either stores the accepted score or
    queues a retry. *)
Lemma first_wave_body_accept (k i : nat) (id : ProductId) (r : Py.result py_object)
      (sc : float) (s : store) :
  product_ids s !! k = Some (i, id) ->
  first_wave_score r = Some sc ->
  (i < length (predictions s))%nat ->
  first_wave_body fetch_product_data k r s
  = (Py.Return tt,
     log (CacheWrite i id sc)
       (set_miner_preds (<[id := sc]> (miner_preds s))
          (set_predictions (<[i := Some sc]> (predictions s)) s))).
Proof.
  intros Hk Hsc Hi.
  unfold first_wave_body, mbind, M_bind, bindM, gets, getitem. simpl. rewrite Hk. simpl.
  destruct r as [obj|e]; [|discriminate]. simpl in Hsc.
  unfold try_except, lift. simpl.
  destruct (get_overall_score obj) as [[sc'|]|e]; try discriminate.
  destruct (_ || _); [discriminate|]. injection Hsc as ->.
  rewrite set_prediction_run by exact Hi. reflexivity.
Qed.

Lemma first_wave_body_reject (k i : nat) (id : ProductId) (r : Py.result py_object) (s : store) :
  product_ids s !! k = Some (i, id) ->
  first_wave_score r = None ->
  first_wave_body fetch_product_data k r s = queue_retry fetch_product_data i id k s.
Proof.
  intros Hk Hsc.
  unfold first_wave_body, mbind, M_bind, bindM, gets, getitem. simpl. rewrite Hk. simpl.
  destruct r as [obj|e]; [|reflexivity]. simpl in Hsc.
  unfold try_except, lift. simpl.
  destruct (queue_retry_returns i id k s) as (s' & Hq).
  destruct (get_overall_score obj) as [[sc'|]|e]; simpl; rewrite ?Hq; try reflexivity.
  destruct (_ || _); [rewrite Hq; reflexivity | discriminate].
Qed.

(** A turn of the retry loop always stores a score. *)
Lemma retry_body_run (k' i : nat) (id : ProductId) (k : nat) (r : Py.result py_object) (s : store) :
  retry_indices s !! k' = Some (i, id, k) ->
  (i < length (predictions s))%nat ->
  retry_body k' r s
  = (Py.Return tt,
     log (CacheWrite i id (retry_score r))
       (set_miner_preds (<[id := retry_score r]> (miner_preds s))
          (set_predictions (<[i := Some (retry_score r)]> (predictions s)) s))).
Proof.
  intros Hk Hi.
  unfold retry_body, mbind, M_bind, bindM, gets, getitem. simpl. rewrite Hk. simpl.
  unfold try_except, lift. simpl.
  destruct r as [obj|e]; simpl.
  - destruct (get_overall_score obj) as [[sc'|]|e]; simpl;
      [destruct (_ && _)| |]; rewrite set_prediction_run by exact Hi; reflexivity.
  - rewrite set_prediction_run by exact Hi. reflexivity.
Qed.

(** *** The gather *)

(** What a gather leaves alone: everything but the world and the trace. *)
Definition same_frame (s s' : store) : Prop :=
  miner_preds s' = miner_preds s /\ tasks s' = tasks s /\
  product_ids s' = product_ids s /\ predictions s' = predictions s /\
  results s' = results s /\ retry_tasks s' = retry_tasks s /\
  retry_indices s' = retry_indices s /\ retry_results s' = retry_results s.

Lemma same_frame_refl (s : store) : same_frame s s.
Proof. repeat split. Qed.

Lemma same_frame_trans (s1 s2 s3 : store) :
  same_frame s1 s2 -> same_frame s2 s3 -> same_frame s1 s3.
Proof.
  unfold same_frame. intros (?&?&?&?&?&?&?&?) (?&?&?&?&?&?&?&?).
  repeat split; congruence.
Qed.

(** Whatever order the event loop takes, [settle] runs every awaitable it
    is told to run that is still pending, once, and stores its outcome in
    the future of that awaitable. *)
Lemma settle_spec (aws : list Product) (order : list nat) :
  forall (futs : list (option (Py.result py_object))) (s : store),
    length futs = length aws ->
    exists futs' s' js,
      settle generate_review_score order aws futs s = (Py.Return futs', s') /\
      length futs' = length aws /\
      same_frame s s' /\
      trace s' = trace s ++ map Invoke js /\
      NoDup js /\
      (forall j, j ∈ js -> futs !! j = Some None) /\
      (forall j r, futs !! j = Some (Some r) -> futs' !! j = Some (Some r)) /\
      (forall j, j ∈ order -> (j < length aws)%nat -> exists r, futs' !! j = Some (Some r)) /\
      (forall j r, futs' !! j = Some (Some r) ->
                   futs !! j = Some (Some r) \/
                   (j ∈ js /\ exists p w, aws !! j = Some p /\ r = (generate_review_score p w).1)).
Proof.
  induction order as [|j order IH]; intros futs s Hlen; simpl.
  - exists futs, s, []. simpl. rewrite app_nil_r.
    split_and!; auto using same_frame_refl, NoDup_nil_2.
    + intros j Hj. inversion Hj.
    + intros j Hj. inversion Hj.
  - destruct (aws !! j) as [p|] eqn:Hp.
    + destruct (futs !! j) as [[r0|]|] eqn:Hj.
      * (* already settled *)
        destruct (IH futs s Hlen) as (futs' & s' & js & Hrun & Hl & Hfr & Htr & Hnd & Hpend & Hkeep & Hall & Hsrc).
        exists futs', s', js. split_and!; auto.
        intros j' Hj' Hlt. apply elem_of_cons in Hj' as [->|Hj']; [|auto].
        exists r0. apply Hkeep. exact Hj.
      * (* pending: run it *)
        unfold mbind, M_bind, bindM.
        destruct (generate_review_score p (world s)) as [r w] eqn:Hg.
        set (s1 := log (Invoke j) (set_world w s)).
        assert (Hlen1 : length (<[j := Some r]> futs) = length aws)
          by (rewrite length_insert; exact Hlen).
        destruct (IH (<[j := Some r]> futs) s1 Hlen1)
          as (futs' & s' & js & Hrun & Hl & Hfr & Htr & Hnd & Hpend & Hkeep & Hall & Hsrc).
        assert (Hjlt : (j < length futs)%nat) by (eapply lookup_lt_Some; exact Hj).
        exists futs', s', (j :: js). split; [exact Hrun|]. split; [exact Hl|].
        split; [eapply same_frame_trans; [|exact Hfr]; unfold same_frame; split_and!; reflexivity|].
        split; [rewrite Htr; simpl; rewrite <- app_assoc; reflexivity|].
        split.
        { apply NoDup_cons. split; [|exact Hnd].
          intros Hin. apply Hpend in Hin.
          rewrite list_lookup_insert_eq in Hin by exact Hjlt. discriminate. }
        split.
        { intros j' Hj'. apply elem_of_cons in Hj' as [->|Hj']; [exact Hj|].
          specialize (Hpend j' Hj').
          destruct (decide (j = j')) as [->|Hne].
          - rewrite list_lookup_insert_eq in Hpend by exact Hjlt. discriminate.
          - rewrite list_lookup_insert_ne in Hpend by exact Hne. exact Hpend. }
        split.
        { intros j' r' Hj'. apply Hkeep.
          destruct (decide (j = j')) as [->|Hne]; [congruence|].
          rewrite list_lookup_insert_ne by exact Hne. exact Hj'. }
        split.
        { intros j' Hj' Hlt. apply elem_of_cons in Hj' as [->|Hj']; [|auto].
          exists r. apply Hkeep. apply list_lookup_insert_eq. exact Hjlt. }
        { intros j' r' Hj'. destruct (Hsrc j' r' Hj') as [Hold | (Hin & Hsrc')].
          - destruct (decide (j = j')) as [->|Hne].
            + rewrite list_lookup_insert_eq in Hold by exact Hjlt.
              injection Hold as <-. right. split; [apply list_elem_of_here|].
              exists p, (world s). split; [exact Hp|]. rewrite Hg. reflexivity.
            + rewrite list_lookup_insert_ne in Hold by exact Hne. left. exact Hold.
          - right. split; [apply list_elem_of_further; exact Hin | exact Hsrc']. }
      * (* no such future *)
        apply lookup_ge_None in Hj. apply lookup_lt_Some in Hp. lia.
    + (* no such awaitable *)
      destruct (IH futs s Hlen) as (futs' & s' & js & Hrun & Hl & Hfr & Htr & Hnd & Hpend & Hkeep & Hall & Hsrc).
      exists futs', s', js. split_and!; auto.
      intros j' Hj' Hlt. apply elem_of_cons in Hj' as [->|Hj']; [|auto].
      apply lookup_ge_None in Hp. lia.
Qed.

Lemma future_results_done (futs : list (option (Py.result py_object))) :
  (forall j, (j < length futs)%nat -> exists r, futs !! j = Some (Some r)) ->
  exists rs, Py.for_each future_result futs = Py.Return rs /\
             length rs = length futs /\
             forall j r, rs !! j = Some r -> futs !! j = Some (Some r).
Proof.
  induction futs as [|fut futs IH]; intros Hdone; simpl.
  - exists []. split_and!; auto. intros j r Hj. rewrite lookup_nil in Hj. discriminate.
  - destruct (Hdone 0%nat ltac:(simpl; lia)) as (r0 & Hr0). simpl in Hr0.
    injection Hr0 as ->. simpl.
    destruct IH as (rs & Hrs & Hlen & Hget).
    { intros j Hj. apply (Hdone (S j)). simpl. lia. }
    rewrite Hrs. simpl. exists (r0 :: rs). split_and!; simpl; auto.
    intros [|j] r Hj; simpl in *; [congruence | auto].
Qed.

(** The gather returns, whatever the completion order: one outcome per
    awaitable, at the index of its awaitable, each awaitable run once. *)
Lemma gather_spec (sched : list nat) (aws : list Product) (s : store) :
  exists rs s' js,
    gather generate_review_score sched aws s = (Py.Return rs, s') /\
    length rs = length aws /\
    same_frame s s' /\
    trace s' = trace s ++ map Invoke js /\
    NoDup js /\
    (forall j, j ∈ js <-> (j < length aws)%nat) /\
    (forall k r, rs !! k = Some r ->
                 exists p w, aws !! k = Some p /\ r = (generate_review_score p w).1).
Proof.
  unfold gather, mbind, M_bind, bindM.
  destruct (settle_spec aws (sched ++ seq 0 (length aws)) (replicate (length aws) None) s)
    as (futs' & s' & js & Hrun & Hl & Hfr & Htr & Hnd & Hpend & Hkeep & Hall & Hsrc).
  { apply length_replicate. }
  rewrite Hrun.
  destruct (future_results_done futs') as (rs & Hrs & Hlen & Hget).
  { intros j Hj. apply Hall; [|lia].
    apply elem_of_app. right. apply elem_of_seq. lia. }
  unfold lift. rewrite Hrs. exists rs, s', js. split_and!; auto; try lia.
  - intros j. split.
    + intros Hj. apply Hpend in Hj. apply lookup_lt_Some in Hj.
      rewrite length_replicate in Hj. exact Hj.
    + intros Hj. destruct (Hall j) as (r & Hr); [|exact Hj|].
      { apply elem_of_app. right. apply elem_of_seq. lia. }
      destruct (Hsrc j r Hr) as [Hold | (Hin & _)]; [|exact Hin].
      apply lookup_replicate in Hold as [Hold _]. discriminate.
  - intros k r Hk. apply Hget in Hk.
    destruct (Hsrc k r Hk) as [Hold | (_ & Hp)]; [|exact Hp].
    apply lookup_replicate in Hold as [Hold _]. discriminate.
Qed.

(** *** The partition loop *)

(** What holds when the slots below [j] are partitioned: slots holding a
    cached id have their score, the others are still absent; the tags, the
    coroutines and the first-wave events stand for exactly the slots whose
    id was not cached and whose lookup answered with a record. *)
Record partitioned (cache0 : gmap ProductId float) (query : list ProductId)
       (j : nat) (s : store) : Prop := {
  pt_cache : miner_preds s = cache0;
  pt_len : length (predictions s) = length query;
  pt_preds : forall i id, query !! i = Some id ->
      predictions s !! i = Some (if decide (i < j)%nat then cache0 !! id else None);
  pt_tasks : length (tasks s) = length (product_ids s);
  pt_ids : forall k i id, product_ids s !! k = Some (i, id) ->
      (i < j)%nat /\ query !! i = Some id /\ cache0 !! id = None;
  pt_from : forall k i id p, product_ids s !! k = Some (i, id) -> tasks s !! k = Some p ->
      exists w, (fetch_product_data id w).1 = Some p;
  pt_sorted : increasing fst (product_ids s);
  pt_disp : dispatched FirstWave (trace s) = product_ids s;
  pt_fetch : forall i id b, (i, id, b) ∈ fetched FirstWave (trace s) ->
      (i < j)%nat /\ query !! i = Some id /\ cache0 !! id = None /\
      (b = true <-> exists k, product_ids s !! k = Some (i, id));
  pt_absent : forall i id, (i < j)%nat -> query !! i = Some id -> cache0 !! id = None ->
      (forall k, product_ids s !! k <> Some (i, id)) ->
      (i, id, false) ∈ fetched FirstWave (trace s);
  pt_found : forall k i id, product_ids s !! k = Some (i, id) ->
      (i, id, true) ∈ fetched FirstWave (trace s);
  pt_quiet : fetched RetryWave (trace s) = [] /\ dispatched RetryWave (trace s) = [] /\
             writes (trace s) = [] /\ invoked (trace s) = [];
  pt_unbound : results s = [] /\ retry_tasks s = [] /\ retry_indices s = [] /\
               retry_results s = []
}.

Lemma partition_step (cache0 : gmap ProductId float) (query : list ProductId)
      (j : nat) (id : ProductId) (s : store) :
  query !! j = Some id ->
  partitioned cache0 query j s ->
  exists s', partition_body fetch_product_data j id s = (Py.Return tt, s') /\
             partitioned cache0 query (S j) s'.
Proof.
  intros Hq [Hcache Hlen Hpreds Htasks Hids Hfrom Hsorted Hdisp Hfetch Habsent Hfound
             Hquiet Hunb].
  assert (Hj : (j < length (predictions s))%nat).
  { rewrite Hlen. eapply lookup_lt_Some. exact Hq. }
  destruct (miner_preds s !! id) as [c|] eqn:Hc.
  - (* cache hit *)
    eexists. split; [apply partition_body_cached; eassumption|].
    rewrite Hcache in Hc.
    constructor; simpl; auto.
    + rewrite length_insert. exact Hlen.
    + intros i id' Hi. destruct (decide (i = j)) as [->|Hne].
      * rewrite list_lookup_insert_eq by exact Hj.
        rewrite decide_True by lia. congruence.
      * rewrite list_lookup_insert_ne by auto. rewrite (Hpreds i id' Hi).
        f_equal. destruct (decide (i < j)%nat), (decide (i < S j)%nat); auto; lia.
    + intros k i id' Hk. destruct (Hids k i id' Hk) as (? & ? & ?). split_and!; auto.
    + intros i id' b Hin. destruct (Hfetch i id' b Hin) as (? & ? & ? & ?). split_and!; auto.
    + intros i id' Hi Hqi Hci Hno. apply Habsent; auto.
      destruct (decide (i = j)) as [->|Hne]; [congruence | lia].
  - rewrite Hcache in Hc.
    destruct (fetch_product_data id (world s)) as [[p|] w] eqn:Hf.
    + (* the lookup finds the product: a first-wave task *)
      eexists. split; [apply partition_body_found; [rewrite Hcache|]; eassumption|].
      assert (Hnew : forall k x, product_ids s !! k = Some x -> (x.1 < j)%nat).
      { intros k [i id'] Hk. apply Hids in Hk. simpl. tauto. }
      constructor; simpl; auto.
      * intros i id' Hi. rewrite (Hpreds i id' Hi).
        destruct (decide (i = j)) as [->|Hne].
        -- rewrite decide_False by lia. rewrite decide_True by lia. congruence.
        -- f_equal. destruct (decide (i < j)%nat), (decide (i < S j)%nat); auto; lia.
      * rewrite !length_app. simpl. lia.
      * intros k i id' Hk. apply lookup_snoc_Some in Hk as [[_ Hk]|[_ [= <- <-]]].
        -- destruct (Hids k i id' Hk) as (? & ? & ?). split_and!; auto.
        -- split_and!; auto.
      * intros k i id' p' Hk Hp'.
        apply lookup_snoc_Some in Hk as [[Hlt Hk]|[Heq [= <- <-]]].
        -- rewrite lookup_app_l in Hp' by lia. eapply Hfrom; eassumption.
        -- rewrite Heq, <- Htasks, list_lookup_middle in Hp' by reflexivity.
           injection Hp' as <-. exists (world s). rewrite Hf. reflexivity.
      * apply increasing_snoc; [exact Hsorted|]. intros k x Hk. simpl. eapply Hnew, Hk.
      * rewrite !dispatched_app, Hdisp. simpl. rewrite app_nil_r. reflexivity.
      * intros i id' b. rewrite !fetched_app. simpl. rewrite app_nil_r.
        intros Hin. apply elem_of_app in Hin as [Hin|Hin].
        -- destruct (Hfetch i id' b Hin) as (Hi & Hqi & Hci & Hb). split_and!; auto.
           rewrite Hb. split; intros [k Hk].
           ++ exists k. apply lookup_app_l_Some. exact Hk.
           ++ apply lookup_snoc_Some in Hk as [[_ Hk]|[_ [= -> ->]]]; [eauto | lia].
        -- apply list_elem_of_singleton in Hin. injection Hin as -> -> ->.
           split_and!; auto. split; [|reflexivity]. intros _.
           exists (length (product_ids s)). apply list_lookup_middle. reflexivity.
      * intros i id' Hi Hqi Hci Hno. rewrite !fetched_app. simpl. rewrite app_nil_r.
        apply elem_of_app. left. apply Habsent; auto.
        -- destruct (decide (i = j)) as [->|Hne]; [|lia].
           exfalso. apply (Hno (length (product_ids s))).
           rewrite list_lookup_middle by reflexivity. congruence.
        -- intros k Hk. apply (Hno k). apply lookup_app_l_Some. exact Hk.
      * intros k i id' Hk. rewrite !fetched_app. simpl. rewrite app_nil_r.
        apply elem_of_app.
        apply lookup_snoc_Some in Hk as [[_ Hk]|[_ [= <- <-]]].
        -- left. eapply Hfound. exact Hk.
        -- right. apply list_elem_of_here.
      * destruct Hquiet as (H1 & H2 & H3 & H4).
        rewrite !fetched_app, !dispatched_app, !writes_app, !invoked_app, H1, H2, H3, H4.
        auto.
    + (* the lookup finds nothing: the slot is absent *)
      eexists. split; [apply partition_body_absent; [rewrite Hcache| |]; eassumption|].
      constructor; simpl; auto.
      * rewrite length_insert. exact Hlen.
      * intros i id' Hi. destruct (decide (i = j)) as [->|Hne].
        -- rewrite list_lookup_insert_eq by exact Hj.
           rewrite decide_True by lia. congruence.
        -- rewrite list_lookup_insert_ne by auto. rewrite (Hpreds i id' Hi).
           f_equal. destruct (decide (i < j)%nat), (decide (i < S j)%nat); auto; lia.
      * intros k i id' Hk. destruct (Hids k i id' Hk) as (? & ? & ?). split_and!; auto.
      * rewrite dispatched_app, Hdisp. simpl. apply app_nil_r.
      * intros i id' b. rewrite fetched_app. simpl.
        intros Hin. apply elem_of_app in Hin as [Hin|Hin].
        -- destruct (Hfetch i id' b Hin) as (? & ? & ? & ?). split_and!; auto.
        -- apply list_elem_of_singleton in Hin. injection Hin as -> -> ->.
           split_and!; auto. split; [discriminate|].
           intros [k Hk]. apply Hids in Hk. lia.
      * intros i id' Hi Hqi Hci Hno. rewrite fetched_app. simpl.
        apply elem_of_app. destruct (decide (i = j)) as [->|Hne].
        -- right. apply list_elem_of_singleton. congruence.
        -- left. apply Habsent; auto. lia.
      * intros k i id' Hk. rewrite fetched_app. apply elem_of_app. left.
        eapply Hfound. exact Hk.
      * destruct Hquiet as (H1 & H2 & H3 & H4).
        rewrite !fetched_app, !dispatched_app, !writes_app, !invoked_app, H1, H2, H3, H4.
        auto.
Qed.

Lemma partition_spec (query : list ProductId) (s : store) :
  trace s = [] -> tasks s = [] -> product_ids s = [] ->
  predictions s = replicate (length query) None ->
  results s = [] -> retry_tasks s = [] -> retry_indices s = [] -> retry_results s = [] ->
  exists s', for_enumerate (partition_body fetch_product_data) 0 query s = (Py.Return tt, s') /\
             partitioned (miner_preds s) query (length query) s'.
Proof.
  intros Ht Hts Hids Hp Hr Hrt Hri Hrr.
  apply (for_enumerate_inv _ (partitioned (miner_preds s) query) query 0 s).
  - constructor; rewrite ?Ht, ?Hts, ?Hids, ?Hp; simpl; auto.
    + apply length_replicate.
    + intros i id Hi. apply lookup_replicate_2. eapply lookup_lt_Some. exact Hi.
    + intros k i id Hk. rewrite lookup_nil in Hk. discriminate.
    + intros k i id p Hk. rewrite lookup_nil in Hk. discriminate.
    + apply increasing_nil.
    + intros i id b Hin. inversion Hin.
    + intros i id Hi. lia.
    + intros k i id Hk. rewrite lookup_nil in Hk. discriminate.
  - intros k id s1 Hk Hinv. simpl. apply partition_step; assumption.
Qed.

(** *** The first-wave loop *)

(** What holds when the outcomes below [K] of the first gather are
    processed, [s1] being the store the loop starts from: an accepted score
    is in its slot and in the cache; every other outcome has its retry
    queued if the lookup found the product again; the slots of no accepted
    outcome are as the partition left them. *)
Record first_wave_done (cache0 : gmap ProductId float) (query : list ProductId)
       (s1 : store) (K : nat) (s : store) : Prop := {
  fw_frozen : product_ids s = product_ids s1 /\ tasks s = tasks s1 /\
              results s = results s1 /\ retry_results s = retry_results s1;
  fw_first : fetched FirstWave (trace s) = fetched FirstWave (trace s1) /\
             dispatched FirstWave (trace s) = dispatched FirstWave (trace s1) /\
             invoked (trace s) = invoked (trace s1);
  fw_len : length (predictions s) = length query;
  fw_hit : forall k i id r sc,
      (k < K)%nat -> product_ids s1 !! k = Some (i, id) -> results s1 !! k = Some r ->
      first_wave_score r = Some sc ->
      predictions s !! i = Some (Some sc) /\ (i, id, sc) ∈ writes (trace s);
  fw_keep : forall i,
      (forall k id r sc, (k < K)%nat -> product_ids s1 !! k = Some (i, id) ->
                         results s1 !! k = Some r -> first_wave_score r = Some sc -> False) ->
      predictions s !! i = predictions s1 !! i;
  fw_retry_len : length (retry_tasks s) = length (retry_indices s);
  fw_retry : forall k' i id k, retry_indices s !! k' = Some (i, id, k) ->
      (k < K)%nat /\ product_ids s1 !! k = Some (i, id) /\
      exists r, results s1 !! k = Some r /\ first_wave_score r = None;
  fw_retry_from : forall k' i id k p,
      retry_indices s !! k' = Some (i, id, k) -> retry_tasks s !! k' = Some p ->
      exists w, (fetch_product_data id w).1 = Some p;
  fw_retry_sorted : increasing snd (retry_indices s);
  fw_disp : dispatched RetryWave (trace s) = (retry_indices s).*1;
  fw_fetch : forall i id b, (i, id, b) ∈ fetched RetryWave (trace s) ->
      exists k r, (k < K)%nat /\ product_ids s1 !! k = Some (i, id) /\
                  results s1 !! k = Some r /\ first_wave_score r = None /\
                  (b = true <-> exists k', retry_indices s !! k' = Some (i, id, k));
  fw_absent : forall k i id r,
      (k < K)%nat -> product_ids s1 !! k = Some (i, id) -> results s1 !! k = Some r ->
      first_wave_score r = None ->
      (forall k', retry_indices s !! k' <> Some (i, id, k)) ->
      (i, id, false) ∈ fetched RetryWave (trace s);
  fw_found : forall k' i id k, retry_indices s !! k' = Some (i, id, k) ->
      (i, id, true) ∈ fetched RetryWave (trace s);
  fw_writes : forall i id sc, (i, id, sc) ∈ writes (trace s) ->
      exists k r, (k < K)%nat /\ product_ids s1 !! k = Some (i, id) /\
                  results s1 !! k = Some r /\ first_wave_score r = Some sc;
  fw_cache : miner_preds s = replay (writes (trace s)) cache0
}.

Lemma first_wave_step (cache0 : gmap ProductId float) (query : list ProductId)
      (s1 : store) (K : nat) (r : Py.result py_object) (s : store) :
  increasing fst (product_ids s1) ->
  length (results s1) = length (product_ids s1) ->
  (forall k i id, product_ids s1 !! k = Some (i, id) -> (i < length query)%nat) ->
  results s1 !! K = Some r ->
  first_wave_done cache0 query s1 K s ->
  exists s', first_wave_body fetch_product_data K r s = (Py.Return tt, s') /\
             first_wave_done cache0 query s1 (S K) s'.
Proof.
  intros Hsorted Hlens Hpos HK
         [Hfrozen Hfirst Hlen Hhit Hkeep Hrlen Hretry Hrfrom Hrsorted Hdisp Hfetch Habsent
          Hfound Hwrites Hcache].
  destruct (product_ids s1 !! K) as [[i id]|] eqn:Hid.
  2:{ apply lookup_ge_None in Hid. apply lookup_lt_Some in HK. lia. }
  assert (Hid' : product_ids s !! K = Some (i, id)).
  { destruct Hfrozen as (-> & _). exact Hid. }
  assert (Hi : (i < length (predictions s))%nat).
  { rewrite Hlen. eapply Hpos. exact Hid. }
  assert (Hother : forall k i' id', product_ids s1 !! k = Some (i', id') -> k <> K -> i' <> i).
  { intros k i' id' Hk Hne ->. apply Hne.
    eapply (increasing_inj fst); [exact Hsorted| exact Hk | exact Hid | reflexivity]. }
  destruct (first_wave_score r) as [sc|] eqn:Hsc.
  - (* accepted *)
    eexists. split; [eapply first_wave_body_accept; eassumption|].
    constructor; simpl; auto.
    + destruct Hfirst as (H1 & H2 & H3).
      rewrite fetched_app, dispatched_app, invoked_app, H1, H2, H3. simpl.
      rewrite !app_nil_r. auto.
    + rewrite length_insert. exact Hlen.
    + intros k i' id' r' sc' Hk Hk1 Hk2 Hsc'. rewrite writes_app.
      destruct (decide (k = K)) as [->|Hne].
      * assert (i' = i /\ id' = id /\ sc' = sc) as (-> & -> & ->)
            by (split_and!; congruence).
        split; [apply list_lookup_insert_eq; exact Hi|].
        apply elem_of_app. right. apply list_elem_of_here.
      * destruct (Hhit k i' id' r' sc') as [Hp Hw]; auto; [lia|].
        split; [|apply elem_of_app; left; exact Hw].
        rewrite list_lookup_insert_ne; [exact Hp|].
        intros <-. eapply Hother; eauto.
    + intros i' Hno. destruct (decide (i' = i)) as [->|Hne].
      * exfalso. eapply (Hno K); eauto.
      * rewrite list_lookup_insert_ne by auto. apply Hkeep.
        intros k id' r' sc' Hk. apply Hno. lia.
    + intros k' i' id' k Hk'. destruct (Hretry k' i' id' k Hk') as (? & ? & ?).
      split_and!; auto.
    + rewrite dispatched_app, Hdisp. simpl. apply app_nil_r.
    + intros i' id' b. rewrite fetched_app. simpl. rewrite app_nil_r. intros Hin.
      destruct (Hfetch i' id' b Hin) as (k & r' & ? & ? & ? & ? & ?).
      exists k, r'. split_and!; auto.
    + intros k i' id' r' Hk Hk1 Hk2 Hnone Hno. rewrite fetched_app. simpl.
      rewrite app_nil_r. apply (Habsent k i' id' r'); auto.
      destruct (decide (k = K)) as [->|Hne]; [congruence | lia].
    + intros k' i' id' k Hk'. rewrite fetched_app. simpl. rewrite app_nil_r.
      eapply Hfound. exact Hk'.
    + intros i' id' sc'. rewrite writes_app. intros Hin.
      apply elem_of_app in Hin as [Hin|Hin].
      * destruct (Hwrites i' id' sc' Hin) as (k & r' & ? & ? & ? & ?).
        exists k, r'. split_and!; auto.
      * apply list_elem_of_singleton in Hin. injection Hin as -> -> ->.
        exists K, r. split_and!; auto.
    + rewrite writes_app, replay_app, <- Hcache. reflexivity.
  - (* turned down: queue a retry *)
    rewrite (first_wave_body_reject K i id r s Hid' Hsc).
    destruct (fetch_product_data id (world s)) as [[p|] w] eqn:Hf.
    + eexists. split; [apply queue_retry_found; exact Hf|].
      constructor; simpl; auto.
      * destruct Hfirst as (H1 & H2 & H3).
        rewrite !fetched_app, !dispatched_app, !invoked_app, H1, H2, H3. simpl.
        rewrite !app_nil_r. auto.
      * intros k i' id' r' sc' Hk Hk1 Hk2 Hsc'. rewrite !writes_app. simpl.
        rewrite !app_nil_r. apply (Hhit k i' id' r' sc'); auto.
        destruct (decide (k = K)) as [->|Hne]; [congruence | lia].
      * intros i' Hno. apply Hkeep. intros k id' r' sc' Hk. apply Hno. lia.
      * rewrite !length_app. simpl. lia.
      * intros k' i' id' k Hk'.
        apply lookup_snoc_Some in Hk' as [[_ Hk']|[_ [= <- <- <-]]].
        -- destruct (Hretry k' i' id' k Hk') as (? & ? & ?). split_and!; auto.
        -- split_and!; eauto.
      * intros k' i' id' k p' Hk' Hp'.
        apply lookup_snoc_Some in Hk' as [[Hlt Hk']|[Heq [= <- <- <-]]].
        -- rewrite lookup_app_l in Hp' by lia. eapply Hrfrom; eassumption.
        -- rewrite Heq, <- Hrlen, list_lookup_middle in Hp' by reflexivity.
           injection Hp' as <-. exists (world s). rewrite Hf. reflexivity.
      * apply increasing_snoc; [exact Hrsorted|]. intros k' [[i' id'] k] Hk'. simpl.
        apply Hretry in Hk'. tauto.
      * rewrite !dispatched_app, Hdisp, fmap_app. simpl. rewrite app_nil_r. reflexivity.
      * intros i' id' b. rewrite !fetched_app. simpl. rewrite app_nil_r. intros Hin.
        apply elem_of_app in Hin as [Hin|Hin].
        -- destruct (Hfetch i' id' b Hin) as (k & r' & Hk & Hk1 & Hk2 & Hnone & Hb).
           exists k, r'. split_and!; auto. rewrite Hb. split; intros [k' Hk'].
           ++ exists k'. apply lookup_app_l_Some. exact Hk'.
           ++ apply lookup_snoc_Some in Hk' as [[_ Hk']|[_ [= -> -> ->]]]; [eauto | lia].
        -- apply list_elem_of_singleton in Hin. injection Hin as -> -> ->.
           exists K, r. split_and!; auto. split; [|reflexivity]. intros _.
           exists (length (retry_indices s)). apply list_lookup_middle. reflexivity.
      * intros k i' id' r' Hk Hk1 Hk2 Hnone Hno. rewrite !fetched_app. simpl.
        rewrite app_nil_r. apply elem_of_app. left.
        apply (Habsent k i' id' r'); auto.
        -- destruct (decide (k = K)) as [->|Hne]; [|lia].
           exfalso. apply (Hno (length (retry_indices s))).
           rewrite list_lookup_middle by reflexivity. congruence.
        -- intros k' Hk'. apply (Hno k'). apply lookup_app_l_Some. exact Hk'.
      * intros k' i' id' k Hk'. rewrite !fetched_app. simpl. rewrite app_nil_r.
        apply elem_of_app.
        apply lookup_snoc_Some in Hk' as [[_ Hk']|[_ [= <- <- <-]]].
        -- left. eapply Hfound. exact Hk'.
        -- right. apply list_elem_of_here.
      * intros i' id' sc'. rewrite !writes_app. simpl. rewrite !app_nil_r. intros Hin.
        destruct (Hwrites i' id' sc' Hin) as (k & r' & ? & ? & ? & ?).
        exists k, r'. split_and!; auto.
      * rewrite !writes_app. simpl. rewrite !app_nil_r. exact Hcache.
    + eexists. split; [apply queue_retry_absent; exact Hf|].
      constructor; simpl; auto.
      * destruct Hfirst as (H1 & H2 & H3).
        rewrite !fetched_app, !dispatched_app, !invoked_app, H1, H2, H3. simpl.
        rewrite !app_nil_r. auto.
      * intros k i' id' r' sc' Hk Hk1 Hk2 Hsc'. rewrite !writes_app. simpl.
        rewrite !app_nil_r. apply (Hhit k i' id' r' sc'); auto.
        destruct (decide (k = K)) as [->|Hne]; [congruence | lia].
      * intros i' Hno. apply Hkeep. intros k id' r' sc' Hk. apply Hno. lia.
      * intros k' i' id' k Hk'. destruct (Hretry k' i' id' k Hk') as (? & ? & ?).
        split_and!; auto.
      * rewrite !dispatched_app, Hdisp. simpl. apply app_nil_r.
      * intros i' id' b. rewrite !fetched_app. simpl. intros Hin.
        apply elem_of_app in Hin as [Hin|Hin].
        -- destruct (Hfetch i' id' b Hin) as (k & r' & ? & ? & ? & ? & ?).
           exists k, r'. split_and!; auto.
        -- apply list_elem_of_singleton in Hin. injection Hin as -> -> ->.
           exists K, r. split_and!; auto. split; [discriminate|].
           intros [k' Hk']. apply Hretry in Hk'. lia.
      * intros k i' id' r' Hk Hk1 Hk2 Hnone Hno. rewrite !fetched_app. simpl.
        apply elem_of_app. destruct (decide (k = K)) as [->|Hne].
        -- right. apply list_elem_of_singleton. congruence.
        -- left. apply (Habsent k i' id' r'); auto. lia.
      * intros k' i' id' k Hk'. rewrite !fetched_app. apply elem_of_app. left.
        eapply Hfound. exact Hk'.
      * intros i' id' sc'. rewrite !writes_app. simpl. rewrite !app_nil_r. intros Hin.
        destruct (Hwrites i' id' sc' Hin) as (k & r' & ? & ? & ? & ?).
        exists k, r'. split_and!; auto.
      * rewrite !writes_app. simpl. rewrite !app_nil_r. exact Hcache.
Qed.

Lemma first_wave_spec (cache0 : gmap ProductId float) (query : list ProductId) (s1 : store) :
  increasing fst (product_ids s1) ->
  length (results s1) = length (product_ids s1) ->
  (forall k i id, product_ids s1 !! k = Some (i, id) -> (i < length query)%nat) ->
  length (predictions s1) = length query ->
  retry_tasks s1 = [] -> retry_indices s1 = [] ->
  fetched RetryWave (trace s1) = [] -> dispatched RetryWave (trace s1) = [] ->
  writes (trace s1) = [] ->
  miner_preds s1 = cache0 ->
  exists s', for_enumerate (first_wave_body fetch_product_data) 0 (results s1) s1
             = (Py.Return tt, s') /\
             first_wave_done cache0 query s1 (length (results s1)) s'.
Proof.
  intros Hsorted Hlens Hpos Hlen Hrt Hri Hf Hd Hw Hc.
  apply (for_enumerate_inv _ (first_wave_done cache0 query s1) (results s1) 0 s1).
  - constructor; rewrite ?Hrt, ?Hri, ?Hf, ?Hd, ?Hw; simpl; auto.
    + intros k i id r sc Hk. lia.
    + intros k' i id k Hk. rewrite lookup_nil in Hk. discriminate.
    + intros k' i id k p Hk. rewrite lookup_nil in Hk. discriminate.
    + apply increasing_nil.
    + intros i id b Hin. inversion Hin.
    + intros k i id r Hk. lia.
    + intros k' i id k Hk. rewrite lookup_nil in Hk. discriminate.
    + intros i id sc Hin. inversion Hin.
  - intros k r s Hk Hinv. simpl. apply first_wave_step; assumption.
Qed.

(** *** The retry loop *)

(** What holds when the outcomes below [K] of the second gather are
    processed, [s3] being the store the loop starts from: every retried slot
    has a score, the score of the retry or the fallback, also written to
    the cache. *)
Record retry_done (cache0 : gmap ProductId float) (query : list ProductId)
       (s3 : store) (K : nat) (s : store) : Prop := {
  rt_frozen : product_ids s = product_ids s3 /\ tasks s = tasks s3 /\
              results s = results s3 /\ retry_tasks s = retry_tasks s3 /\
              retry_indices s = retry_indices s3 /\ retry_results s = retry_results s3;
  rt_trace : (forall wv, fetched wv (trace s) = fetched wv (trace s3)) /\
             (forall wv, dispatched wv (trace s) = dispatched wv (trace s3)) /\
             invoked (trace s) = invoked (trace s3);
  rt_len : length (predictions s) = length query;
  rt_hit : forall k' i id k rr,
      (k' < K)%nat -> retry_indices s3 !! k' = Some (i, id, k) ->
      retry_results s3 !! k' = Some rr ->
      predictions s !! i = Some (Some (retry_score rr)) /\
      (i, id, retry_score rr) ∈ writes (trace s);
  rt_keep : forall i,
      (forall k' id k, (k' < K)%nat -> retry_indices s3 !! k' = Some (i, id, k) -> False) ->
      predictions s !! i = predictions s3 !! i;
  rt_writes : forall i id sc, (i, id, sc) ∈ writes (trace s) ->
      (i, id, sc) ∈ writes (trace s3) \/
      exists k' k rr, (k' < K)%nat /\ retry_indices s3 !! k' = Some (i, id, k) /\
                      retry_results s3 !! k' = Some rr /\ sc = retry_score rr;
  rt_old : forall w, w ∈ writes (trace s3) -> w ∈ writes (trace s);
  rt_cache : miner_preds s = replay (writes (trace s)) cache0
}.

Lemma retry_step (cache0 : gmap ProductId float) (query : list ProductId)
      (s3 : store) (K : nat) (rr : Py.result py_object) (s : store) :
  increasing (fun x => x.1.1) (retry_indices s3) ->
  length (retry_results s3) = length (retry_indices s3) ->
  (forall k' i id k, retry_indices s3 !! k' = Some (i, id, k) -> (i < length query)%nat) ->
  retry_results s3 !! K = Some rr ->
  retry_done cache0 query s3 K s ->
  exists s', retry_body K rr s = (Py.Return tt, s') /\
             retry_done cache0 query s3 (S K) s'.
Proof.
  intros Hsorted Hlens Hpos HK [Hfrozen Htrace Hlen Hhit Hkeep Hwrites Hold Hcache].
  destruct (retry_indices s3 !! K) as [[[i id] k]|] eqn:Hid.
  2:{ apply lookup_ge_None in Hid. apply lookup_lt_Some in HK. lia. }
  assert (Hid' : retry_indices s !! K = Some (i, id, k)).
  { destruct Hfrozen as (_ & _ & _ & _ & -> & _). exact Hid. }
  assert (Hi : (i < length (predictions s))%nat).
  { rewrite Hlen. eapply Hpos. exact Hid. }
  assert (Hother : forall k' i' id' k0,
             retry_indices s3 !! k' = Some (i', id', k0) -> k' <> K -> i' <> i).
  { intros k' i' id' k0 Hk Hne ->. apply Hne.
    eapply (increasing_inj (fun x => x.1.1)); [exact Hsorted| exact Hk | exact Hid | reflexivity]. }
  eexists. split; [eapply retry_body_run; eassumption|].
  destruct Htrace as (Hf & Hd & Hinv).
  constructor; simpl; auto.
  - split_and!.
    + intros wv. rewrite fetched_app, Hf. simpl. apply app_nil_r.
    + intros wv. rewrite dispatched_app, Hd. simpl. apply app_nil_r.
    + rewrite invoked_app, Hinv. simpl. apply app_nil_r.
  - rewrite length_insert. exact Hlen.
  - intros k' i' id' k0 rr' Hk Hk1 Hk2. rewrite writes_app.
    destruct (decide (k' = K)) as [->|Hne].
    + assert (i' = i /\ id' = id /\ rr' = rr) as (-> & -> & ->)
          by (split_and!; congruence).
      split; [apply list_lookup_insert_eq; exact Hi|].
      apply elem_of_app. right. apply list_elem_of_here.
    + destruct (Hhit k' i' id' k0 rr') as [Hp Hw]; auto; [lia|].
      split; [|apply elem_of_app; left; exact Hw].
      rewrite list_lookup_insert_ne; [exact Hp|].
      intros <-. eapply Hother; eauto.
  - intros i' Hno. destruct (decide (i' = i)) as [->|Hne].
    + exfalso. eapply (Hno K); eauto.
    + rewrite list_lookup_insert_ne by auto. apply Hkeep.
      intros k' id' k0 Hk. apply Hno. lia.
  - intros i' id' sc'. rewrite writes_app. intros Hin.
    apply elem_of_app in Hin as [Hin|Hin].
    + destruct (Hwrites i' id' sc' Hin) as [Hw | (k' & k0 & rr' & ? & ? & ? & ?)];
        [left; exact Hw|].
      right. exists k', k0, rr'. split_and!; auto.
    + apply list_elem_of_singleton in Hin. injection Hin as -> -> ->.
      right. exists K, k, rr. split_and!; auto.
  - intros w Hw. rewrite writes_app. apply elem_of_app. left. apply Hold. exact Hw.
  - rewrite writes_app, replay_app, <- Hcache. reflexivity.
Qed.

Lemma retry_spec (cache0 : gmap ProductId float) (query : list ProductId) (s3 : store) :
  increasing (fun x => x.1.1) (retry_indices s3) ->
  length (retry_results s3) = length (retry_indices s3) ->
  (forall k' i id k, retry_indices s3 !! k' = Some (i, id, k) -> (i < length query)%nat) ->
  length (predictions s3) = length query ->
  miner_preds s3 = replay (writes (trace s3)) cache0 ->
  exists s', for_enumerate retry_body 0 (retry_results s3) s3 = (Py.Return tt, s') /\
             retry_done cache0 query s3 (length (retry_results s3)) s'.
Proof.
  intros Hsorted Hlens Hpos Hlen Hc.
  apply (for_enumerate_inv _ (retry_done cache0 query s3) (retry_results s3) 0 s3).
  - constructor; simpl; auto.
    + split_and!; reflexivity.
    + intros k' i id k rr Hk. lia.
  - intros k r s Hk Hinv. simpl. apply retry_step; assumption.
Qed.

(** *** What a call of forward has done when it returns *)

(** How slot [i] of the response, holding product id [id], got its value. *)
Inductive slot (cache0 : gmap ProductId float) (s : store) (i : nat) (id : ProductId) :
  option (option float) -> Prop :=
| slot_cached (c : float) :
    cache0 !! id = Some c ->
    slot cache0 s i id (Some (Some c))
| slot_not_found :
    cache0 !! id = None ->
    (forall k, product_ids s !! k <> Some (i, id)) ->
    (i, id, false) ∈ fetched FirstWave (trace s) ->
    slot cache0 s i id (Some None)
| slot_scored (k : nat) (r : Py.result py_object) (sc : float) :
    cache0 !! id = None ->
    product_ids s !! k = Some (i, id) -> results s !! k = Some r ->
    first_wave_score r = Some sc ->
    (i, id, sc) ∈ writes (trace s) ->
    slot cache0 s i id (Some (Some sc))
| slot_retry_not_found (k : nat) (r : Py.result py_object) :
    cache0 !! id = None ->
    product_ids s !! k = Some (i, id) -> results s !! k = Some r ->
    first_wave_score r = None ->
    (forall k', retry_indices s !! k' <> Some (i, id, k)) ->
    (i, id, false) ∈ fetched RetryWave (trace s) ->
    slot cache0 s i id (Some None)
| slot_retried (k : nat) (r : Py.result py_object) (k' : nat) (rr : Py.result py_object) :
    cache0 !! id = None ->
    product_ids s !! k = Some (i, id) -> results s !! k = Some r ->
    first_wave_score r = None ->
    retry_indices s !! k' = Some (i, id, k) -> retry_results s !! k' = Some rr ->
    (i, id, retry_score rr) ∈ writes (trace s) ->
    slot cache0 s i id (Some (Some (retry_score rr))).

(** The final store [s] and the response of a call that started with the
    cache [cache0]. *)
Record served (cache0 : gmap ProductId float) (query : list ProductId)
       (response : list (option float)) (s : store) : Prop := {
  sv_response : response = predictions s;
  sv_len : length response = length query;
  sv_slot : forall i id, query !! i = Some id -> slot cache0 s i id (response !! i);
  sv_cache : miner_preds s = replay (writes (trace s)) cache0;
  sv_ids : forall k i id, product_ids s !! k = Some (i, id) ->
      query !! i = Some id /\ cache0 !! id = None /\
      exists p w r w', tasks s !! k = Some p /\ (fetch_product_data id w).1 = Some p /\
                       results s !! k = Some r /\ r = (generate_review_score p w').1;
  sv_ids_sorted : increasing fst (product_ids s);
  sv_retry : forall k' i id k, retry_indices s !! k' = Some (i, id, k) ->
      product_ids s !! k = Some (i, id) /\
      (exists r, results s !! k = Some r /\ first_wave_score r = None) /\
      exists p w rr w', retry_tasks s !! k' = Some p /\ (fetch_product_data id w).1 = Some p /\
                        retry_results s !! k' = Some rr /\
                        rr = (generate_review_score p w').1;
  sv_retry_sorted : increasing snd (retry_indices s);
  sv_disp1 : dispatched FirstWave (trace s) = product_ids s;
  sv_disp2 : dispatched RetryWave (trace s) = (retry_indices s).*1;
  sv_fetch1 : forall i id b, (i, id, b) ∈ fetched FirstWave (trace s) ->
      query !! i = Some id /\ cache0 !! id = None /\
      (b = true <-> exists k, product_ids s !! k = Some (i, id));
  sv_fetch2 : forall i id b, (i, id, b) ∈ fetched RetryWave (trace s) ->
      exists k r, product_ids s !! k = Some (i, id) /\ results s !! k = Some r /\
                  first_wave_score r = None /\
                  (b = true <-> exists k', retry_indices s !! k' = Some (i, id, k));
  sv_found1 : forall k i id, product_ids s !! k = Some (i, id) ->
      (i, id, true) ∈ fetched FirstWave (trace s);
  sv_found2 : forall k' i id k, retry_indices s !! k' = Some (i, id, k) ->
      (i, id, true) ∈ fetched RetryWave (trace s);
  sv_writes : forall i id sc, (i, id, sc) ∈ writes (trace s) ->
      (exists k r, product_ids s !! k = Some (i, id) /\ results s !! k = Some r /\
                   first_wave_score r = Some sc) \/
      (exists k' k rr, retry_indices s !! k' = Some (i, id, k) /\
                       retry_results s !! k' = Some rr /\ sc = retry_score rr);
  sv_invoked : exists js1 js2, invoked (trace s) = js1 ++ js2 /\
      js1 ≡ₚ seq 0 (length (tasks s)) /\ js2 ≡ₚ seq 0 (length (retry_tasks s));
  sv_tasks_len : length (tasks s) = length (product_ids s);
  sv_retry_len : length (retry_tasks s) = length (retry_indices s)
}.

(** The retry tags are in increasing order of slot, as the first-wave tags
    they point to are. *)
Lemma retry_slots_increasing (cache0 : gmap ProductId float) (query : list ProductId)
      (s1 : store) (K : nat) (s : store) :
  increasing fst (product_ids s1) ->
  first_wave_done cache0 query s1 K s ->
  increasing (fun x => x.1.1) (retry_indices s).
Proof.
  intros Hsorted Hfw k1 k2 [[i1 id1] j1] [[i2 id2] j2] Hlt H1 H2. simpl.
  pose proof (fw_retry_sorted _ _ _ _ _ Hfw k1 k2 _ _ Hlt H1 H2) as Hj. simpl in Hj.
  destruct (fw_retry _ _ _ _ _ Hfw _ _ _ _ H1) as (_ & Hp1 & _).
  destruct (fw_retry _ _ _ _ _ Hfw _ _ _ _ H2) as (_ & Hp2 & _).
  apply (Hsorted j1 j2 (i1, id1) (i2, id2) Hj Hp1 Hp2).
Qed.

(** The facts of the three phases, put together. [s_p] is the store after
    the partition, [s1] after the first gather, [s_f] after the first-wave
    loop, [s3] after the second gather and [s] the final one. *)
Lemma served_of_phases (cache0 : gmap ProductId float) (query : list ProductId)
      (s_p s1 s_f s3 s : store) (js1 js2 : list nat) :
  partitioned cache0 query (length query) s_p ->
  product_ids s1 = product_ids s_p -> tasks s1 = tasks s_p ->
  predictions s1 = predictions s_p -> retry_results s1 = [] ->
  trace s1 = trace s_p ++ map Invoke js1 ->
  js1 ≡ₚ seq 0 (length (tasks s_p)) ->
  length (results s1) = length (tasks s_p) ->
  (forall k r, results s1 !! k = Some r ->
               exists p w, tasks s_p !! k = Some p /\ r = (generate_review_score p w).1) ->
  first_wave_done cache0 query s1 (length (results s1)) s_f ->
  product_ids s3 = product_ids s_f -> tasks s3 = tasks s_f -> results s3 = results s_f ->
  retry_tasks s3 = retry_tasks s_f -> retry_indices s3 = retry_indices s_f ->
  predictions s3 = predictions s_f ->
  trace s3 = trace s_f ++ map Invoke js2 ->
  js2 ≡ₚ seq 0 (length (retry_tasks s_f)) ->
  length (retry_results s3) = length (retry_tasks s_f) ->
  (forall k r, retry_results s3 !! k = Some r ->
               exists p w, retry_tasks s_f !! k = Some p /\ r = (generate_review_score p w).1) ->
  retry_done cache0 query s3 (length (retry_results s3)) s ->
  served cache0 query (predictions s) s.
Proof.
  intros Hp Hids1 Htasks1 Hpreds1 Hrr1 Htr1 Hjs1 Hlen1 Hsrc1 Hf
         Hids3 Htasks3 Hres3 Hrt3 Hri3 Hpreds3 Htr3 Hjs2 Hlen3 Hsrc3 Hr.
  destruct Hp as [pCache pLen pPreds pTasks pIds pFrom pSorted pDisp pFetch pAbsent pFound
                  (pQ1 & pQ2 & pQ3 & pQ4) pUnb].
  destruct Hf as [(fIds & fTasks & fRes & fRR) (fF1 & fD1 & fI1) fLen fHit fKeep fRlen fRetry
                  fRfrom fRsorted fDisp fFetch fAbsent fFound fWrites fCache].
  destruct Hr as [(rIds & rTasks & rRes & rRt & rRi & rRr) (rF & rD & rI) rLen rHit rKeep
                  rWrites rOld rCache].
  (* the fields of the final store *)
  assert (Eids : product_ids s = product_ids s_p) by congruence.
  assert (Etasks : tasks s = tasks s_p) by congruence.
  assert (Eres : results s = results s1) by congruence.
  assert (Eri : retry_indices s = retry_indices s_f) by congruence.
  assert (Ert : retry_tasks s = retry_tasks s_f) by congruence.
  (* the projections of the final trace *)
  assert (EF1 : fetched FirstWave (trace s) = fetched FirstWave (trace s_p)).
  { rewrite rF, Htr3, fetched_app, fetched_invokes, app_nil_r, fF1, Htr1, fetched_app,
      fetched_invokes, app_nil_r. reflexivity. }
  assert (ED1 : dispatched FirstWave (trace s) = product_ids s_p).
  { rewrite rD, Htr3, dispatched_app, dispatched_invokes, app_nil_r, fD1, Htr1,
      dispatched_app, dispatched_invokes, app_nil_r. exact pDisp. }
  assert (EF2 : fetched RetryWave (trace s) = fetched RetryWave (trace s_f)).
  { rewrite rF, Htr3, fetched_app, fetched_invokes, app_nil_r. reflexivity. }
  assert (ED2 : dispatched RetryWave (trace s) = (retry_indices s_f).*1).
  { rewrite rD, Htr3, dispatched_app, dispatched_invokes, app_nil_r. exact fDisp. }
  assert (EW3 : writes (trace s3) = writes (trace s_f)).
  { rewrite Htr3, writes_app, writes_invokes, app_nil_r. reflexivity. }
  assert (EI : invoked (trace s) = js1 ++ js2).
  { rewrite rI, Htr3, invoked_app, invoked_invokes, fI1, Htr1, invoked_app,
      invoked_invokes, pQ4. reflexivity. }
  (* every tag has its outcome *)
  assert (Hres : forall k i id, product_ids s_p !! k = Some (i, id) ->
                                exists r, results s1 !! k = Some r).
  { intros k i id Hk. apply lookup_lt_is_Some. rewrite Hlen1, pTasks.
    eapply lookup_lt_Some. exact Hk. }
  assert (Hrres : forall k' i id k, retry_indices s_f !! k' = Some (i, id, k) ->
                                    exists rr, retry_results s3 !! k' = Some rr).
  { intros k' i id k Hk. apply lookup_lt_is_Some. rewrite Hlen3, fRlen.
    eapply lookup_lt_Some. exact Hk. }
  (* a slot has at most one tag *)
  assert (Hone : forall k1 k2 i id1 id2,
             product_ids s_p !! k1 = Some (i, id1) -> product_ids s_p !! k2 = Some (i, id2) ->
             k1 = k2).
  { intros k1 k2 i id1 id2 H1 H2.
    eapply (increasing_inj fst); [exact pSorted | exact H1 | exact H2 | reflexivity]. }
  constructor.
  - reflexivity.
  - rewrite rLen. reflexivity.
  - (* the slots *)
    intros i id Hq.
    assert (Hi : (i < length query)%nat) by (eapply lookup_lt_Some; exact Hq).
    pose proof (pPreds i id Hq) as Hpi. rewrite decide_True in Hpi by exact Hi.
    destruct (cache0 !! id) as [c|] eqn:Hc.
    + (* cached *)
      assert (Hnotag : forall k id', product_ids s_p !! k = Some (i, id') -> False).
      { intros k id' Hk. destruct (pIds k i id' Hk) as (_ & Hq' & Hc'). congruence. }
      rewrite rKeep, Hpreds3, fKeep, Hpreds1, Hpi.
      * apply slot_cached. exact Hc.
      * intros k id' r sc _ Hk _ _. rewrite Hids1 in Hk. eapply Hnotag. exact Hk.
      * intros k' id' k _ Hk. rewrite Hri3 in Hk.
        destruct (fRetry k' i id' k Hk) as (_ & Hk2 & _). rewrite Hids1 in Hk2.
        eapply Hnotag. exact Hk2.
    + destruct (decide ((i, id) ∈ product_ids s_p)) as [Hin|Hnin].
      * (* dispatched in the first wave *)
        apply list_elem_of_lookup in Hin as [k Hk].
        destruct (Hres k i id Hk) as [r Hrk].
        assert (Hk1 : product_ids s1 !! k = Some (i, id)) by (rewrite Hids1; exact Hk).
        assert (HkK : (k < length (results s1))%nat) by (eapply lookup_lt_Some; exact Hrk).
        destruct (first_wave_score r) as [sc|] eqn:Hsc.
        -- (* accepted at once *)
           destruct (fHit k i id r sc HkK Hk1 Hrk Hsc) as [Hpf Hwf].
           rewrite rKeep, Hpreds3, Hpf.
           ++ apply (slot_scored _ _ _ _ k r sc); [exact Hc | congruence | congruence
                                                    | exact Hsc |].
              apply rOld. rewrite EW3. exact Hwf.
           ++ intros k' id' k0 _ Hk'. rewrite Hri3 in Hk'.
              destruct (fRetry k' i id' k0 Hk') as (_ & Hk0 & r0 & Hr0 & Hnone).
              rewrite Hids1 in Hk0. assert (k0 = k) as -> by (eapply Hone; eauto).
              congruence.
        -- destruct (decide ((i, id, k) ∈ retry_indices s_f)) as [Hrin|Hrnin].
           ++ (* retried *)
              apply list_elem_of_lookup in Hrin as [k' Hk'].
              destruct (Hrres k' i id k Hk') as [rr Hrr].
              assert (Hk3 : retry_indices s3 !! k' = Some (i, id, k))
                by (rewrite Hri3; exact Hk').
              assert (Hk'K : (k' < length (retry_results s3))%nat)
                by (eapply lookup_lt_Some; exact Hrr).
              destruct (rHit k' i id k rr Hk'K Hk3 Hrr) as [Hpr Hwr].
              rewrite Hpr.
              apply (slot_retried _ _ _ _ k r k' rr);
                [exact Hc | congruence | congruence | exact Hsc | congruence | congruence
                 | exact Hwr].
           ++ (* the retry lookup found nothing *)
              assert (Hnoretry : forall k', retry_indices s_f !! k' <> Some (i, id, k)).
              { intros k' Hk'. apply Hrnin. eapply list_elem_of_lookup_2. exact Hk'. }
              rewrite rKeep, Hpreds3, fKeep, Hpreds1, Hpi.
              ** apply (slot_retry_not_found _ _ _ _ k r);
                   [exact Hc | congruence | congruence | exact Hsc | congruence |].
                 rewrite EF2. apply (fAbsent k i id r); auto.
              ** intros k0 id' r0 sc _ Hk0 Hr0 Hsc0. rewrite Hids1 in Hk0.
                 assert (k0 = k) as -> by (eapply Hone; eauto). congruence.
              ** intros k' id' k0 _ Hk'. rewrite Hri3 in Hk'.
                 destruct (fRetry k' i id' k0 Hk') as (_ & Hk0 & _).
                 rewrite Hids1 in Hk0. assert (k0 = k) as -> by (eapply Hone; eauto).
                 assert (id' = id) as -> by congruence.
                 eapply Hnoretry. exact Hk'.
      * (* the partition lookup found nothing *)
        assert (Hnotag : forall k, product_ids s_p !! k <> Some (i, id)).
        { intros k Hk. apply Hnin. eapply list_elem_of_lookup_2. exact Hk. }
        assert (Hnotag' : forall k id', product_ids s_p !! k = Some (i, id') -> False).
        { intros k id' Hk. destruct (pIds k i id' Hk) as (_ & Hq' & _).
          assert (id' = id) as -> by congruence. eapply Hnotag. exact Hk. }
        rewrite rKeep, Hpreds3, fKeep, Hpreds1, Hpi.
        -- apply slot_not_found; [exact Hc | congruence |].
           rewrite EF1. apply pAbsent; auto.
        -- intros k id' r sc _ Hk _ _. rewrite Hids1 in Hk. eapply Hnotag'. exact Hk.
        -- intros k' id' k _ Hk. rewrite Hri3 in Hk.
           destruct (fRetry k' i id' k Hk) as (_ & Hk2 & _). rewrite Hids1 in Hk2.
           eapply Hnotag'. exact Hk2.
  - exact rCache.
  - (* the first-wave tags *)
    intros k i id Hk. rewrite Eids in Hk.
    destruct (pIds k i id Hk) as (_ & Hq & Hc). split_and!; auto.
    destruct (Hres k i id Hk) as [r Hrk].
    destruct (Hsrc1 k r Hrk) as (p & w' & Hpk & Hr').
    destruct (pFrom k i id p Hk Hpk) as [w Hw].
    exists p, w, r, w'. rewrite Etasks, Eres. split_and!; auto.
  - rewrite Eids. exact pSorted.
  - (* the retry tags *)
    intros k' i id k Hk'. rewrite Eri in Hk'.
    destruct (fRetry k' i id k Hk') as (_ & Hk & r & Hrk & Hnone).
    split_and!.
    + rewrite Eids, <- Hids1. exact Hk.
    + exists r. rewrite Eres. auto.
    + destruct (Hrres k' i id k Hk') as [rr Hrr].
      destruct (Hsrc3 k' rr Hrr) as (p & w' & Hpk & Hr').
      destruct (fRfrom k' i id k p Hk' Hpk) as [w Hw].
      exists p, w, rr, w'. rewrite Ert, rRr. split_and!; auto.
  - rewrite Eri. exact fRsorted.
  - rewrite ED1, Eids. reflexivity.
  - rewrite ED2, Eri. reflexivity.
  - intros i id b Hin. rewrite EF1 in Hin.
    destruct (pFetch i id b Hin) as (_ & Hq & Hc & Hb). rewrite Eids. auto.
  - intros i id b Hin. rewrite EF2 in Hin.
    destruct (fFetch i id b Hin) as (k & r & _ & Hk & Hrk & Hnone & Hb).
    exists k, r. rewrite Eids, Eres, Eri, <- Hids1. auto.
  - intros k i id Hk. rewrite Eids in Hk. rewrite EF1. eapply pFound. exact Hk.
  - intros k' i id k Hk. rewrite Eri in Hk. rewrite EF2. eapply fFound. exact Hk.
  - intros i id sc Hin.
    destruct (rWrites i id sc Hin) as [Hw | (k' & k & rr & _ & Hk' & Hrr & Hsc)].
    + rewrite EW3 in Hw. destruct (fWrites i id sc Hw) as (k & r & _ & Hk & Hrk & Hsc).
      left. exists k, r. rewrite Eids, Eres, <- Hids1. auto.
    + right. exists k', k, rr. rewrite Eri, rRr, <- Hri3. auto.
  - exists js1, js2. rewrite Etasks, Ert. auto.
  - rewrite Etasks, Eids. exact pTasks.
  - rewrite Ert, Eri. exact fRlen.
Qed.

Lemma invoked_once (js : list nat) (n : nat) :
  NoDup js -> (forall j, j ∈ js <-> (j < n)%nat) -> js ≡ₚ seq 0 n.
Proof.
  intros Hnd Hin. apply NoDup_Permutation; [exact Hnd | apply NoDup_seq |].
  intros j. rewrite Hin, elem_of_seq. lia.
Qed.

(** forward returns, whatever the collaborators answer and whatever the
    completion orders, and what it returns is as [served] says. *)
Lemma forward_spec (sched1 sched2 : list nat) (query : list ProductId) (s0 : store) :
  exists response s,
    forward fetch_product_data generate_review_score sched1 sched2 query s0
    = (Py.Return response, s) /\
    served (miner_preds s0) query response s.
Proof.
  unfold forward, mbind, M_bind, bindM, modify, gets. simpl.
  set (s_i := mkStore (miner_preds s0) (world s0) [] [] []
                      (replicate (length query) None) [] [] [] []).
  destruct (partition_spec query s_i) as (s_p & Hrun & Hp); try reflexivity.
  rewrite Hrun. simpl in Hp.
  pose proof Hp as [pCache pLen pPreds pTasks pIds pFrom pSorted pDisp pFetch pAbsent pFound
                    (pQ1 & pQ2 & pQ3 & pQ4) (pU1 & pU2 & pU3 & pU4)].
  assert (Hpos : forall k i id, product_ids s_p !! k = Some (i, id) -> (i < length query)%nat).
  { intros k i id Hk. apply pIds in Hk. tauto. }
  destruct (tasks s_p) as [|t ts] eqn:Hts.
  - (* nothing to score *)
    assert (Hnoids : product_ids s_p = []).
    { apply length_zero_iff_nil. rewrite <- pTasks, ?Hts. reflexivity. }
    destruct (first_wave_spec (miner_preds s0) query s_p) as (s' & Hrun1 & Hf); auto.
    { rewrite pU1, Hnoids. reflexivity. }
    rewrite pU1 in Hrun1, Hf. simpl in Hrun1, Hf. injection Hrun1 as <-.
    destruct (retry_spec (miner_preds s0) query s_p) as (s' & Hrun2 & Hr); auto.
    { rewrite pU3. apply increasing_nil. }
    { rewrite pU3, pU4. reflexivity. }
    { intros k' i id k Hk. rewrite pU3, lookup_nil in Hk. discriminate. }
    { rewrite pQ3. exact pCache. }
    rewrite pU4 in Hrun2, Hr. simpl in Hrun2, Hr. injection Hrun2 as <-.
    exists (predictions s_p), s_p. split; [reflexivity|].
    apply (served_of_phases (miner_preds s0) query s_p s_p s_p s_p s_p [] []);
      rewrite ?pU1, ?pU2, ?pU4, ?Hts, ?app_nil_r; simpl; auto.
    + intros k r Hk. rewrite lookup_nil in Hk. discriminate.
    + intros k r Hk. rewrite lookup_nil in Hk. discriminate.
  - (* the first wave *)
    rewrite <- Hts.
    destruct (gather_spec sched1 (tasks s_p) s_p)
      as (rs & s_g & js1 & Hg & Hrs & (gC & gT & gI & gP & gR & gRt & gRi & gRr) & Htr1
          & Hnd1 & Hin1 & Hsrc1).
    rewrite Hg. simpl.
    set (s1 := set_retry_indices [] (set_retry_tasks [] (set_results rs s_g))).
    destruct (first_wave_spec (miner_preds s0) query s1) as (s_f & Hrun1 & Hf);
      simpl; rewrite ?gI, ?gP, ?Htr1, ?fetched_app, ?dispatched_app, ?writes_app,
               ?fetched_invokes, ?dispatched_invokes, ?writes_invokes, ?app_nil_r;
      auto; try congruence.
    simpl in Hrun1. rewrite Hrun1.
    pose proof Hf as [(fIds & fTasks & fRes & fRR) _ fLen _ _ fRlen fRetry _ _ _ _ _ _ _
                      fCache].
    simpl in fIds, fTasks, fRes, fRR.
    assert (Hrpos : forall k' i id k,
               retry_indices s_f !! k' = Some (i, id, k) -> (i < length query)%nat).
    { intros k' i id k Hk. destruct (fRetry k' i id k Hk) as (_ & Hk0 & _).
      simpl in Hk0. rewrite gI in Hk0. eapply Hpos. exact Hk0. }
    assert (Hrinc : increasing (fun x => x.1.1) (retry_indices s_f)).
    { eapply retry_slots_increasing; [|exact Hf]. simpl. rewrite gI. exact pSorted. }
    assert (Hjs1 : js1 ≡ₚ seq 0 (length (tasks s_p))) by (apply invoked_once; assumption).
    destruct (retry_tasks s_f) as [|rt rts] eqn:Hrts.
    + (* nothing to retry *)
      assert (Hnoidx : retry_indices s_f = []).
      { apply length_zero_iff_nil. rewrite <- fRlen, ?Hrts. reflexivity. }
      assert (Hnorr : retry_results s_f = []) by congruence.
      destruct (retry_spec (miner_preds s0) query s_f) as (s' & Hrun2 & Hr); auto.
      { rewrite Hnoidx, Hnorr. reflexivity. }
      rewrite Hnorr in Hrun2, Hr. simpl in Hrun2, Hr. injection Hrun2 as <-.
      exists (predictions s_f), s_f. split; [reflexivity|].
      apply (served_of_phases (miner_preds s0) query s_p s1 s_f s_f s_f js1 []);
        simpl; rewrite ?Hnorr, ?Hrts, ?app_nil_r; simpl; auto; try congruence.
      intros k r Hk. rewrite lookup_nil in Hk. discriminate.
    + (* the retries *)
      rewrite <- Hrts.
      destruct (gather_spec sched2 (retry_tasks s_f) s_f)
        as (rrs & s_g2 & js2 & Hg2 & Hrrs & (hC & hT & hI & hP & hR & hRt & hRi & hRr)
            & Htr3 & Hnd2 & Hin2 & Hsrc3).
      rewrite Hg2. simpl.
      set (s3 := set_retry_results rrs s_g2).
      destruct (retry_spec (miner_preds s0) query s3) as (s & Hrun2 & Hr);
        simpl; rewrite ?hRi, ?hP, ?hC, ?Htr3, ?writes_app, ?writes_invokes, ?app_nil_r;
        auto; try congruence.
      simpl in Hrun2. rewrite Hrun2.
      exists (predictions s), s. split; [reflexivity|].
      assert (Hjs2 : js2 ≡ₚ seq 0 (length (retry_tasks s_f)))
        by (apply invoked_once; assumption).
      apply (served_of_phases (miner_preds s0) query s_p s1 s_f s3 s js1 js2);
        simpl; auto; try congruence.
Qed.

(** *** Consequences for the batch *)

Lemma served_retry_slots (cache0 : gmap ProductId float) (query : list ProductId)
      (response : list (option float)) (s : store) :
  served cache0 query response s -> increasing (fun x => x.1.1) (retry_indices s).
Proof.
  intros Hs k1 k2 [[i1 id1] j1] [[i2 id2] j2] Hlt H1 H2. simpl.
  pose proof (sv_retry_sorted _ _ _ _ Hs k1 k2 _ _ Hlt H1 H2) as Hj. simpl in Hj.
  destruct (sv_retry _ _ _ _ Hs _ _ _ _ H1) as (Hp1 & _).
  destruct (sv_retry _ _ _ _ Hs _ _ _ _ H2) as (Hp2 & _).
  apply (sv_ids_sorted _ _ _ _ Hs j1 j2 (i1, id1) (i2, id2) Hj Hp1 Hp2).
Qed.

(** A slot has at most one first-wave tag and at most one retry tag. *)
Lemma served_one_tag (cache0 : gmap ProductId float) (query : list ProductId)
      (response : list (option float)) (s : store) (i : nat) (id1 id2 : ProductId)
      (k1 k2 : nat) :
  served cache0 query response s ->
  product_ids s !! k1 = Some (i, id1) -> product_ids s !! k2 = Some (i, id2) -> k1 = k2.
Proof.
  intros Hs H1 H2.
  eapply (increasing_inj fst); [apply (sv_ids_sorted _ _ _ _ Hs) | exact H1 | exact H2 |].
  reflexivity.
Qed.

Lemma served_one_retry (cache0 : gmap ProductId float) (query : list ProductId)
      (response : list (option float)) (s : store) (i1 i2 : nat) (id1 id2 : ProductId)
      (k k1 k2 : nat) :
  served cache0 query response s ->
  retry_indices s !! k1 = Some (i1, id1, k) -> retry_indices s !! k2 = Some (i2, id2, k) ->
  k1 = k2.
Proof.
  intros Hs H1 H2.
  eapply (increasing_inj snd); [apply (sv_retry_sorted _ _ _ _ Hs) | exact H1 | exact H2 |].
  reflexivity.
Qed.

(** Every write of the cache is made for a slot that has a first-wave tag. *)
Lemma served_write_tag (cache0 : gmap ProductId float) (query : list ProductId)
      (response : list (option float)) (s : store) (i : nat) (id : ProductId) (sc : float) :
  served cache0 query response s ->
  (i, id, sc) ∈ writes (trace s) -> exists k, product_ids s !! k = Some (i, id).
Proof.
  intros Hs Hw. destruct (sv_writes _ _ _ _ Hs i id sc Hw)
    as [(k & r & Hk & _) | (k' & k & rr & Hk' & _)].
  - exists k. exact Hk.
  - exists k. apply (sv_retry _ _ _ _ Hs) in Hk'. tauto.
Qed.

(** C2: whatever the orders [sched1] and [sched2] in which the event loop
    completes the oracle calls of the two gathers, forward returns a
    response as long as the query, and slot [i] of it holds what was obtained
    for the product id at position [i] of the query ([slot]): the cached
    score of that id, or absent when a lookup of that id found nothing, or
    the score computed from the outcome that sits in [results] at the index
    of the tag [(i, id)], or from the outcome of its retry. Each tag carries
    the id of its own slot, and its outcome is the outcome of the oracle
    call on the record fetched for that id. *)
Theorem forward_response_aligned (sched1 sched2 : list nat) (query : list ProductId)
        (s0 : store) :
  exists response s,
    forward fetch_product_data generate_review_score sched1 sched2 query s0
    = (Py.Return response, s) /\
    length response = length query /\
    (forall i id, query !! i = Some id -> slot (miner_preds s0) s i id (response !! i)) /\
    (forall k i id, product_ids s !! k = Some (i, id) ->
       query !! i = Some id /\
       exists p w r w', tasks s !! k = Some p /\ (fetch_product_data id w).1 = Some p /\
                        results s !! k = Some r /\ r = (generate_review_score p w').1) /\
    (forall k' i id k, retry_indices s !! k' = Some (i, id, k) ->
       product_ids s !! k = Some (i, id) /\
       exists p w rr w', retry_tasks s !! k' = Some p /\
                         (fetch_product_data id w).1 = Some p /\
                         retry_results s !! k' = Some rr /\
                         rr = (generate_review_score p w').1).
Proof.
  destruct (forward_spec sched1 sched2 query s0) as (response & s & Hrun & Hs).
  exists response, s. split; [exact Hrun|]. split; [apply (sv_len _ _ _ _ Hs)|].
  split; [apply (sv_slot _ _ _ _ Hs)|]. split.
  - intros k i id Hk. destruct (sv_ids _ _ _ _ Hs k i id Hk) as (Hq & _ & Hsrc). auto.
  - intros k' i id k Hk'. destruct (sv_retry _ _ _ _ Hs k' i id k Hk') as (Hk & _ & Hsrc).
    auto.
Qed.

(** C8: a product id [X] that is in the cache with score [S] when the
    request arrives gets [S] at each of its positions; no lookup is made and
    no oracle coroutine is created for [X], in either wave, and its cache
    entry stays [S]. *)
Theorem cached_id_served_from_cache (sched1 sched2 : list nat) (query : list ProductId)
        (s0 : store) (X : ProductId) (S : float) :
  miner_preds s0 !! X = Some S ->
  exists response s,
    forward fetch_product_data generate_review_score sched1 sched2 query s0
    = (Py.Return response, s) /\
    (forall i, query !! i = Some X -> response !! i = Some (Some S)) /\
    (forall wv i b, (i, X, b) ∉ fetched wv (trace s)) /\
    (forall wv i, (i, X) ∉ dispatched wv (trace s)) /\
    (forall i sc, (i, X, sc) ∉ writes (trace s)) /\
    miner_preds s !! X = Some S.
Proof.
  intros HX.
  destruct (forward_spec sched1 sched2 query s0) as (response & s & Hrun & Hs).
  exists response, s. split; [exact Hrun|].
  assert (Hnotag : forall k i, product_ids s !! k <> Some (i, X)).
  { intros k i Hk. destruct (sv_ids _ _ _ _ Hs k i X Hk) as (_ & Hc & _). congruence. }
  assert (Hnowrite : forall i sc, (i, X, sc) ∉ writes (trace s)).
  { intros i sc Hw. destruct (served_write_tag _ _ _ _ _ _ _ Hs Hw) as [k Hk].
    eapply Hnotag. exact Hk. }
  split_and!.
  - intros i Hi. pose proof (sv_slot _ _ _ _ Hs i X Hi) as Hslot.
    inversion Hslot; congruence.
  - intros [] i b Hin.
    + destruct (sv_fetch1 _ _ _ _ Hs i X b Hin) as (_ & Hc & _). congruence.
    + destruct (sv_fetch2 _ _ _ _ Hs i X b Hin) as (k & r & Hk & _).
      eapply Hnotag. exact Hk.
  - intros [] i Hin.
    + rewrite (sv_disp1 _ _ _ _ Hs) in Hin. apply list_elem_of_lookup in Hin as [k Hk].
      eapply Hnotag. exact Hk.
    + rewrite (sv_disp2 _ _ _ _ Hs) in Hin. apply list_elem_of_fmap in Hin as ([[i' id'] k] & Heq & Hin).
      simpl in Heq. injection Heq as <- <-. apply list_elem_of_lookup in Hin as [k' Hk'].
      destruct (sv_retry _ _ _ _ Hs k' i X k Hk') as (Hk & _). eapply Hnotag. exact Hk.
  - exact Hnowrite.
  - rewrite (sv_cache _ _ _ _ Hs), replay_lookup_other; [exact HX | exact Hnowrite].
Qed.

(** C6 (as amended): a slot whose lookup at partition time found nothing
    is absent in the response; no oracle coroutine is created for it in
    either wave, no retry lookup is made for it, and no cache write is made
    for it. The cache entry of its id is left as it was whenever no slot
    holding that id is dispatched. *)
Theorem absent_slot_untouched (sched1 sched2 : list nat) (query : list ProductId)
        (s0 : store) :
  exists response s,
    forward fetch_product_data generate_review_score sched1 sched2 query s0
    = (Py.Return response, s) /\
    forall i id, (i, id, false) ∈ fetched FirstWave (trace s) ->
      query !! i = Some id /\
      response !! i = Some None /\
      (forall wv id', (i, id') ∉ dispatched wv (trace s)) /\
      (forall id' b, (i, id', b) ∉ fetched RetryWave (trace s)) /\
      (forall id' sc, (i, id', sc) ∉ writes (trace s)) /\
      ((forall j, (j, id) ∉ dispatched FirstWave (trace s)) ->
       miner_preds s !! id = miner_preds s0 !! id).
Proof.
  destruct (forward_spec sched1 sched2 query s0) as (response & s & Hrun & Hs).
  exists response, s. split; [exact Hrun|]. intros i id Hin.
  destruct (sv_fetch1 _ _ _ _ Hs i id false Hin) as (Hq & Hc & Hb).
  assert (Hnotag : forall k id', product_ids s !! k <> Some (i, id')).
  { intros k id' Hk. destruct (sv_ids _ _ _ _ Hs k i id' Hk) as (Hq' & _).
    assert (id' = id) as -> by congruence.
    assert (false = true) by (apply Hb; eauto). discriminate. }
  split_and!.
  - exact Hq.
  - pose proof (sv_slot _ _ _ _ Hs i id Hq) as Hslot.
    inversion Hslot as [c Hc' | | k r sc _ Hk | k r _ Hk | k r k' rr _ Hk];
      try reflexivity; try congruence; exfalso; eapply Hnotag; exact Hk.
  - intros [] id' Hd.
    + rewrite (sv_disp1 _ _ _ _ Hs) in Hd. apply list_elem_of_lookup in Hd as [k Hk].
      eapply Hnotag. exact Hk.
    + rewrite (sv_disp2 _ _ _ _ Hs) in Hd.
      apply list_elem_of_fmap in Hd as ([[i' id''] k] & Heq & Hd).
      simpl in Heq. injection Heq as <- <-. apply list_elem_of_lookup in Hd as [k' Hk'].
      destruct (sv_retry _ _ _ _ Hs k' i id' k Hk') as (Hk & _). eapply Hnotag. exact Hk.
  - intros id' b Hf. destruct (sv_fetch2 _ _ _ _ Hs i id' b Hf) as (k & r & Hk & _).
    eapply Hnotag. exact Hk.
  - intros id' sc Hw. destruct (served_write_tag _ _ _ _ _ _ _ Hs Hw) as [k Hk].
    eapply Hnotag. exact Hk.
  - intros Hnone. rewrite (sv_cache _ _ _ _ Hs). apply replay_lookup_other.
    intros j sc Hw. destruct (served_write_tag _ _ _ _ _ _ _ Hs Hw) as [k Hk].
    apply (Hnone j). rewrite (sv_disp1 _ _ _ _ Hs). eapply list_elem_of_lookup_2. exact Hk.
Qed.

(** C1: a slot all of whose lookups answered with a record holds a score,
    never absent. If its first attempt was turned down, it was retried, and
    if the retry fails or yields an invalid score too, the slot holds the
    fallback 50.0 and the fallback was written into the cache under its id;
    it is the final cache entry of that id when the id occurs at no other
    position of the batch. *)
Theorem existing_product_gets_score (sched1 sched2 : list nat) (query : list ProductId)
        (s0 : store) :
  exists response s,
    forward fetch_product_data generate_review_score sched1 sched2 query s0
    = (Py.Return response, s) /\
    forall i id, query !! i = Some id ->
      (forall wv b, (i, id, b) ∈ fetched wv (trace s) -> b = true) ->
      (exists sc, response !! i = Some (Some sc)) /\
      (forall k r, product_ids s !! k = Some (i, id) -> results s !! k = Some r ->
         first_wave_score r = None ->
         exists k' rr,
           retry_indices s !! k' = Some (i, id, k) /\ retry_results s !! k' = Some rr /\
           (retry_failed rr = true ->
              response !! i = Some (Some fallback_score) /\
              (i, id, fallback_score) ∈ writes (trace s) /\
              ((forall j, query !! j = Some id -> j = i) ->
               miner_preds s !! id = Some fallback_score))).
Proof.
  destruct (forward_spec sched1 sched2 query s0) as (response & s & Hrun & Hs).
  exists response, s. split; [exact Hrun|]. intros i id Hq Hfound.
  pose proof (sv_slot _ _ _ _ Hs i id Hq) as Hslot.
  split.
  - inversion Hslot as [c Hc | Hc Hno Hf | k r sc _ Hk | k r Hc Hk Hr Hn Hno Hf
                        | k r k' rr _ Hk]; eauto.
    + apply Hfound in Hf. discriminate.
    + apply Hfound in Hf. discriminate.
  - intros k r Hk Hr Hnone.
    inversion Hslot as [c Hc | Hc Hno Hf | k0 r0 sc _ Hk0 Hr0 Hsc | k0 r0 Hc Hk0 Hr0 Hn Hno Hf
                        | k0 r0 k' rr Hc Hk0 Hr0 Hn Hk' Hrr Hw Heq].
    + destruct (sv_ids _ _ _ _ Hs k i id Hk) as (_ & Hc' & _). congruence.
    + exfalso. eapply Hno. exact Hk.
    + assert (k0 = k) as -> by (eapply served_one_tag; eauto). congruence.
    + apply Hfound in Hf. discriminate.
    + assert (k0 = k) as -> by (eapply served_one_tag; eauto).
      exists k', rr. split_and!; auto. intros Hfail.
      pose proof (retry_failed_score rr Hfail) as Hfb. rewrite Hfb in *.
      split_and!; auto. intros Honly.
      rewrite (sv_cache _ _ _ _ Hs). apply replay_lookup_same; [eauto|].
      intros j sc' Hw'.
      destruct (sv_writes _ _ _ _ Hs j id sc' Hw')
        as [(k1 & r1 & Hk1 & Hr1 & Hsc1) | (k1' & k1 & rr1 & Hk1' & Hrr1 & Hsc1)].
      * destruct (sv_ids _ _ _ _ Hs k1 j id Hk1) as (Hqj & _).
        apply Honly in Hqj. subst j.
        assert (k1 = k) as -> by (eapply served_one_tag; eauto). congruence.
      * destruct (sv_retry _ _ _ _ Hs k1' j id k1 Hk1') as (Hk1 & _).
        destruct (sv_ids _ _ _ _ Hs k1 j id Hk1) as (Hqj & _).
        apply Honly in Hqj. subst j.
        assert (k1 = k) as -> by (eapply served_one_tag; eauto).
        assert (k1' = k') as -> by (eapply served_one_retry; eauto).
        congruence.
Qed.

(** C4: a slot is dispatched to the oracle at most once in each wave,
    hence at most twice; a retry dispatch is made only for a slot whose
    first attempt was turned down; a slot whose first attempt was turned
    down and whose retry lookup answers with a record is dispatched exactly
    once in each wave; and each gather runs every coroutine dispatched to
    it exactly once, so that no slot reaches the oracle a third time. *)
Theorem oracle_called_at_most_twice (sched1 sched2 : list nat) (query : list ProductId)
        (s0 : store) :
  exists response s,
    forward fetch_product_data generate_review_score sched1 sched2 query s0
    = (Py.Return response, s) /\
    (forall i, (tags_of_slot i (dispatched FirstWave (trace s)) <= 1)%nat /\
               (tags_of_slot i (dispatched RetryWave (trace s)) <= 1)%nat) /\
    (forall i id, (i, id) ∈ dispatched RetryWave (trace s) ->
       (i, id) ∈ dispatched FirstWave (trace s) /\
       exists k r, product_ids s !! k = Some (i, id) /\ results s !! k = Some r /\
                   first_wave_score r = None) /\
    (forall i id k r,
       product_ids s !! k = Some (i, id) -> results s !! k = Some r ->
       first_wave_score r = None ->
       (forall b, (i, id, b) ∈ fetched RetryWave (trace s) -> b = true) ->
       tags_of_slot i (dispatched FirstWave (trace s)) = 1%nat /\
       tags_of_slot i (dispatched RetryWave (trace s)) = 1%nat) /\
    (exists js1 js2,
       invoked (trace s) = js1 ++ js2 /\
       js1 ≡ₚ seq 0 (length (dispatched FirstWave (trace s))) /\
       js2 ≡ₚ seq 0 (length (dispatched RetryWave (trace s)))).
Proof.
  destruct (forward_spec sched1 sched2 query s0) as (response & s & Hrun & Hs).
  exists response, s. split; [exact Hrun|].
  pose proof (sv_disp1 _ _ _ _ Hs) as Hd1. pose proof (sv_disp2 _ _ _ _ Hs) as Hd2.
  assert (Hle : forall i, (tags_of_slot i (dispatched FirstWave (trace s)) <= 1)%nat /\
                          (tags_of_slot i (dispatched RetryWave (trace s)) <= 1)%nat).
  { intros i. rewrite Hd1, Hd2. split.
    - apply tags_of_slot_le_1. apply (sv_ids_sorted _ _ _ _ Hs).
    - apply tags_of_slot_le_1. apply increasing_fmap.
      apply (served_retry_slots _ _ _ _ Hs). }
  split_and!.
  - exact Hle.
  - intros i id Hin. rewrite Hd2 in Hin.
    apply list_elem_of_fmap in Hin as ([[i' id'] k] & Heq & Hin).
    simpl in Heq. injection Heq as <- <-. apply list_elem_of_lookup in Hin as [k' Hk'].
    destruct (sv_retry _ _ _ _ Hs k' i id k Hk') as (Hk & (r & Hr & Hnone) & _).
    split; [rewrite Hd1; eapply list_elem_of_lookup_2; exact Hk|].
    exists k, r. auto.
  - intros i id k r Hk Hr Hnone Hfound.
    assert (H1 : (i, id) ∈ dispatched FirstWave (trace s)).
    { rewrite Hd1. eapply list_elem_of_lookup_2. exact Hk. }
    assert (H2 : (i, id) ∈ dispatched RetryWave (trace s)).
    { destruct (sv_ids _ _ _ _ Hs k i id Hk) as (Hq & _).
      pose proof (sv_slot _ _ _ _ Hs i id Hq) as Hslot.
      inversion Hslot as [c Hc | Hc Hno Hf | k0 r0 sc _ Hk0 Hr0 Hsc
                          | k0 r0 Hc Hk0 Hr0 Hn Hno Hf | k0 r0 k' rr Hc Hk0 Hr0 Hn Hk' Hrr Hw Heq].
      - destruct (sv_ids _ _ _ _ Hs k i id Hk) as (_ & Hc' & _). congruence.
      - exfalso. eapply Hno. exact Hk.
      - assert (k0 = k) as -> by (eapply served_one_tag; eauto). congruence.
      - apply Hfound in Hf. discriminate.
      - rewrite Hd2. apply list_elem_of_fmap. exists (i, id, k0). split; [reflexivity|].
        eapply list_elem_of_lookup_2. exact Hk'. }
    destruct (Hle i) as [Hle1 Hle2].
    pose proof (tags_of_slot_ge_1 i id _ H1). pose proof (tags_of_slot_ge_1 i id _ H2).
    lia.
  - destruct (sv_invoked _ _ _ _ Hs) as (js1 & js2 & Hinv & Hp1 & Hp2).
    exists js1, js2. rewrite Hd1, Hd2, length_fmap.
    rewrite <- (sv_tasks_len _ _ _ _ Hs), <- (sv_retry_len _ _ _ _ Hs). auto.
Qed.

(** C5 (as amended): in the first wave a slot is dispatched at most once;
    the slots dispatched are exactly those whose partition lookup answered
    with a record, each for the id at its own position, an id that was not
    in the cache. An id is thus dispatched once for each of its positions
    whose lookup found it, not once per distinct id. *)
Theorem first_wave_one_dispatch_per_slot (sched1 sched2 : list nat)
        (query : list ProductId) (s0 : store) :
  exists response s,
    forward fetch_product_data generate_review_score sched1 sched2 query s0
    = (Py.Return response, s) /\
    (forall i, (tags_of_slot i (dispatched FirstWave (trace s)) <= 1)%nat) /\
    (forall i id, (i, id) ∈ dispatched FirstWave (trace s) <->
                  (i, id, true) ∈ fetched FirstWave (trace s)) /\
    (forall i id, (i, id) ∈ dispatched FirstWave (trace s) ->
                  query !! i = Some id /\ miner_preds s0 !! id = None).
Proof.
  destruct (forward_spec sched1 sched2 query s0) as (response & s & Hrun & Hs).
  exists response, s. split; [exact Hrun|].
  pose proof (sv_disp1 _ _ _ _ Hs) as Hd1. rewrite Hd1. split_and!.
  - intros i. apply tags_of_slot_le_1. apply (sv_ids_sorted _ _ _ _ Hs).
  - intros i id. split.
    + intros Hin. apply list_elem_of_lookup in Hin as [k Hk].
      eapply (sv_found1 _ _ _ _ Hs). exact Hk.
    + intros Hin. destruct (sv_fetch1 _ _ _ _ Hs i id true Hin) as (_ & _ & Hb).
      destruct Hb as [Hb _]. destruct (Hb eq_refl) as [k Hk].
      eapply list_elem_of_lookup_2. exact Hk.
  - intros i id Hin. apply list_elem_of_lookup in Hin as [k Hk].
    destruct (sv_ids _ _ _ _ Hs k i id Hk) as (Hq & Hc & _). auto.
Qed.

(** Every score a call writes into the cache is in [0, 100]; a call that
    starts with a cache of such scores ends with one and answers with such
    scores. *)
Lemma forward_keeps_range (sched1 sched2 : list nat) (query : list ProductId) (s0 : store) :
  exists response s,
    forward fetch_product_data generate_review_score sched1 sched2 query s0
    = (Py.Return response, s) /\
    (forall i id sc, (i, id, sc) ∈ writes (trace s) -> in_range sc = true) /\
    (cache_ok (miner_preds s0) ->
     cache_ok (miner_preds s) /\
     forall i sc, response !! i = Some (Some sc) -> in_range sc = true).
Proof.
  destruct (forward_spec sched1 sched2 query s0) as (response & s & Hrun & Hs).
  exists response, s. split; [exact Hrun|].
  assert (Hw : forall i id sc, (i, id, sc) ∈ writes (trace s) -> in_range sc = true).
  { intros i id sc Hin.
    destruct (sv_writes _ _ _ _ Hs i id sc Hin)
      as [(k & r & _ & _ & Hsc) | (k' & k & rr & _ & _ & ->)].
    - eapply first_wave_score_in_range. exact Hsc.
    - apply retry_score_in_range. }
  split; [exact Hw|]. intros Hok. split.
  - intros id c Hc. rewrite (sv_cache _ _ _ _ Hs) in Hc.
    apply replay_lookup_inv in Hc as [Hc | [i Hc]]; [eapply Hok | eapply Hw]; exact Hc.
  - intros i sc Hi.
    assert (Hlt : (i < length query)%nat).
    { rewrite <- (sv_len _ _ _ _ Hs). eapply lookup_lt_Some. exact Hi. }
    apply lookup_lt_is_Some in Hlt as [id Hq].
    pose proof (sv_slot _ _ _ _ Hs i id Hq) as Hslot. rewrite Hi in Hslot.
    inversion Hslot as [c Hc | | k r sc' _ _ _ Hsc | | k r k' rr]; subst.
    + eapply Hok. exact Hc.
    + eapply first_wave_score_in_range. exact Hsc.
    + apply retry_score_in_range.
Qed.

(** C9: every score a call of forward writes into the cache is a number in
    [0, 100] (an accepted first-wave score, an accepted retry score or the
    fallback 50.0); a call that finds only such scores in the cache leaves
    only such scores and answers only with such scores; hence, in a process
    that starts with the empty cache, every response value, cache hits
    included, is in [0, 100]. *)
Theorem cache_scores_in_range :
  (forall sched1 sched2 query (s0 : store),
     exists response s,
       forward fetch_product_data generate_review_score sched1 sched2 query s0
       = (Py.Return response, s) /\
       (forall i id sc, (i, id, sc) ∈ writes (trace s) -> in_range sc = true) /\
       (cache_ok (miner_preds s0) ->
        cache_ok (miner_preds s) /\
        forall i sc, response !! i = Some (Some sc) -> in_range sc = true)) /\
  (forall requests (s0 : store),
     miner_preds s0 = ∅ ->
     cache_ok (miner_preds (serve fetch_product_data generate_review_score requests s0).2) /\
     Forall (fun r => exists response,
                 r = Py.Return response /\
                 forall i sc, response !! i = Some (Some sc) -> in_range sc = true)
            (serve fetch_product_data generate_review_score requests s0).1).
Proof.
  split; [apply forward_keeps_range|].
  assert (Hgen : forall requests (s0 : store),
             cache_ok (miner_preds s0) ->
             cache_ok (miner_preds
                         (serve fetch_product_data generate_review_score requests s0).2) /\
             Forall (fun r => exists response,
                         r = Py.Return response /\
                         forall i sc, response !! i = Some (Some sc) -> in_range sc = true)
                    (serve fetch_product_data generate_review_score requests s0).1).
  { induction requests as [|[[sched1 sched2] query] requests IH]; intros s0 Hok; simpl.
    - split; [exact Hok | constructor].
    - destruct (forward_keeps_range sched1 sched2 query s0)
        as (response & s & Hrun & _ & Hkeep).
      rewrite Hrun. destruct (Hkeep Hok) as [Hok' Hresp].
      specialize (IH s Hok').
      destruct (serve fetch_product_data generate_review_score requests s)
        as [responses s'] eqn:Hserve.
      simpl in *. destruct IH as [IH1 IH2]. split; [exact IH1|].
      constructor; [|exact IH2]. exists response. auto. }
  intros requests s0 Hempty. apply Hgen. intros id c Hc.
  rewrite Hempty, lookup_empty in Hc. discriminate.
Qed.

(** C10 (as amended): the aggregation returns a score for every breakdown
    whose criteria convert to binary64, in [0, 10] or not, and that score is
    in [0, 100] and accepted by the first-wave check; whatever score the
    aggregation returns passes the check of line 121, so that its "Invalid
    score" branch is taken for [None] only; and a slot whose first outcome
    is accepted holds that score, has it cached and is not retried. *)
Theorem returned_scores_accepted :
  (forall r : ReviewScoreSchema,
     (forall key, fits_float (getattr (breakdown r) key)) ->
     exists sc, get_overall_score (Review r) = Py.Return (Some sc) /\
                in_range sc = true /\
                first_wave_score (Py.Return (Review r)) = Some sc) /\
  (forall obj sc, get_overall_score obj = Py.Return (Some sc) ->
                  (sc <? 0)%float || (100 <? sc)%float = false) /\
  (forall sched1 sched2 query (s0 : store),
     exists response s,
       forward fetch_product_data generate_review_score sched1 sched2 query s0
       = (Py.Return response, s) /\
       forall k i id r sc,
         product_ids s !! k = Some (i, id) -> results s !! k = Some r ->
         first_wave_score r = Some sc ->
         response !! i = Some (Some sc) /\
         (i, id, sc) ∈ writes (trace s) /\
         (forall id', (i, id') ∉ dispatched RetryWave (trace s)) /\
         (forall id' b, (i, id', b) ∉ fetched RetryWave (trace s))).
Proof.
  split_and!.
  - intros r Hfits. destruct (weighted_sum_returns _ Hfits) as [x Hx].
    exists (Py.round2 (clamp_0_100 x)).
    assert (Hs : get_overall_score (Review r)
                 = Py.Return (Some (Py.round2 (clamp_0_100 x)))).
    { simpl. unfold mbind, result_bind. rewrite Hx. reflexivity. }
    split_and!; [exact Hs | eapply get_overall_score_in_range; exact Hs |].
    unfold first_wave_score. rewrite Hs, (first_wave_check_passes _ _ Hs). reflexivity.
  - apply first_wave_check_passes.
  - intros sched1 sched2 query s0.
    destruct (forward_spec sched1 sched2 query s0) as (response & s & Hrun & Hs).
    exists response, s. split; [exact Hrun|]. intros k i id r sc Hk Hr Hsc.
    destruct (sv_ids _ _ _ _ Hs k i id Hk) as (Hq & Hc & _).
    assert (Hnoretry : forall k' id' k0, retry_indices s !! k' <> Some (i, id', k0)).
    { intros k' id' k0 Hk'.
      destruct (sv_retry _ _ _ _ Hs k' i id' k0 Hk') as (Hk0 & (r0 & Hr0 & Hn) & _).
      assert (k0 = k) as -> by (eapply served_one_tag; eauto). congruence. }
    pose proof (sv_slot _ _ _ _ Hs i id Hq) as Hslot.
    split_and!.
    + inversion Hslot as [c Hc' | Hc' Hno Hf | k0 r0 sc0 _ Hk0 Hr0 Hsc0
                          | k0 r0 _ Hk0 Hr0 Hn | k0 r0 k' rr _ Hk0 Hr0 Hn Hk'].
      * congruence.
      * exfalso. eapply Hno. exact Hk.
      * assert (k0 = k) as -> by (eapply served_one_tag; eauto). congruence.
      * assert (k0 = k) as -> by (eapply served_one_tag; eauto). congruence.
      * exfalso. eapply Hnoretry. exact Hk'.
    + inversion Hslot as [c Hc' | Hc' Hno Hf | k0 r0 sc0 _ Hk0 Hr0 Hsc0 Hw
                          | k0 r0 _ Hk0 Hr0 Hn | k0 r0 k' rr _ Hk0 Hr0 Hn Hk'].
      * congruence.
      * exfalso. eapply Hno. exact Hk.
      * assert (k0 = k) as -> by (eapply served_one_tag; eauto).
        assert (sc0 = sc) as -> by congruence. exact Hw.
      * assert (k0 = k) as -> by (eapply served_one_tag; eauto). congruence.
      * exfalso. eapply Hnoretry. exact Hk'.
    + intros id' Hd. rewrite (sv_disp2 _ _ _ _ Hs) in Hd.
      apply list_elem_of_fmap in Hd as ([[i' id''] k0] & Heq & Hd).
      simpl in Heq. injection Heq as <- <-. apply list_elem_of_lookup in Hd as [k' Hk'].
      eapply Hnoretry. exact Hk'.
    + intros id' b Hf.
      destruct (sv_fetch2 _ _ _ _ Hs i id' b Hf) as (k0 & r0 & Hk0 & Hr0 & Hn & _).
      assert (k0 = k) as -> by (eapply served_one_tag; eauto). congruence.
Qed.

End ForwardFacts.

(** ** Scripted collaborators *)

(** A world that plays back a script: the answers of the lookups to come
    (found or not; found when the script is over) and the outcomes of the
    oracle calls to come, in the order the calls complete (an exception when
    the script is over). The record of a product is its id. *)
Definition script : Type := list bool * list (Py.result py_object).

Definition scripted_fetch (id : ProductId) (w : script) : option ProductId * script :=
  match w.1 with
  | [] => (Some id, w)
  | found :: rest => (if found then Some id else None, (rest, w.2))
  end.

Definition scripted_oracle (p : ProductId) (w : script) : Py.result py_object * script :=
  match w.2 with
  | [] => (Py.Raise (Py.Exception "Failed to generate review score"), w)
  | r :: rest => (r, (w.1, rest))
  end.

(** A process that has this cache and is about to serve a request. *)
Definition at_rest (cache : gmap ProductId float) (w : script) : store script ProductId :=
  mkStore cache w [] [] [] [] [] [] [] [].

Definition run (sched1 sched2 : list nat) (query : list ProductId)
           (cache : gmap ProductId float) (w : script) :
  Py.result (list (option float)) * store script ProductId :=
  forward scripted_fetch scripted_oracle sched1 sched2 query (at_rest cache w).

(** The batch ["A"; "B"; "C"] of the specification: "A" is cached, "B" is
    not found and "C" is scored at the first attempt. *)
Example forward_abc :
  let out := run [] [] ["A"; "B"; "C"] {["A" := 42%float]}
                 ([false; true], [Py.Return (review_of (uniform 7))]) in
  out.1 = Py.Return [Some 42%float; None; Some 70%float] /\
  trace out.2 = [Fetch FirstWave 1 "B" false; Fetch FirstWave 2 "C" true;
                 Dispatch FirstWave 2 "C"; Invoke 0; CacheWrite 2 "C" 70] /\
  miner_preds out.2 !! "C" = Some 70%float.
Proof. vm_compute. auto. Qed.

(** The batch ["D"] of the specification: the oracle fails both attempts. *)
Example forward_fallback :
  let out := run [] [] ["D"] ∅ ([], []) in
  out.1 = Py.Return [Some 50%float] /\
  miner_preds out.2 !! "D" = Some 50%float.
Proof. vm_compute. auto. Qed.

(** ** The claims on scripted runs *)

(** Membership in the lists read off a trace, decided by running them. *)
Ltac read_trace H :=
  vm_compute in H;
  repeat (apply elem_of_cons in H as [H|H]; [try congruence|]);
  try (apply elem_of_nil in H; contradiction).

(** C1 on the batch ["D"] whose oracle fails twice: every lookup found the
    product, so the slot holds a score, the fallback, which is cached. *)
Lemma existing_product_gets_score_witness :
  let out := run [] [] ["D"] ∅ ([], []) in
  (forall wv b, (0%nat, "D", b) ∈ fetched wv (trace out.2) -> b = true) /\
  exists response,
    out.1 = Py.Return response /\
    response !! 0%nat = Some (Some fallback_score) /\
    miner_preds out.2 !! "D" = Some fallback_score.
Proof.
  intros out.
  assert (Hfound : forall wv b, (0%nat, "D", b) ∈ fetched wv (trace out.2) -> b = true).
  { intros [] b Hin; read_trace Hin. }
  split; [exact Hfound|].
  destruct (existing_product_gets_score scripted_fetch scripted_oracle
              [] [] ["D"] (at_rest ∅ ([], []))) as (response & s & Hrun & Hclaim).
  fold (run [] [] ["D"] ∅ ([], [])) in Hrun. fold out in Hrun.
  assert (Hs : s = out.2) by (rewrite Hrun; reflexivity). subst s.
  exists response. split; [rewrite Hrun; reflexivity|].
  destruct (Hclaim 0%nat "D" eq_refl Hfound) as [_ Hretry].
  destruct (Hretry 0%nat (Py.Raise (Py.Exception "Failed to generate review score")))
    as (k' & rr & Hk' & Hrr & Hfail); try (vm_compute; reflexivity).
  assert (k' = 0%nat) as ->.
  { apply lookup_lt_Some in Hk'. vm_compute in Hk'. lia. }
  assert (rr = Py.Raise (Py.Exception "Failed to generate review score")) as ->.
  { vm_compute in Hrr. congruence. }
  destruct (Hfail eq_refl) as (Hresp & _ & Hcache). split; [exact Hresp|].
  apply Hcache. intros [|j] Hj; [reflexivity | discriminate].
Defined.

(** C8 on the batch ["A"; "B"; "C"]: "A" is cached with 42.0, and is
    answered with 42.0 without any lookup or oracle call for it. *)
Lemma cached_id_served_from_cache_witness :
  let cache : gmap ProductId float := {["A" := 42%float]} in
  let out := run [] [] ["A"; "B"; "C"] cache
                 ([false; true], [Py.Return (review_of (uniform 7))]) in
  cache !! "A" = Some 42%float /\
  exists response,
    out.1 = Py.Return response /\
    response !! 0%nat = Some (Some 42%float) /\
    (forall wv i b, (i, "A", b) ∉ fetched wv (trace out.2)) /\
    (forall wv i, (i, "A") ∉ dispatched wv (trace out.2)) /\
    miner_preds out.2 !! "A" = Some 42%float.
Proof.
  intros cache out.
  assert (Hcached : cache !! "A" = Some 42%float) by (vm_compute; reflexivity).
  split; [exact Hcached|].
  destruct (cached_id_served_from_cache scripted_fetch scripted_oracle [] []
              ["A"; "B"; "C"]
              (at_rest cache ([false; true], [Py.Return (review_of (uniform 7))]))
              "A" 42%float Hcached)
    as (response & s & Hrun & Hresp & Hfetch & Hdisp & _ & Hcache).
  fold (run [] [] ["A"; "B"; "C"] cache
            ([false; true], [Py.Return (review_of (uniform 7))])) in Hrun.
  fold out in Hrun.
  assert (Hs : s = out.2) by (rewrite Hrun; reflexivity). subst s.
  exists response. split; [rewrite Hrun; reflexivity|].
  split; [apply Hresp; reflexivity|]. auto.
Defined.

(** C5, refuted as stated: the claim that at most one first-wave dispatch
    is launched per distinct id. *)
Definition one_dispatch_per_id (t : list event) : Prop :=
  forall id, (length (filter (fun x : nat * ProductId => x.2 = id)
                             (dispatched FirstWave t)) <= 1)%nat.

(** On the batch ["D"; "D"] with an empty cache, two oracle coroutines are
    created for "D", one per position, before the first gather runs
    either: they are in flight together. *)
Lemma duplicate_id_dispatched_twice :
  let out := run [] [] ["D"; "D"] ∅
                 ([], [Py.Return (review_of (uniform 7)); Py.Return (review_of (uniform 5))]) in
  trace out.2 = [Fetch FirstWave 0 "D" true; Dispatch FirstWave 0 "D";
                 Fetch FirstWave 1 "D" true; Dispatch FirstWave 1 "D";
                 Invoke 0; Invoke 1;
                 CacheWrite 0 "D" 70; CacheWrite 1 "D" 50] /\
  ~ one_dispatch_per_id (trace out.2).
Proof.
  intros out. split; [vm_compute; reflexivity|].
  intros Hone. specialize (Hone "D"). vm_compute in Hone. lia.
Qed.

(** C6, refuted as stated: the claim that the cache entry of an id is left
    unmodified whenever the partition lookup of a slot holding it found
    nothing. *)
Definition absent_slot_keeps_cache (cache0 : gmap ProductId float)
           (s : store script ProductId) : Prop :=
  forall i id, (i, id, false) ∈ fetched FirstWave (trace s) ->
               miner_preds s !! id = cache0 !! id.

(** On the batch ["X"; "X"] where the lookup finds nothing for the first
    slot and the product for the second, the first slot is absent and the
    score of the second is cached under "X". *)
Lemma absent_slot_id_cached_by_other_slot :
  let out := run [] [] ["X"; "X"] ∅
                 ([false; true], [Py.Return (review_of (uniform 7))]) in
  out.1 = Py.Return [None; Some 70%float] /\
  (0%nat, "X", false) ∈ fetched FirstWave (trace out.2) /\
  miner_preds out.2 !! "X" = Some 70%float /\
  ~ absent_slot_keeps_cache ∅ out.2.
Proof.
  intros out.
  assert (Hin : (0%nat, "X", false) ∈ fetched FirstWave (trace out.2)).
  { vm_compute. apply list_elem_of_here. }
  split_and!; [vm_compute; reflexivity | exact Hin | vm_compute; reflexivity |].
  intros Hkeep. specialize (Hkeep 0%nat "X" Hin). vm_compute in Hkeep. discriminate.
Qed.

(** C10, refuted as stated: the claim that a breakdown with criteria
    outside [0, 10] is never turned down at the first attempt. *)
Definition never_turned_down : Prop :=
  forall b : ScoreBreakdown, exists sc, first_wave_score (Py.Return (review_of b)) = Some sc.

(** A criterion of 2^1024 does not convert to binary64: the aggregation
    raises, the first attempt is turned down, and the slot goes through the
    retry wave (here to the fallback, the oracle answering the same). *)
Lemma huge_criterion_turned_down :
  let b := mkBreakdown (2 ^ 1024) 5 5 5 5 5 5 5 5 5 in
  let out := run [] [] ["P"] ∅
                 ([], [Py.Return (review_of b); Py.Return (review_of b)]) in
  get_overall_score (review_of b) = Py.Raise Py.OverflowError /\
  first_wave_score (Py.Return (review_of b)) = None /\
  out.1 = Py.Return [Some 50%float] /\
  trace out.2 = [Fetch FirstWave 0 "P" true; Dispatch FirstWave 0 "P"; Invoke 0;
                 Fetch RetryWave 0 "P" true; Dispatch RetryWave 0 "P"; Invoke 0;
                 CacheWrite 0 "P" 50] /\
  ~ never_turned_down.
Proof.
  intros b out.
  split; [vm_compute; reflexivity|]. split; [vm_compute; reflexivity|].
  split; [vm_compute; reflexivity|]. split; [vm_compute; reflexivity|].
  intros Hnever. destruct (Hnever b) as [sc Hsc]. vm_compute in Hsc. discriminate.
Qed.

(** C2 on the batch ["C"; "D"] when the oracle call of "D" completes
    first: the response has two slots, and the score of "D" sits in the
    second. *)
Lemma forward_response_aligned_witness :
  let w : script := ([], [Py.Return (review_of (uniform 7));
                          Py.Return (review_of (uniform 5))]) in
  let out := run [1; 0]%nat [] ["C"; "D"] ∅ w in
  invoked (trace out.2) = [1; 0]%nat /\
  out.1 = Py.Return [Some 50%float; Some 70%float] /\
  exists response,
    out.1 = Py.Return response /\
    length response = 2%nat /\
    slot ∅ out.2 1 "D" (response !! 1%nat).
Proof.
  intros w out.
  split; [vm_compute; reflexivity|]. split; [vm_compute; reflexivity|].
  destruct (forward_response_aligned scripted_fetch scripted_oracle
              [1; 0]%nat [] ["C"; "D"] (at_rest ∅ w))
    as (response & s & Hrun & Hlen & Hslot & _).
  fold (run [1; 0]%nat [] ["C"; "D"] ∅ w) in Hrun. fold out in Hrun.
  assert (Hs : s = out.2) by (rewrite Hrun; reflexivity). subst s.
  exists response. split; [rewrite Hrun; reflexivity|].
  split; [exact Hlen|]. apply (Hslot 1%nat "D"). reflexivity.
Defined.

(** C4 on the batch ["D"] whose oracle fails twice: the slot is dispatched
    once in each wave, and the oracle runs twice, not a third time. *)
Lemma oracle_called_at_most_twice_witness :
  let out := run [] [] ["D"] ∅ ([], []) in
  (forall b, (0%nat, "D", b) ∈ fetched RetryWave (trace out.2) -> b = true) /\
  tags_of_slot 0 (dispatched FirstWave (trace out.2)) = 1%nat /\
  tags_of_slot 0 (dispatched RetryWave (trace out.2)) = 1%nat /\
  invoked (trace out.2) = [0; 0]%nat.
Proof.
  intros out.
  assert (Hfound : forall b, (0%nat, "D", b) ∈ fetched RetryWave (trace out.2) -> b = true).
  { intros b Hin; read_trace Hin. }
  split; [exact Hfound|].
  destruct (oracle_called_at_most_twice scripted_fetch scripted_oracle
              [] [] ["D"] (at_rest ∅ ([], []))) as (response & s & Hrun & _ & _ & Hboth & _).
  fold (run [] [] ["D"] ∅ ([], [])) in Hrun. fold out in Hrun.
  assert (Hs : s = out.2) by (rewrite Hrun; reflexivity). subst s.
  assert (Hids : product_ids out.2 !! 0%nat = Some (0%nat, "D")) by (vm_compute; reflexivity).
  assert (Hres : results out.2 !! 0%nat
                 = Some (Py.Raise (Py.Exception "Failed to generate review score")))
    by (vm_compute; reflexivity).
  destruct (Hboth 0%nat "D" 0%nat _ Hids Hres eq_refl Hfound) as [H1 H2].
  split; [exact H1|]. split; [exact H2|]. vm_compute. reflexivity.
Defined.

(** C5 (as amended) on the batch ["D"; "D"]: the second slot is dispatched,
    once, its lookup having found the product. *)
Lemma first_wave_one_dispatch_per_slot_witness :
  let out := run [] [] ["D"; "D"] ∅
                 ([], [Py.Return (review_of (uniform 7)); Py.Return (review_of (uniform 5))]) in
  (1%nat, "D") ∈ dispatched FirstWave (trace out.2) /\
  (1%nat, "D", true) ∈ fetched FirstWave (trace out.2) /\
  (tags_of_slot 1 (dispatched FirstWave (trace out.2)) <= 1)%nat.
Proof.
  intros out.
  assert (Hin : (1%nat, "D") ∈ dispatched FirstWave (trace out.2)).
  { vm_compute. apply list_elem_of_further, list_elem_of_here. }
  split; [exact Hin|].
  destruct (first_wave_one_dispatch_per_slot scripted_fetch scripted_oracle
              [] [] ["D"; "D"]
              (at_rest ∅ ([], [Py.Return (review_of (uniform 7));
                               Py.Return (review_of (uniform 5))])))
    as (response & s & Hrun & Hone & Hiff & _).
  fold (run [] [] ["D"; "D"] ∅
            ([], [Py.Return (review_of (uniform 7)); Py.Return (review_of (uniform 5))]))
    in Hrun.
  fold out in Hrun.
  assert (Hs : s = out.2) by (rewrite Hrun; reflexivity). subst s.
  split; [apply Hiff; exact Hin | apply Hone].
Defined.

(** C6 (as amended) on the batch ["A"; "B"; "C"]: the lookup finds nothing
    for "B", whose slot is absent; no slot holding "B" is dispatched, and
    "B" is as little in the cache afterwards as before. *)
Lemma absent_slot_untouched_witness :
  let cache : gmap ProductId float := {["A" := 42%float]} in
  let out := run [] [] ["A"; "B"; "C"] cache
                 ([false; true], [Py.Return (review_of (uniform 7))]) in
  (1%nat, "B", false) ∈ fetched FirstWave (trace out.2) /\
  (forall j, (j, "B") ∉ dispatched FirstWave (trace out.2)) /\
  exists response,
    out.1 = Py.Return response /\
    response !! 1%nat = Some None /\
    miner_preds out.2 !! "B" = cache !! "B".
Proof.
  intros cache out.
  assert (Hin : (1%nat, "B", false) ∈ fetched FirstWave (trace out.2)).
  { vm_compute. apply list_elem_of_here. }
  assert (Hnone : forall j, (j, "B") ∉ dispatched FirstWave (trace out.2)).
  { intros j Hj. read_trace Hj. }
  split; [exact Hin|]. split; [exact Hnone|].
  destruct (absent_slot_untouched scripted_fetch scripted_oracle [] []
              ["A"; "B"; "C"]
              (at_rest cache ([false; true], [Py.Return (review_of (uniform 7))])))
    as (response & s & Hrun & Hclaim).
  fold (run [] [] ["A"; "B"; "C"] cache
            ([false; true], [Py.Return (review_of (uniform 7))])) in Hrun.
  fold out in Hrun.
  assert (Hs : s = out.2) by (rewrite Hrun; reflexivity). subst s.
  exists response. split; [rewrite Hrun; reflexivity|].
  destruct (Hclaim 1%nat "B" Hin) as (_ & Hresp & _ & _ & _ & Hcache).
  split; [exact Hresp | apply Hcache; exact Hnone].
Defined.

(** C9 on the batch ["A"; "B"; "C"]: the cache holds 42.0 before, and only
    scores in [0, 100] after. *)
Lemma cache_scores_in_range_witness :
  let cache : gmap ProductId float := {["A" := 42%float]} in
  let out := run [] [] ["A"; "B"; "C"] cache
                 ([false; true], [Py.Return (review_of (uniform 7))]) in
  cache_ok cache /\
  cache_ok (miner_preds out.2) /\
  miner_preds out.2 !! "C" = Some 70%float.
Proof.
  intros cache out.
  assert (Hok : cache_ok cache).
  { intros id c Hc. apply lookup_singleton_Some in Hc as [_ <-]. reflexivity. }
  split; [exact Hok|].
  destruct (proj1 (cache_scores_in_range scripted_fetch scripted_oracle) [] []
              ["A"; "B"; "C"]
              (at_rest cache ([false; true], [Py.Return (review_of (uniform 7))])))
    as (response & s & Hrun & _ & Hkeep).
  fold (run [] [] ["A"; "B"; "C"] cache
            ([false; true], [Py.Return (review_of (uniform 7))])) in Hrun.
  fold out in Hrun.
  assert (Hs : s = out.2) by (rewrite Hrun; reflexivity). subst s.
  split; [apply Hkeep; exact Hok | vm_compute; reflexivity].
Defined.

(** C10 (as amended) on a breakdown with criteria outside [0, 10]: its
    score is accepted at the first attempt. *)
Lemma returned_scores_accepted_witness :
  let b := mkBreakdown 25 (-3) 5 5 5 5 5 5 5 11 in
  (forall key, fits_float (getattr b key)) /\
  exists sc : float,
    get_overall_score (review_of b) = Py.Return (Some sc) /\
    in_range sc = true /\
    first_wave_score (Py.Return (review_of b)) = Some sc.
Proof.
  intros b.
  assert (Hfits : forall key, fits_float (getattr b key)).
  { intros key; destruct key; eexists; vm_compute; reflexivity. }
  split; [exact Hfits|].
  exact (proj1 (returned_scores_accepted scripted_fetch scripted_oracle)
               (mkReview "p" 0 b) Hfits).
Defined.

(** ** The aggregation on breakdowns with criteria from -1 to 100

    The prompt of llm.py asks for integers between 0 and 10; the fields of
    [ScoreBreakdown] take any integer. The breakdowns looked at here have
    criteria from -1 to 100, which takes in the criteria the prompt asks
    for, criteria on the scale of the overall score, on which [min(10, .)]
    acts, and negative ones, on which the clamp of line 58 acts. There are
    102^10 of them, but far fewer weighted sums: a criterion from 11 on
    counts as 11 does, and the sums reachable after each key are enumerated,
    each binary64 sum next to its exact value in thousandths, and every one of
    them is checked. *)

(** Every criterion is in [0, 10]. *)
Definition valid_breakdown (b : ScoreBreakdown) : Prop :=
  forall key, 0 <= getattr b key <= 10.

(** Every criterion is from -1 to 100. *)
Definition in_window (b : ScoreBreakdown) : Prop :=
  forall key, -1 <= getattr b key <= 100.

(** The criteria with products of their own; 11 stands for those above. *)
Definition criterion_values : list Z := [-1; 0; 1; 2; 3; 4; 5; 6; 7; 8; 9; 10; 11].

(** The product line 55 adds for the key [key] when the criterion is [v]. *)
Definition term (key : field) (v : Z) : float :=
  match normalized_score v with
  | Py.Return n => (n * weights key)%float
  | Py.Raise _ => 0%float
  end.

(** The same product in exact arithmetic: the normalized criterion in
    hundredths, the weight in tenths, the product in thousandths. *)
Definition normalized_hundredths (v : Z) : Z :=
  if v <=? 2 then 110 * v else if v >=? 9 then Z.min 1000 (98 * v) else 100 * v.

Definition weight_tenths (key : field) : Z :=
  match key with
  | Project => 11 | Userbase => 9 | Utility => 12 | Security => 17 | Team => 4
  | Tokenomics => 11 | Marketing => 15 | Roadmap => 10 | Clarity => 4 | Partnerships => 7
  end.

Definition term_thousandths (key : field) (v : Z) : Z :=
  normalized_hundredths v * weight_tenths key.

(** A partial sum: the binary64 the loop holds and its exact value in
    thousandths, kept as a machine integer, [offset] standing for zero. *)
Definition offset : int := 1048576%uint63.

Definition partial : Type := float * int.

Definition add_term (t : partial) (acc : partial) : partial :=
  ((acc.1 + t.1)%float, PrimInt63.add acc.2 t.2).

Definition same_partial (a b : partial) : bool :=
  PrimInt63.eqb a.2 b.2 && PrimFloat.Leibniz.eqb a.1 b.1.

(** [t] added to every sum of [accs], in reverse order, equal neighbours
    kept once. *)
Fixpoint shift_rev (t : partial) (accs out : list partial) : list partial :=
  match accs with
  | [] => out
  | a :: accs' =>
      let x := add_term t a in
      match out with
      | y :: _ => if same_partial x y then shift_rev t accs' out
                  else shift_rev t accs' (x :: out)
      | [] => shift_rev t accs' [x]
      end
  end.

(** The union of two lists ordered by their binary64 sums, in reverse. *)
Fixpoint merge_rev (l1 : list partial) : list partial -> list partial -> list partial :=
  match l1 with
  | [] => fun l2 out => rev_append l2 out
  | a :: l1' =>
      fix aux (l2 out : list partial) : list partial :=
        match l2 with
        | [] => rev_append l1 out
        | b :: l2' =>
            if (a.1 <? b.1)%float then merge_rev l1' l2 (a :: out)
            else if (b.1 <? a.1)%float then aux l2' (b :: out)
            else if same_partial a b then merge_rev l1' l2' (a :: out)
            else merge_rev l1' l2' (b :: a :: out)
        end
  end.

Definition merge (l1 l2 : list partial) : list partial := rev_append (merge_rev l1 l2 []) [].

Definition terms_of (key : field) : list partial :=
  map (fun v => (term key v, Uint63.of_Z (term_thousandths key v))) criterion_values.

(** The sums reachable after one more key, from the sums [accs]. *)
Definition extend (key : field) (accs : list partial) : list partial :=
  fold_right (fun t out => merge (rev_append (shift_rev t accs []) []) out)
             [] (terms_of key).

Definition reachable (keys : list field) (accs : list partial) : list partial :=
  fold_left (fun accs key => extend key accs) keys accs.

(** The exact sum, clamped to [0, 100]. *)
Definition clamp_thousandths (z : Z) : Z := Z.max 0 (Z.min 100000 z).

(** The exact value a partial sum stands for, clamped to [0, 100]. *)
Definition clamped (i : int) : int :=
  if PrimInt63.ltb i offset then 0%uint63
  else if PrimInt63.ltb (PrimInt63.add offset 100000) i then 100000%uint63
  else PrimInt63.sub i offset.

(** The number of hundredths nearest to [c] thousandths, when [c] is no
    tie. *)
Definition nearest_hundredth (c : int) : int :=
  if PrimInt63.ltb (PrimInt63.mod c 10) 5 then PrimInt63.div c 10
  else PrimInt63.add (PrimInt63.div c 10) 1.

(** Two binary64 numbers around [n] hundredths, some 0.0045 below and
    above. *)
Definition lo (n : int) : float := ((of_uint63 (PrimInt63.mul 2 n) - 0.9) / 200)%float.
Definition hi (n : int) : float := ((of_uint63 (PrimInt63.mul 2 n) + 0.9) / 200)%float.

(** What is checked of a reachable sum: its exact value, clamped, is no tie
    between two decimals, and the sum, clamped as line 58 does, lies between
    the two numbers around the nearest decimal; and when the exact value is
    in (0, 100], the sum is in [0, 100] and the clamp leaves it as it is. *)
Definition settled (acc : partial) : bool :=
  let y := clamp_0_100 acc.1 in
  let c := clamped acc.2 in
  let n := nearest_hundredth c in
  negb (PrimInt63.eqb (PrimInt63.mod c 10) 5) && (lo n <=? y)%float && (y <=? hi n)%float &&
  (PrimInt63.leb acc.2 offset || PrimInt63.ltb (PrimInt63.add offset 100000) acc.2 ||
   (in_range acc.1 && PrimFloat.Leibniz.eqb y acc.1)).

(** [x] is a positive binary64 with a negative exponent, and its exact
    value rounds to [n] hundredths. *)
Definition rounds_to (x : float) (n : Z) : bool :=
  match Prim2SF x with
  | S754_finite false m e => (e <? 0) && (Py.hundredths m e =? n)
  | _ => false
  end.

(** Both numbers around [n] hundredths round to [n] hundredths; the one
    below zero hundredths is negative and left out. *)
Definition grid_point (n : Z) : bool :=
  rounds_to (hi (Uint63.of_Z n)) n && ((n =? 0) || rounds_to (lo (Uint63.of_Z n)) n).

Lemma same_partial_eq (a b : partial) : same_partial a b = true -> a = b.
Proof.
  destruct a as [x z], b as [y w]. unfold same_partial. simpl.
  intros H. apply andb_prop in H as [Hx Hz].
  apply Uint63.eqb_spec in Hx. apply FloatAxioms.Leibniz.eqb_spec in Hz. congruence.
Qed.

Lemma in_rev_append {A : Type} (x : A) (l out : list A) :
  In x (rev_append l out) <-> In x l \/ In x out.
Proof. rewrite rev_append_rev, in_app_iff, <- in_rev. reflexivity. Qed.

Lemma shift_rev_in (t : partial) (accs : list partial) :
  forall out a, (In a accs -> In (add_term t a) (shift_rev t accs out)) /\
                (In a out -> In a (shift_rev t accs out)).
Proof.
  induction accs as [|a0 accs IH]; intros out a; simpl.
  - split; [contradiction | auto].
  - assert (Hstep : exists out',
               shift_rev t (a0 :: accs) out = shift_rev t accs out' /\
               In (add_term t a0) out' /\ (forall y, In y out -> In y out')).
    { simpl. destruct out as [|y out].
      - eexists. split; [reflexivity|]. simpl. auto.
      - destruct (same_partial (add_term t a0) y) eqn:Hs.
        + apply same_partial_eq in Hs. eexists. split; [reflexivity|].
          rewrite Hs. simpl. auto.
        + eexists. split; [reflexivity|]. simpl. auto. }
    destruct Hstep as (out' & Heq & Hnew & Hold). simpl in Heq. rewrite Heq.
    split.
    + intros [<- | Hin].
      * apply (proj2 (IH out' (add_term t a0))). exact Hnew.
      * apply (proj1 (IH out' a)). exact Hin.
    + intros Hin. apply (proj2 (IH out' a)). apply Hold. exact Hin.
Qed.

Lemma merge_rev_in (l1 : list partial) :
  forall l2 out x, In x l1 \/ In x l2 \/ In x out -> In x (merge_rev l1 l2 out).
Proof.
  induction l1 as [|a l1 IH1]; intros l2 out x Hin; simpl.
  - apply in_rev_append. simpl in Hin. tauto.
  - revert out Hin. induction l2 as [|b l2 IH2]; intros out Hin.
    + change (In x (rev_append (a :: l1) out)). apply in_rev_append.
      simpl in *. tauto.
    + change (In x (if (a.1 <? b.1)%float then merge_rev l1 (b :: l2) (a :: out)
                    else if (b.1 <? a.1)%float then merge_rev (a :: l1) l2 (b :: out)
                    else if same_partial a b then merge_rev l1 l2 (a :: out)
                    else merge_rev l1 l2 (b :: a :: out))).
      destruct (a.1 <? b.1)%float.
      * apply IH1. simpl in *. tauto.
      * destruct (b.1 <? a.1)%float.
        -- apply IH2. simpl in *. tauto.
        -- destruct (same_partial a b) eqn:Hs.
           ++ apply same_partial_eq in Hs. subst b. apply IH1. simpl in *. tauto.
           ++ apply IH1. simpl in *. tauto.
Qed.

Lemma merge_in (l1 l2 : list partial) (x : partial) :
  In x l1 \/ In x l2 -> In x (merge l1 l2).
Proof.
  intros Hin. unfold merge. apply in_rev_append. left. apply merge_rev_in. tauto.
Qed.

Lemma extend_in (key : field) (accs : list partial) (a : partial) (v : Z) :
  In a accs -> In v criterion_values ->
  In (add_term (term key v, Uint63.of_Z (term_thousandths key v)) a) (extend key accs).
Proof.
  intros Ha Hv. unfold extend, terms_of.
  induction criterion_values as [|v0 vs IH]; simpl in *; [contradiction|].
  apply merge_in. destruct Hv as [-> | Hv].
  - left. apply in_rev_append. left. apply (proj1 (shift_rev_in _ accs [] a)). exact Ha.
  - right. apply IH. exact Hv.
Qed.

Lemma reachable_in (value : field -> Z) (keys : list field) :
  (forall key, In (value key) criterion_values) ->
  forall accs a, In a accs ->
    In (fold_left (fun acc key => add_term (term key (value key),
                                            Uint63.of_Z (term_thousandths key (value key)))
                                           acc) keys a)
       (reachable keys accs).
Proof.
  intros Hv. induction keys as [|key keys IH]; intros accs a Ha; simpl; [exact Ha|].
  apply IH. apply extend_in; auto.
Qed.

Lemma criterion_values_spec (v : Z) : -1 <= v <= 11 -> In v criterion_values.
Proof.
  intros Hv. unfold criterion_values.
  assert (v = -1 \/ v = 0 \/ v = 1 \/ v = 2 \/ v = 3 \/ v = 4 \/ v = 5 \/ v = 6 \/ v = 7 \/
          v = 8 \/ v = 9 \/ v = 10 \/ v = 11) as Hcases by lia.
  simpl. intuition.
Qed.

(** From 11 to 100 a criterion is normalized to 10: checked on each. *)
Lemma high_criteria :
  forallb (fun n => match normalized_score (Z.of_nat n) with
                    | Py.Return x => PrimFloat.Leibniz.eqb x 10
                    | Py.Raise _ => false
                    end) (seq 11 90) = true.
Proof. vm_compute. reflexivity. Qed.

Lemma normalized_score_high (v : Z) :
  11 <= v <= 100 -> normalized_score v = Py.Return 10%float.
Proof.
  intros Hv. pose proof high_criteria as Hall.
  rewrite List.forallb_forall in Hall.
  specialize (Hall (Z.to_nat v) ltac:(apply in_seq; lia)).
  rewrite Z2Nat.id in Hall by lia.
  destruct (normalized_score v) as [x|e]; [|discriminate].
  apply FloatAxioms.Leibniz.eqb_spec in Hall. subst x. reflexivity.
Qed.

(** A criterion above 11 counts as 11. *)
Definition capped (v : Z) : Z := Z.min v 11.

Lemma capped_spec (v : Z) : -1 <= v <= 100 -> In (capped v) criterion_values.
Proof. intros Hv. apply criterion_values_spec. unfold capped. lia. Qed.

Lemma term_capped (key : field) (v : Z) :
  -1 <= v <= 100 -> term key v = term key (capped v).
Proof.
  intros Hv. unfold capped. destruct (Z.le_gt_cases v 11) as [Hle|Hgt].
  - rewrite Z.min_l by exact Hle. reflexivity.
  - rewrite Z.min_r by lia. unfold term.
    rewrite (normalized_score_high v), (normalized_score_high 11) by lia. reflexivity.
Qed.

Lemma term_thousandths_capped (key : field) (v : Z) :
  -1 <= v <= 100 -> term_thousandths key v = term_thousandths key (capped v).
Proof.
  intros Hv. unfold capped. destruct (Z.le_gt_cases v 11) as [Hle|Hgt].
  - rewrite Z.min_l by exact Hle. reflexivity.
  - rewrite Z.min_r by lia. unfold term_thousandths, normalized_hundredths.
    rewrite !Z.geb_leb.
    destruct (Z.leb_spec v 2); [lia|]. destruct (Z.leb_spec 9 v); [|lia].
    simpl. f_equal. lia.
Qed.

Lemma normalized_score_fits (v : Z) (x : float) :
  normalized_score v = Py.Return x -> fits_float v.
Proof.
  unfold normalized_score, Py.mul_int_float, mbind, result_bind, Py.bind, fits_float.
  destruct (Py.float_of_int v) as [f|e]; [eauto|].
  destruct (v <=? 2); [|destruct (v >=? 9)]; discriminate.
Qed.

Lemma criterion_fits (v : Z) : -1 <= v <= 100 -> fits_float v.
Proof.
  intros Hv. destruct (Z.le_gt_cases v 11) as [Hle|Hgt].
  - pose proof (criterion_values_spec v ltac:(lia)) as Hin.
    unfold criterion_values in Hin. simpl in Hin.
    repeat (destruct Hin as [<- | Hin]; [eexists; vm_compute; reflexivity|]).
    contradiction.
  - apply (normalized_score_fits v 10). apply normalized_score_high. lia.
Qed.

(** On such a criterion the turn of the sum of line 55 is [term]. *)
Lemma term_spec (key : field) (v : Z) :
  -1 <= v <= 100 ->
  Py.bind (normalized_score v) (fun n => Py.Return (n * weights key)%float)
  = Py.Return (term key v).
Proof.
  intros Hv. unfold term.
  destruct (normalized_score_returns v (criterion_fits v Hv)) as [n ->]. reflexivity.
Qed.

Lemma for_each_map {A B : Type} (f : A -> Py.result B) (g : A -> B) (l : list A) :
  (forall x, f x = Py.Return (g x)) -> Py.for_each f l = Py.Return (map g l).
Proof.
  intros Hf. induction l as [|x l IH]; simpl; [reflexivity|].
  rewrite Hf, IH. reflexivity.
Qed.

(** The exact value of the weighted sum, in thousandths. *)
Definition sum_thousandths (b : ScoreBreakdown) : Z :=
  fold_left (fun z key => z + term_thousandths key (getattr b key)) model_fields 0.

(** The weighted sum, as line 55 computes it. *)
Definition sum_of_terms (b : ScoreBreakdown) : float :=
  Py.sum (map (fun key => term key (getattr b key)) model_fields).

Lemma weighted_sum_window (b : ScoreBreakdown) :
  in_window b -> weighted_sum b = Py.Return (sum_of_terms b).
Proof.
  intros Hb. unfold weighted_sum, mbind, result_bind.
  rewrite (for_each_map _ (fun key => term key (getattr b key))); [reflexivity|].
  intros key. apply term_spec. apply Hb.
Qed.

Lemma of_Z_add (a b : Z) :
  PrimInt63.add (Uint63.of_Z a) (Uint63.of_Z b) = Uint63.of_Z (a + b).
Proof.
  apply Uint63.to_Z_inj. rewrite Uint63.add_spec, !Uint63.of_Z_spec.
  symmetry. apply Zplus_mod.
Qed.

Lemma fold_partial (b : ScoreBreakdown) (keys : list field) :
  forall (x : float) (z : Z),
    fold_left (fun acc key => add_term (term key (getattr b key),
                                        Uint63.of_Z (term_thousandths key (getattr b key)))
                                       acc)
              keys (x, Uint63.of_Z z)
    = (fold_left PrimFloat.add (map (fun key => term key (getattr b key)) keys) x,
       Uint63.of_Z (fold_left (fun z key => z + term_thousandths key (getattr b key))
                              keys z)).
Proof.
  induction keys as [|key keys IH]; intros x z; simpl; [reflexivity|].
  unfold add_term at 2. simpl. rewrite of_Z_add. apply IH.
Qed.

Lemma fold_offset (b : ScoreBreakdown) (keys : list field) :
  forall c z : Z,
    fold_left (fun z key => z + term_thousandths key (getattr b key)) keys (c + z)
    = c + fold_left (fun z key => z + term_thousandths key (getattr b key)) keys z.
Proof.
  induction keys as [|key keys IH]; intros c z; simpl; [reflexivity|].
  rewrite <- Z.add_assoc. apply IH.
Qed.

Lemma fold_capped (b : ScoreBreakdown) (keys : list field) :
  in_window b ->
  forall a : partial,
    fold_left (fun acc key => add_term (term key (getattr b key),
                                        Uint63.of_Z (term_thousandths key (getattr b key)))
                                       acc) keys a
    = fold_left (fun acc key =>
                   add_term (term key (capped (getattr b key)),
                             Uint63.of_Z (term_thousandths key (capped (getattr b key))))
                            acc)
                keys a.
Proof.
  intros Hb. induction keys as [|key keys IH]; intros a; simpl; [reflexivity|].
  rewrite <- (term_capped key _ (Hb key)), <- (term_thousandths_capped key _ (Hb key)).
  apply IH.
Qed.

(** Every breakdown with criteria from -1 to 100 has its weighted sum, with
    its exact value, among the reachable ones. *)
Lemma window_reachable (b : ScoreBreakdown) :
  in_window b ->
  In (sum_of_terms b, Uint63.of_Z (1048576 + sum_thousandths b))
     (reachable model_fields [(0%float, offset)]).
Proof.
  intros Hb. unfold sum_of_terms, sum_thousandths, Py.sum.
  rewrite <- (fold_offset b model_fields 1048576 0).
  change (1048576 + 0) with 1048576.
  rewrite <- fold_partial, (fold_capped b model_fields Hb).
  apply (reachable_in (fun key => capped (getattr b key))); [|left; reflexivity].
  intros key. apply capped_spec. apply Hb.
Qed.

(** The check, run on every reachable sum. *)
Lemma reachable_settled :
  forallb settled (reachable model_fields [(0%float, offset)]) = true.
Proof. vm_cast_no_check (eq_refl true). Qed.

Lemma window_settled (b : ScoreBreakdown) :
  in_window b ->
  settled (sum_of_terms b, Uint63.of_Z (1048576 + sum_thousandths b)) = true.
Proof.
  intros Hb. pose proof reachable_settled as Hall.
  rewrite List.forallb_forall in Hall. apply Hall.
  apply window_reachable. exact Hb.
Qed.

(** *** What the check says *)

Lemma ltb_to_Z (a b : int) :
  PrimInt63.ltb a b = (Uint63.to_Z a <? Uint63.to_Z b).
Proof. apply Bool.eq_true_iff_eq. rewrite Uint63.ltb_spec, Z.ltb_lt. reflexivity. Qed.

Lemma leb_to_Z (a b : int) :
  PrimInt63.leb a b = (Uint63.to_Z a <=? Uint63.to_Z b).
Proof. apply Bool.eq_true_iff_eq. rewrite Uint63.leb_spec, Z.leb_le. reflexivity. Qed.

Lemma eqb_to_Z (a b : int) :
  PrimInt63.eqb a b = (Uint63.to_Z a =? Uint63.to_Z b).
Proof.
  apply Bool.eq_true_iff_eq. rewrite Uint63.eqb_spec, Z.eqb_eq.
  split; [intros ->; reflexivity | apply Uint63.to_Z_inj].
Qed.

Lemma wB_value : Uint63.wB = 9223372036854775808.
Proof. reflexivity. Qed.

Lemma to_Z_of_Z (z : Z) : 0 <= z < 2 ^ 62 -> Uint63.to_Z (Uint63.of_Z z) = z.
Proof.
  intros Hz. rewrite Uint63.of_Z_spec. apply Z.mod_small. rewrite wB_value.
  assert (H62 : 2 ^ 62 = 4611686018427387904) by reflexivity. lia.
Qed.

Lemma clamped_spec (z : Z) :
  -11000 <= z <= 100000 ->
  Uint63.to_Z (clamped (Uint63.of_Z (1048576 + z))) = clamp_thousandths z.
Proof.
  intros Hz.
  assert (H62 : 2 ^ 62 = 4611686018427387904) by reflexivity.
  pose proof (to_Z_of_Z (1048576 + z) ltac:(lia)) as Hi.
  unfold clamped, clamp_thousandths. rewrite !ltb_to_Z, Hi.
  change (Uint63.to_Z offset) with 1048576.
  change (Uint63.to_Z (PrimInt63.add offset 100000)) with 1148576.
  destruct (Z.ltb_spec (1048576 + z) 1048576) as [Hneg|Hpos].
  - change (Uint63.to_Z 0) with 0. lia.
  - destruct (Z.ltb_spec 1148576 (1048576 + z)) as [Hbig|Hsmall]; [lia|].
    rewrite Uint63.sub_spec, Hi. change (Uint63.to_Z offset) with 1048576.
    rewrite Z.mod_small by (rewrite wB_value; lia). lia.
Qed.

Lemma div_half_even_by_10 (c : Z) :
  c mod 10 <> 5 ->
  Py.div_half_even c 10 = if c mod 10 <? 5 then c / 10 else c / 10 + 1.
Proof.
  intros Hc. unfold Py.div_half_even.
  destruct (Z.compare_spec (2 * (c mod 10)) 10) as [Heq|Hlt|Hgt];
    destruct (Z.ltb_spec (c mod 10) 5); try reflexivity; lia.
Qed.

Lemma nearest_hundredth_spec (i : int) (c : Z) :
  Uint63.to_Z i = c -> 0 <= c <= 100000 -> c mod 10 <> 5 ->
  nearest_hundredth i = Uint63.of_Z (Py.div_half_even c 10).
Proof.
  intros Hi Hc Htie.
  assert (H62 : 2 ^ 62 = 4611686018427387904) by reflexivity.
  assert (Hq : 0 <= c / 10 <= 10000).
  { split; [apply Z.div_pos; lia | apply Z.div_le_upper_bound; lia]. }
  apply Uint63.to_Z_inj. rewrite div_half_even_by_10 by exact Htie.
  unfold nearest_hundredth. rewrite ltb_to_Z, Uint63.mod_spec, Hi.
  change (Uint63.to_Z 10) with 10. change (Uint63.to_Z 5) with 5.
  destruct (c mod 10 <? 5).
  - rewrite Uint63.div_spec, Hi, to_Z_of_Z by lia. reflexivity.
  - rewrite Uint63.add_spec, Uint63.div_spec, Hi, to_Z_of_Z by lia.
    change (Uint63.to_Z 10) with 10. change (Uint63.to_Z 1) with 1.
    apply Z.mod_small. rewrite wB_value. lia.
Qed.

Lemma digits2_pos_least (m : positive) : 2 ^ (Z.pos (digits2_pos m) - 1) <= Z.pos m.
Proof.
  induction m as [m IH | m IH |]; simpl digits2_pos.
  - rewrite Pos2Z.inj_succ.
    replace (Z.succ (Z.pos (digits2_pos m)) - 1) with (Z.succ (Z.pos (digits2_pos m) - 1))
      by lia.
    rewrite Z.pow_succ_r by lia. lia.
  - rewrite Pos2Z.inj_succ.
    replace (Z.succ (Z.pos (digits2_pos m)) - 1) with (Z.succ (Z.pos (digits2_pos m) - 1))
      by lia.
    rewrite Z.pow_succ_r by lia. lia.
  - reflexivity.
Qed.

(** A binary64 above the least exponent has all its 53 bits. *)
Lemma valid_exponent (s : bool) (m : positive) (e : Z) :
  valid_binary (S754_finite s m e) = true ->
  -1074 <= e /\ (-1074 < e -> 2 ^ 52 <= Z.pos m).
Proof.
  unfold valid_binary, SpecFloat.valid_binary, bounded, canonical_mantissa, fexp.
  intros H. apply andb_prop in H as [H _]. apply Z.eqb_eq in H.
  pose proof (digits2_pos_least m) as Hm.
  unfold prec, emin, emax in H.
  split; [lia|]. intros He.
  assert (Hd : Z.pos (digits2_pos m) - 1 = 52) by lia.
  rewrite Hd in Hm. exact Hm.
Qed.

Lemma div_half_even_scale (a d k : Z) :
  0 < d -> 0 < k -> Py.div_half_even (a * k) (d * k) = Py.div_half_even a d.
Proof.
  intros Hd Hk. unfold Py.div_half_even.
  rewrite Z.div_mul_cancel_r by lia.
  rewrite Z.mul_mod_distr_r by lia.
  assert (Hc : (2 * (a mod d * k) ?= d * k) = (2 * (a mod d) ?= d)).
  { destruct (2 * (a mod d) ?= d) eqn:Hc.
    - apply Z.compare_eq in Hc. apply Z.compare_eq_iff. nia.
    - rewrite Z.compare_lt_iff in Hc. apply Z.compare_lt_iff. nia.
    - rewrite Z.compare_gt_iff in Hc. apply Z.compare_gt_iff. nia. }
  rewrite Hc. reflexivity.
Qed.

Lemma div_half_even_monotone (a a' d : Z) :
  0 < d -> a <= a' -> Py.div_half_even a d <= Py.div_half_even a' d.
Proof.
  intros Hd Hle. unfold Py.div_half_even.
  pose proof (Z.div_mod a d ltac:(lia)) as Ha.
  pose proof (Z.div_mod a' d ltac:(lia)) as Ha'.
  pose proof (Z.mod_pos_bound a d Hd) as Hr.
  pose proof (Z.mod_pos_bound a' d Hd) as Hr'.
  assert (Hq : a / d <= a' / d) by (apply Z.div_le_mono; lia).
  destruct (Z.eq_dec (a / d) (a' / d)) as [Heq|Hne].
  - rewrite <- Heq in *.
    assert (Hrr : a mod d <= a' mod d) by lia.
    destruct (Z.compare_spec (2 * (a mod d)) d);
      destruct (Z.compare_spec (2 * (a' mod d)) d);
      destruct (Z.even (a / d)); lia.
  - destruct (2 * (a mod d) ?= d); destruct (2 * (a' mod d) ?= d);
      destruct (Z.even (a / d)); destruct (Z.even (a' / d)); lia.
Qed.

(** Of two positive binary64 numbers with negative exponents, the larger
    one has at least as many hundredths. *)
Lemma hundredths_monotone (m1 m2 : positive) (e1 e2 : Z) :
  valid_binary (S754_finite false m1 e1) = true ->
  valid_binary (S754_finite false m2 e2) = true ->
  e1 < 0 -> e2 < 0 ->
  SFleb (S754_finite false m1 e1) (S754_finite false m2 e2) = true ->
  Py.hundredths m1 e1 <= Py.hundredths m2 e2.
Proof.
  intros Hv1 Hv2 He1 He2 Hle. unfold Py.hundredths.
  destruct (Z.leb_spec 0 e1); [lia|]. destruct (Z.leb_spec 0 e2); [lia|].
  apply SFleb_finite in Hle. destruct Hle as [Hlt | [-> Hm]].
  - pose proof (valid_mantissa_bound _ _ _ Hv1) as Hm1.
    destruct (valid_exponent _ _ _ Hv1) as [Hmin _].
    destruct (valid_exponent _ _ _ Hv2) as [_ Hm2]. specialize (Hm2 ltac:(lia)).
    assert (Hk : 2 ^ 1 <= 2 ^ (e2 - e1)) by (apply Z.pow_le_mono_r; lia).
    assert (Hp2 : 0 < 2 ^ (- e2)) by (apply Z.pow_pos_nonneg; lia).
    rewrite <- (div_half_even_scale (Z.pos m2 * 100) (2 ^ (- e2)) (2 ^ (e2 - e1))) by lia.
    rewrite <- Z.pow_add_r by lia.
    replace (- e2 + (e2 - e1)) with (- e1) by lia.
    apply div_half_even_monotone; [apply Z.pow_pos_nonneg; lia|].
    assert (H53 : 2 ^ 53 = 2 * 2 ^ 52) by reflexivity.
    change (2 ^ 1) with 2 in Hk.
    assert (Hprod : 2 * 2 ^ 52 <= 2 ^ (e2 - e1) * Z.pos m2)
      by (apply Z.mul_le_mono_nonneg; lia).
    nia.
  - apply div_half_even_monotone; [apply Z.pow_pos_nonneg; lia | lia].
Qed.

Lemma grid_points (n : Z) : 0 <= n <= 10000 -> grid_point n = true.
Proof.
  intros Hn.
  assert (Hall : forallb (fun a => forallb (fun b =>
                   grid_point (Z.of_nat a * 100 + Z.of_nat b))
                   (seq 0 100)) (seq 0 101) = true) by (vm_compute; reflexivity).
  rewrite List.forallb_forall in Hall.
  specialize (Hall (Z.to_nat (n / 100))).
  rewrite List.forallb_forall in Hall.
  pose proof (Z.div_mod n 100 ltac:(lia)) as Hdiv.
  pose proof (Z.mod_pos_bound n 100 ltac:(lia)) as Hmod.
  assert (Hq : 0 <= n / 100 <= 100).
  { split; [apply Z.div_pos; lia | apply Z.div_le_upper_bound; lia]. }
  specialize (Hall ltac:(apply in_seq; lia) (Z.to_nat (n mod 100)) ltac:(apply in_seq; lia)).
  rewrite !Z2Nat.id in Hall by lia.
  replace (n / 100 * 100 + n mod 100) with n in Hall by lia. exact Hall.
Qed.

(** The clamp of line 58 hands on the [0] it is given or a number above. *)
Lemma clamp_0_100_cases (x : float) :
  clamp_0_100 x = 0%float \/ (0 <? clamp_0_100 x)%float = true.
Proof.
  unfold clamp_0_100, Py.max.
  destruct (0 <? Py.min 100 x)%float eqn:Hlo; [right; exact Hlo | left; reflexivity].
Qed.

(** A clamped number between the two numbers around [n] hundredths rounds
    to [n] hundredths. *)
Lemma between_rounds (x : float) (n : Z) :
  0 <= n <= 10000 ->
  (lo (Uint63.of_Z n) <=? clamp_0_100 x)%float = true ->
  (clamp_0_100 x <=? hi (Uint63.of_Z n))%float = true ->
  Py.round2 (clamp_0_100 x) = Py.of_hundredths false n.
Proof.
  intros Hn Hlo Hhi.
  pose proof (clamp_0_100_in_range x) as Hr.
  pose proof (clamp_0_100_cases x) as Hcases.
  set (y := clamp_0_100 x) in *.
  pose proof (grid_points n Hn) as Hg. unfold grid_point in Hg.
  apply andb_prop in Hg as [Hgh Hgl].
  rewrite leb_spec in Hlo, Hhi.
  unfold rounds_to in Hgh, Hgl.
  pose proof (Prim2SF_valid (hi (Uint63.of_Z n))) as Hvh.
  pose proof (Prim2SF_valid (lo (Uint63.of_Z n))) as Hvl.
  pose proof (Prim2SF_valid y) as Hvy.
  destruct (Prim2SF (hi (Uint63.of_Z n))) as [sh|sh| |[] mh eh]; try discriminate.
  apply andb_prop in Hgh as [Heh Hnh]. apply Z.ltb_lt in Heh. apply Z.eqb_eq in Hnh.
  unfold Py.round2.
  destruct (Prim2SF y) as [s|s| |s m e] eqn:Hy.
  - assert (Hs : s = false).
    { destruct Hcases as [H0 | Hpos].
      - rewrite H0, Prim2SF_0 in Hy. congruence.
      - rewrite ltb_spec, Hy, Prim2SF_0 in Hpos. destruct s; discriminate. }
    subst s.
    assert (H0 : n = 0).
    { apply orb_prop in Hgl as [Hz | Hl]; [apply Z.eqb_eq; exact Hz|].
      destruct (Prim2SF (lo (Uint63.of_Z n))) as [sl|sl| |[] ml el]; discriminate. }
    rewrite H0. change (Py.of_hundredths false 0) with (SF2Prim (S754_zero false)).
    rewrite <- Hy. symmetry. apply SF2Prim_Prim2SF.
  - exfalso. unfold in_range in Hr. apply andb_prop in Hr as [Hr0 Hr100].
    rewrite leb_spec, Hy in Hr0, Hr100. rewrite Prim2SF_0 in Hr0.
    rewrite Prim2SF_100 in Hr100. destruct s; discriminate.
  - exfalso. unfold in_range in Hr. apply andb_prop in Hr as [Hr0 _].
    rewrite leb_spec, Hy, Prim2SF_0 in Hr0. discriminate.
  - destruct (in_range_finite y s m e Hy Hr) as (-> & He & Hm).
    f_equal. apply Z.le_antisymm.
    + rewrite <- Hnh. apply hundredths_monotone; assumption.
    + apply orb_prop in Hgl as [Hz | Hl].
      * apply Z.eqb_eq in Hz. rewrite Hz. unfold Py.hundredths.
        destruct (Z.leb_spec 0 e); [lia|].
        apply (div_half_even_bounds _ _ 10000);
          [lia | apply Z.pow_pos_nonneg; lia | exact Hm].
      * destruct (Prim2SF (lo (Uint63.of_Z n))) as [sl|sl| |[] ml el]; try discriminate.
        apply andb_prop in Hl as [Hel Hnl]. apply Z.ltb_lt in Hel. apply Z.eqb_eq in Hnl.
        rewrite <- Hnl. apply hundredths_monotone; assumption.
Qed.

(** What [settled] says of a reachable sum, one fact at a time. *)
Lemma settled_spec (x : float) (z : Z) :
  -11000 <= z <= 100000 ->
  settled (x, Uint63.of_Z (1048576 + z)) = true ->
  Py.round2 (clamp_0_100 x)
  = Py.of_hundredths false (Py.div_half_even (clamp_thousandths z) 10) /\
  (1 <= z <= 100000 -> in_range x = true /\ clamp_0_100 x = x).
Proof.
  intros Hz. unfold settled. cbn [fst snd].
  assert (H62 : 2 ^ 62 = 4611686018427387904) by reflexivity.
  pose proof (to_Z_of_Z (1048576 + z) ltac:(lia)) as Hi.
  pose proof (clamped_spec z Hz) as Hc.
  assert (Hrange : 0 <= clamp_thousandths z <= 100000) by (unfold clamp_thousandths; lia).
  rewrite eqb_to_Z, Uint63.mod_spec, Hc, leb_to_Z, ltb_to_Z, Hi.
  change (Uint63.to_Z 10) with 10. change (Uint63.to_Z 5) with 5.
  change (Uint63.to_Z offset) with 1048576.
  change (Uint63.to_Z (PrimInt63.add offset 100000)) with 1148576.
  intros H. apply andb_prop in H as [H Hin]. apply andb_prop in H as [H Hhi].
  apply andb_prop in H as [Htie Hlo].
  apply negb_true_iff in Htie. apply Z.eqb_neq in Htie.
  rewrite (nearest_hundredth_spec _ _ Hc Hrange Htie) in Hlo, Hhi.
  split.
  - apply between_rounds; [|exact Hlo | exact Hhi].
    apply (div_half_even_bounds _ _ 10000); lia.
  - intros Hz1. apply orb_prop in Hin as [Hin|Hin].
    + apply orb_prop in Hin as [Hin|Hin]; [apply Z.leb_le in Hin | apply Z.ltb_lt in Hin]; lia.
    + apply andb_prop in Hin as [Hin Hclamp].
      apply FloatAxioms.Leibniz.eqb_spec in Hclamp. auto.
Qed.

(** The exact sum of a breakdown with criteria from -1 to 100 is from -11 to
    100. *)
Lemma normalized_hundredths_window (v : Z) :
  -1 <= v <= 100 -> -110 <= normalized_hundredths v <= 1000.
Proof.
  intros Hv. unfold normalized_hundredths. rewrite Z.geb_leb.
  destruct (Z.leb_spec v 2); [lia|]. destruct (Z.leb_spec 9 v); lia.
Qed.

Lemma window_sum_bounds (b : ScoreBreakdown) :
  in_window b -> -11000 <= sum_thousandths b <= 100000.
Proof.
  intros Hb.
  pose proof (normalized_hundredths_window _ (Hb Project)) as H1.
  pose proof (normalized_hundredths_window _ (Hb Userbase)) as H2.
  pose proof (normalized_hundredths_window _ (Hb Utility)) as H3.
  pose proof (normalized_hundredths_window _ (Hb Security)) as H4.
  pose proof (normalized_hundredths_window _ (Hb Team)) as H5.
  pose proof (normalized_hundredths_window _ (Hb Tokenomics)) as H6.
  pose proof (normalized_hundredths_window _ (Hb Marketing)) as H7.
  pose proof (normalized_hundredths_window _ (Hb Roadmap)) as H8.
  pose proof (normalized_hundredths_window _ (Hb Clarity)) as H9.
  pose proof (normalized_hundredths_window _ (Hb Partnerships)) as H10.
  unfold sum_thousandths, term_thousandths. simpl fold_left.
  cbn [getattr weight_tenths] in *. lia.
Qed.

(** The weighted sum of a breakdown with criteria from -1 to 100, clamped
    and rounded, is the decimal nearest to its clamped exact value; and
    when the exact value is in (0, 100], the sum is in [0, 100] and the
    clamp leaves it as it is. *)
Lemma window_checked (b : ScoreBreakdown) :
  in_window b ->
  Py.round2 (clamp_0_100 (sum_of_terms b))
  = Py.of_hundredths false
      (Py.div_half_even (clamp_thousandths (sum_thousandths b)) 10) /\
  (1 <= sum_thousandths b <= 100000 ->
   in_range (sum_of_terms b) = true /\ clamp_0_100 (sum_of_terms b) = sum_of_terms b).
Proof.
  intros Hb.
  exact (settled_spec _ _ (window_sum_bounds b Hb) (window_settled b Hb)).
Qed.

(** ** The aggregation as the specification words it

    Over exact rationals: normalization, the fixed weight table, the sum, the
    clamp to [0, 100] and the rounding to two decimals, whose result is given
    as a number of hundredths. *)
Module Reference.

Definition normalized (v : Z) : Q :=
  if v <=? 2 then inject_Z v * 1.1
  else if v >=? 9 then Qmin 10 (inject_Z v * 0.98)
  else inject_Z v.

Definition weight (key : field) : Q :=
  match key with
  | Project => 1.1
  | Userbase => 0.9
  | Utility => 1.2
  | Security => 1.7
  | Team => 0.4
  | Tokenomics => 1.1
  | Marketing => 1.5
  | Roadmap => 1.0
  | Clarity => 0.4
  | Partnerships => 0.7
  end%Q.

Definition weighted_sum (b : ScoreBreakdown) : Q :=
  fold_left (fun acc key => acc + normalized (getattr b key) * weight key)%Q
            model_fields 0%Q.

Definition clamp (x : Q) : Q := Qmax 0 (Qmin 100 x).

(** The number of hundredths nearest to [x]; a tie, which no sum of the
    terms above hits, goes to the even one. *)
Definition round2 (x : Q) : Z :=
  Py.div_half_even (Qnum x * 100) (Z.pos (Qden x)).

Definition aggregate (b : ScoreBreakdown) : Z :=
  round2 (clamp (weighted_sum b)).

End Reference.

Lemma reference_round2_thousandths (x : Q) (z : Z) :
  (x == z # 1000)%Q -> Reference.round2 x = Py.div_half_even z 10.
Proof.
  unfold Qeq, Reference.round2. simpl. intros Hx.
  rewrite <- (div_half_even_scale (Qnum x * 100) (Z.pos (Qden x)) 10) by lia.
  replace (Qnum x * 100 * 10) with (z * Z.pos (Qden x)) by lia.
  replace (Z.pos (Qden x) * 10) with (10 * Z.pos (Qden x)) by ring.
  apply div_half_even_scale; lia.
Qed.

Lemma reference_term (key : field) (v : Z) :
  -1 <= v <= 100 ->
  (Reference.normalized v * Reference.weight key == term_thousandths key v # 1000)%Q.
Proof.
  intros Hv. unfold Reference.normalized, term_thousandths, normalized_hundredths.
  rewrite !Z.geb_leb.
  destruct (Z.leb_spec v 2) as [H2|H2]; [|destruct (Z.leb_spec 9 v) as [H9|H9]].
  - destruct key; unfold Qeq; simpl; lia.
  - destruct (Z.le_gt_cases 11 v) as [H11|H11].
    + rewrite Q.min_l by (unfold Qle; simpl; lia).
      rewrite Z.min_l by lia. destruct key; reflexivity.
    + rewrite Q.min_r by (unfold Qle; simpl; lia).
      rewrite Z.min_r by lia. destruct key; unfold Qeq; simpl; lia.
  - destruct key; unfold Qeq; simpl; lia.
Qed.

Lemma thousandths_add (z w : Z) : ((z # 1000) + (w # 1000) == (z + w) # 1000)%Q.
Proof. unfold Qeq, Qplus. simpl. lia. Qed.

Lemma reference_fold (b : ScoreBreakdown) (keys : list field) :
  in_window b ->
  forall (q : Q) (z : Z),
    (q == z # 1000)%Q ->
    (fold_left (fun acc key => acc + Reference.normalized (getattr b key)
                                     * Reference.weight key)%Q keys q
     == fold_left (fun z key => (z + term_thousandths key (getattr b key))%Z) keys z
        # 1000)%Q.
Proof.
  intros Hb. induction keys as [|key keys IH]; intros q z Hq; simpl; [exact Hq|].
  apply IH. rewrite Hq, (reference_term key _ (Hb key)). apply thousandths_add.
Qed.

Lemma reference_weighted_sum (b : ScoreBreakdown) :
  in_window b -> (Reference.weighted_sum b == sum_thousandths b # 1000)%Q.
Proof.
  intros Hb. unfold Reference.weighted_sum, sum_thousandths.
  apply reference_fold; [exact Hb | reflexivity].
Qed.

Lemma reference_clamp (x : Q) (z : Z) :
  (x == z # 1000)%Q -> (Reference.clamp x == clamp_thousandths z # 1000)%Q.
Proof.
  intros Hx. unfold Reference.clamp, clamp_thousandths.
  destruct (Z.le_gt_cases z 100000) as [Hhi|Hhi].
  - assert (H100 : (x <= 100)%Q) by (rewrite Hx; unfold Qle; simpl; lia).
    rewrite (Q.min_r 100 x H100), (Z.min_r 100000 z) by lia.
    destruct (Z.le_gt_cases 0 z) as [Hlo|Hlo].
    + assert (H0 : (0 <= x)%Q) by (rewrite Hx; unfold Qle; simpl; lia).
      rewrite (Q.max_r 0 x H0), Z.max_r by lia. exact Hx.
    + assert (H0 : (x <= 0)%Q) by (rewrite Hx; unfold Qle; simpl; lia).
      rewrite (Q.max_l 0 x H0), Z.max_l by lia. reflexivity.
  - assert (H100 : (100 <= x)%Q) by (rewrite Hx; unfold Qle; simpl; lia).
    rewrite (Q.min_l 100 x H100), (Z.min_l 100000 z) by lia.
    rewrite Q.max_r by (unfold Qle; simpl; lia). rewrite Z.max_r by lia. reflexivity.
Qed.

Lemma reference_aggregate_window (b : ScoreBreakdown) :
  in_window b ->
  Reference.aggregate b = Py.div_half_even (clamp_thousandths (sum_thousandths b)) 10.
Proof.
  intros Hb. unfold Reference.aggregate.
  apply reference_round2_thousandths. apply reference_clamp.
  apply reference_weighted_sum. exact Hb.
Qed.

Lemma get_overall_score_window (r : ReviewScoreSchema) :
  in_window (breakdown r) ->
  get_overall_score (Review r)
  = Py.Return (Some (Py.of_hundredths false (Reference.aggregate (breakdown r)))).
Proof.
  intros Hb. unfold get_overall_score, mbind, result_bind.
  rewrite (weighted_sum_window _ Hb). unfold Py.bind.
  destruct (window_checked _ Hb) as (Hround & _).
  rewrite Hround, (reference_aggregate_window _ Hb). reflexivity.
Qed.

(** *** Criteria in [0, 10] *)

Lemma valid_in_window (b : ScoreBreakdown) : valid_breakdown b -> in_window b.
Proof. intros Hb key. specialize (Hb key). lia. Qed.

Lemma weighted_sum_valid (b : ScoreBreakdown) :
  valid_breakdown b -> weighted_sum b = Py.Return (sum_of_terms b).
Proof. intros Hb. apply weighted_sum_window. apply valid_in_window. exact Hb. Qed.

Lemma term_thousandths_valid (key : field) (v : Z) :
  0 <= v <= 10 ->
  0 <= term_thousandths key v <= 980 * weight_tenths key /\
  (term_thousandths key v = 0 -> v = 0).
Proof.
  intros Hv. unfold term_thousandths, normalized_hundredths.
  rewrite !Z.geb_leb.
  destruct (Z.leb_spec v 2); [|destruct (Z.leb_spec 9 v)]; destruct key; simpl; lia.
Qed.

(** The exact sum of a breakdown with criteria in [0, 10] is from 0 to 98,
    and is 0 for the breakdown of zeros only. *)
Lemma valid_sum_bounds (b : ScoreBreakdown) :
  valid_breakdown b ->
  0 <= sum_thousandths b <= 98000 /\
  (sum_thousandths b = 0 -> forall key, getattr b key = 0).
Proof.
  intros Hb.
  pose proof (term_thousandths_valid Project _ (Hb Project)) as H1.
  pose proof (term_thousandths_valid Userbase _ (Hb Userbase)) as H2.
  pose proof (term_thousandths_valid Utility _ (Hb Utility)) as H3.
  pose proof (term_thousandths_valid Security _ (Hb Security)) as H4.
  pose proof (term_thousandths_valid Team _ (Hb Team)) as H5.
  pose proof (term_thousandths_valid Tokenomics _ (Hb Tokenomics)) as H6.
  pose proof (term_thousandths_valid Marketing _ (Hb Marketing)) as H7.
  pose proof (term_thousandths_valid Roadmap _ (Hb Roadmap)) as H8.
  pose proof (term_thousandths_valid Clarity _ (Hb Clarity)) as H9.
  pose proof (term_thousandths_valid Partnerships _ (Hb Partnerships)) as H10.
  unfold sum_thousandths. simpl fold_left. cbn [getattr weight_tenths] in *.
  split; [lia|]. intros Hz key. destruct key; cbn [getattr]; lia.
Qed.

(** The weighted sum of a breakdown with criteria in [0, 10]: it is in
    [0, 100], the clamp leaves it as it is, and rounded to two decimals it
    is the decimal nearest to its exact value. *)
Lemma valid_sum_spec (b : ScoreBreakdown) :
  valid_breakdown b ->
  in_range (sum_of_terms b) = true /\
  clamp_0_100 (sum_of_terms b) = sum_of_terms b /\
  0 <= sum_thousandths b <= 100000 /\
  Py.round2 (sum_of_terms b)
  = Py.of_hundredths false (Py.div_half_even (sum_thousandths b) 10).
Proof.
  intros Hb. destruct (valid_sum_bounds b Hb) as [Hz Hzero].
  destruct (window_checked b (valid_in_window b Hb)) as [Hround Hin].
  assert (Hclamp : clamp_thousandths (sum_thousandths b) = sum_thousandths b)
    by (unfold clamp_thousandths; lia).
  rewrite Hclamp in Hround.
  assert (Hsum : in_range (sum_of_terms b) = true /\
                 clamp_0_100 (sum_of_terms b) = sum_of_terms b).
  { destruct (Z.eq_dec (sum_thousandths b) 0) as [H0|H0].
    - assert (Hb0 : sum_of_terms b = sum_of_terms (uniform 0)).
      { unfold sum_of_terms. f_equal. apply map_ext. intros key.
        rewrite (Hzero H0 key). destruct key; reflexivity. }
      rewrite Hb0. split; vm_compute; reflexivity.
    - apply Hin. lia. }
  destruct Hsum as [Hrange Hid]. rewrite Hid in Hround.
  split_and!; [exact Hrange | exact Hid | lia | lia | exact Hround].
Qed.

Lemma reference_aggregate (b : ScoreBreakdown) :
  valid_breakdown b ->
  Reference.aggregate b = Py.div_half_even (sum_thousandths b) 10.
Proof.
  intros Hb. rewrite (reference_aggregate_window b (valid_in_window b Hb)).
  destruct (valid_sum_bounds b Hb) as [Hz _].
  unfold clamp_thousandths. f_equal. lia.
Qed.

Lemma get_overall_score_valid (r : ReviewScoreSchema) :
  valid_breakdown (breakdown r) ->
  get_overall_score (Review r)
  = Py.Return (Some (Py.of_hundredths false (Reference.aggregate (breakdown r)))).
Proof. intros Hb. apply get_overall_score_window. apply valid_in_window. exact Hb. Qed.

(** Claim C7. For every breakdown whose ten criteria lie in [0, 10]: the
    weights add up to exactly 10 (as binary64 values added in the order of
    the table, and as the decimals they are written as), the weighted sum of
    the normalized criteria is computed without an error and lies in [0, 100]
    before the clamp of line 58, the clamp returns it unchanged, and the
    score the aggregation returns is in [0, 100]. *)
Theorem valid_breakdown_needs_no_clamp (r : ReviewScoreSchema) :
  valid_breakdown (breakdown r) ->
  Py.sum (map weights model_fields) = 10%float /\
  (fold_right Qplus 0 (map Reference.weight model_fields) == 10)%Q /\
  exists x : float,
    weighted_sum (breakdown r) = Py.Return x /\
    in_range x = true /\
    clamp_0_100 x = x /\
    exists sc : float,
      get_overall_score (Review r) = Py.Return (Some sc) /\ in_range sc = true.
Proof.
  intros Hb.
  destruct (valid_sum_spec _ Hb) as (Hrange & Hclamp & _ & _).
  split; [vm_compute; reflexivity|].
  split; [vm_compute; reflexivity|].
  exists (sum_of_terms (breakdown r)). split_and!; auto using weighted_sum_valid.
  exists (Py.round2 (sum_of_terms (breakdown r))). split.
  - unfold get_overall_score, mbind, result_bind.
    rewrite (weighted_sum_valid _ Hb). unfold Py.bind. rewrite Hclamp. reflexivity.
  - apply round2_in_range. exact Hrange.
Qed.

Lemma valid_breakdown_needs_no_clamp_witness :
  valid_breakdown (uniform 10) /\
  exists x : float,
    weighted_sum (uniform 10) = Py.Return x /\ in_range x = true /\ clamp_0_100 x = x.
Proof.
  assert (Hv : valid_breakdown (uniform 10)) by (intros key; destruct key; simpl; lia).
  split; [exact Hv|].
  destruct (valid_breakdown_needs_no_clamp (mkReview "p" 0 (uniform 10)) Hv)
    as (_ & _ & x & Hsum & Hrange & Hclamp & _).
  exists x. split_and!; assumption.
Defined.





(** ** Further facts on forward

    What the response and the cache of one call, and of a sequence of calls,
    look like beyond the statements above. *)

Section ForwardBatch.

Context {World Product : Type}.
Variable fetch_product_data : ProductId -> World -> option Product * World.
Variable generate_review_score : Product -> World -> Py.result py_object * World.

#[local] Abbreviation store := (store World Product).

(** A list none of whose positions is filled is empty. *)
Lemma nil_of_no_elem {A : Type} (l : list A) : (forall x, x ∉ l) -> l = [].
Proof.
  destruct l as [|x l]; [reflexivity|]. intros Hno.
  exfalso. apply (Hno x). apply list_elem_of_here.
Qed.

(** The first-wave tag of a slot carries the id at that position. *)
Lemma served_tag_id (cache0 : gmap ProductId float) (query : list ProductId)
      (response : list (option float)) (s : store) (k i : nat) (id id' : ProductId) :
  served fetch_product_data generate_review_score cache0 query response s ->
  query !! i = Some id -> product_ids s !! k = Some (i, id') -> id' = id.
Proof.
  intros Hs Hq Hk. destruct (sv_ids _ _ _ _ _ _ Hs k i id' Hk) as (Hq' & _). congruence.
Qed.

(** The slot of a cache write holds the score written. *)
Lemma served_write_response (cache0 : gmap ProductId float) (query : list ProductId)
      (response : list (option float)) (s : store) (i : nat) (id : ProductId) (sc : float) :
  served fetch_product_data generate_review_score cache0 query response s ->
  (i, id, sc) ∈ writes (trace s) ->
  query !! i = Some id /\ cache0 !! id = None /\ response !! i = Some (Some sc).
Proof.
  intros Hs Hw.
  destruct (served_write_tag _ _ _ _ _ _ _ _ _ Hs Hw) as [k Hk].
  destruct (sv_ids _ _ _ _ _ _ Hs k i id Hk) as (Hq & Hc & _).
  split; [exact Hq|]. split; [exact Hc|].
  pose proof (sv_slot _ _ _ _ _ _ Hs i id Hq) as Hslot.
  destruct (sv_writes _ _ _ _ _ _ Hs i id sc Hw)
    as [(k1 & r & Hk1 & Hr & Hsc) | (k' & k1 & rr & Hk' & Hrr & ->)].
  - assert (k1 = k) as -> by (eapply served_one_tag; eauto).
    inversion Hslot as [c Hc' | Hc' Hno Hf | k0 r0 sc0 Hc' Hk0 Hr0 Hsc0 Hw0
                        | k0 r0 Hc' Hk0 Hr0 Hn Hnoidx Hf
                        | k0 r0 k0' rr0 Hc' Hk0 Hr0 Hn Hk0' Hrr0 Hw0].
    + congruence.
    + exfalso. eapply Hno. exact Hk.
    + assert (k0 = k) as -> by (eapply served_one_tag; eauto). congruence.
    + assert (k0 = k) as -> by (eapply served_one_tag; eauto). congruence.
    + assert (k0 = k) as -> by (eapply served_one_tag; eauto). congruence.
  - destruct (sv_retry _ _ _ _ _ _ Hs k' i id k1 Hk') as (Hk1 & (r & Hr & Hn1) & _).
    assert (k1 = k) as -> by (eapply served_one_tag; eauto).
    inversion Hslot as [c Hc' | Hc' Hno Hf | k0 r0 sc0 Hc' Hk0 Hr0 Hsc0 Hw0
                        | k0 r0 Hc' Hk0 Hr0 Hn Hnoidx Hf
                        | k0 r0 k0' rr0 Hc' Hk0 Hr0 Hn Hk0' Hrr0 Hw0].
    + congruence.
    + exfalso. eapply Hno. exact Hk.
    + assert (k0 = k) as -> by (eapply served_one_tag; eauto). congruence.
    + assert (k0 = k) as -> by (eapply served_one_tag; eauto).
      exfalso. eapply Hnoidx. exact Hk'.
    + assert (k0 = k) as -> by (eapply served_one_tag; eauto).
      assert (k0' = k') as -> by (eapply served_one_retry; eauto).
      congruence.
Qed.

(** An absent slot is a slot one of whose lookups found nothing. *)
Lemma served_absent (cache0 : gmap ProductId float) (query : list ProductId)
      (response : list (option float)) (s : store) (i : nat) (id : ProductId) :
  served fetch_product_data generate_review_score cache0 query response s ->
  query !! i = Some id ->
  (response !! i = Some None <->
   (i, id, false) ∈ fetched FirstWave (trace s) \/
   (i, id, false) ∈ fetched RetryWave (trace s)).
Proof.
  intros Hs Hq. pose proof (sv_slot _ _ _ _ _ _ Hs i id Hq) as Hslot. split.
  - intros Hnone. rewrite Hnone in Hslot.
    inversion Hslot as [ | Hc' Hno Hf | | k0 r0 Hc' Hk0 Hr0 Hn Hnoidx Hf | ]; auto.
  - intros [Hf | Hf].
    + destruct (sv_fetch1 _ _ _ _ _ _ Hs i id false Hf) as (_ & Hc & Hb).
      assert (Hnotag : forall k, product_ids s !! k <> Some (i, id)).
      { intros k Hk. assert (false = true) by (apply Hb; eauto). discriminate. }
      inversion Hslot as [c Hc' | Hc' Hno Hf' | k0 r0 sc0 Hc' Hk0 Hr0 Hsc0 Hw0
                          | k0 r0 Hc' Hk0 Hr0 Hn Hnoidx Hf'
                          | k0 r0 k0' rr0 Hc' Hk0 Hr0 Hn Hk0' Hrr0 Hw0];
        try reflexivity; try congruence; exfalso; eapply Hnotag; eauto.
    + destruct (sv_fetch2 _ _ _ _ _ _ Hs i id false Hf) as (k & r & Hk & Hr & Hn1 & Hb).
      destruct (sv_ids _ _ _ _ _ _ Hs k i id Hk) as (_ & Hc & _).
      assert (Hnoretry : forall k', retry_indices s !! k' <> Some (i, id, k)).
      { intros k' Hk'. assert (false = true) by (apply Hb; eauto). discriminate. }
      inversion Hslot as [c Hc' | Hc' Hno Hf' | k0 r0 sc0 Hc' Hk0 Hr0 Hsc0 Hw0
                          | k0 r0 Hc' Hk0 Hr0 Hn Hnoidx Hf'
                          | k0 r0 k0' rr0 Hc' Hk0 Hr0 Hn Hk0' Hrr0 Hw0];
        try reflexivity; try congruence.
      * assert (k0 = k) as -> by (eapply served_one_tag; eauto). congruence.
      * assert (k0 = k) as -> by (eapply served_one_tag; eauto).
        exfalso. eapply Hnoretry. exact Hk0'.
Qed.

(** X1: the response marks a slot absent exactly when a lookup made for it, at
    partition time or when its retry was queued, found nothing: a failure
    of the oracle never shows as an absent slot, and a lookup that found
    nothing never shows as a score. *)
Theorem absent_iff_lookup_found_nothing (sched1 sched2 : list nat)
        (query : list ProductId) (s0 : store) :
  exists response s,
    forward fetch_product_data generate_review_score sched1 sched2 query s0
    = (Py.Return response, s) /\
    forall i id, query !! i = Some id ->
      (response !! i = Some None <->
       (i, id, false) ∈ fetched FirstWave (trace s) \/
       (i, id, false) ∈ fetched RetryWave (trace s)).
Proof.
  destruct (forward_spec fetch_product_data generate_review_score sched1 sched2 query s0)
    as (response & s & Hrun & Hs).
  exists response, s. split; [exact Hrun|].
  intros i id Hq. eapply served_absent; eauto.
Qed.

(** X2: a slot whose first attempt was turned down and whose retry lookup
    (lines 111, 124, 135) finds nothing: the product had been found at
    partition time and its oracle call was made, yet the slot stays absent;
    no retry coroutine is created for it, nothing is written into the cache
    for it, and it does not get the fallback score. *)
Theorem retry_lookup_absent_no_fallback (sched1 sched2 : list nat)
        (query : list ProductId) (s0 : store) :
  exists response s,
    forward fetch_product_data generate_review_score sched1 sched2 query s0
    = (Py.Return response, s) /\
    forall i id, (i, id, false) ∈ fetched RetryWave (trace s) ->
      query !! i = Some id /\
      (i, id, true) ∈ fetched FirstWave (trace s) /\
      (i, id) ∈ dispatched FirstWave (trace s) /\
      (exists k r, product_ids s !! k = Some (i, id) /\ results s !! k = Some r /\
                   first_wave_score r = None) /\
      response !! i = Some None /\
      (forall id', (i, id') ∉ dispatched RetryWave (trace s)) /\
      (forall id' sc, (i, id', sc) ∉ writes (trace s)).
Proof.
  destruct (forward_spec fetch_product_data generate_review_score sched1 sched2 query s0)
    as (response & s & Hrun & Hs).
  exists response, s. split; [exact Hrun|]. intros i id Hf.
  destruct (sv_fetch2 _ _ _ _ _ _ Hs i id false Hf) as (k & r & Hk & Hr & Hn & Hb).
  destruct (sv_ids _ _ _ _ _ _ Hs k i id Hk) as (Hq & Hc & _).
  assert (Hnone : response !! i = Some None).
  { apply (served_absent _ _ _ _ _ _ Hs Hq). right. exact Hf. }
  split_and!.
  - exact Hq.
  - eapply sv_found1; eauto.
  - rewrite (sv_disp1 _ _ _ _ _ _ Hs). eapply list_elem_of_lookup_2. exact Hk.
  - eauto.
  - exact Hnone.
  - intros id' Hd. rewrite (sv_disp2 _ _ _ _ _ _ Hs) in Hd.
    apply list_elem_of_fmap in Hd as ([[i' id''] k0] & Heq & Hd).
    simpl in Heq. injection Heq as <- <-. apply list_elem_of_lookup in Hd as [k' Hk'].
    destruct (sv_retry _ _ _ _ _ _ Hs k' i id' k0 Hk') as (Hk0 & _).
    assert (id' = id) as -> by (eapply served_tag_id; eauto).
    assert (k0 = k) as -> by (eapply served_one_tag; eauto).
    assert (false = true) by (apply Hb; eauto). discriminate.
  - intros id' sc Hw.
    destruct (served_write_response _ _ _ _ _ _ _ Hs Hw) as (_ & _ & Hresp). congruence.
Qed.

(** X3: a call all of whose ids are cached or unknown to the lookup service has
    nothing to score (the early return of lines 93-96): every slot holds the
    cached score of its id, or is absent; no oracle call, no retry lookup and
    no cache write is made, and the cache is as it was. *)
Theorem nothing_to_score_returns_cache (sched1 sched2 : list nat)
        (query : list ProductId) (s0 : store) :
  (forall id, id ∈ query -> miner_preds s0 !! id = None ->
              forall w, (fetch_product_data id w).1 = None) ->
  exists response s,
    forward fetch_product_data generate_review_score sched1 sched2 query s0
    = (Py.Return response, s) /\
    (forall i id, query !! i = Some id -> response !! i = Some (miner_preds s0 !! id)) /\
    invoked (trace s) = [] /\
    (forall wv, dispatched wv (trace s) = []) /\
    fetched RetryWave (trace s) = [] /\
    writes (trace s) = [] /\
    miner_preds s = miner_preds s0.
Proof.
  intros Hnone.
  destruct (forward_spec fetch_product_data generate_review_score sched1 sched2 query s0)
    as (response & s & Hrun & Hs).
  exists response, s. split; [exact Hrun|].
  assert (Hnotag : forall k i id, product_ids s !! k <> Some (i, id)).
  { intros k i id Hk.
    destruct (sv_ids _ _ _ _ _ _ Hs k i id Hk) as (Hq & Hc & p & w & _ & _ & _ & Hp & _).
    rewrite (Hnone id) in Hp; [discriminate | | exact Hc].
    eapply list_elem_of_lookup_2. exact Hq. }
  assert (Hids : product_ids s = []).
  { apply nil_of_no_elem. intros [i id] Hin. apply list_elem_of_lookup in Hin as [k Hk].
    eapply Hnotag. exact Hk. }
  assert (Hretry : retry_indices s = []).
  { apply nil_of_no_elem. intros [[i id] k] Hin. apply list_elem_of_lookup in Hin as [k' Hk'].
    destruct (sv_retry _ _ _ _ _ _ Hs k' i id k Hk') as (Hk & _). eapply Hnotag. exact Hk. }
  assert (Hwrites : writes (trace s) = []).
  { apply nil_of_no_elem. intros [[i id] sc] Hin.
    destruct (served_write_tag _ _ _ _ _ _ _ _ _ Hs Hin) as [k Hk]. eapply Hnotag. exact Hk. }
  split_and!.
  - intros i id Hq. pose proof (sv_slot _ _ _ _ _ _ Hs i id Hq) as Hslot.
    inversion Hslot as [c Hc' | Hc' Hno Hf | k0 r0 sc0 Hc' Hk0 Hr0 Hsc0 Hw0
                        | k0 r0 Hc' Hk0 Hr0 Hn Hnoidx Hf
                        | k0 r0 k0' rr0 Hc' Hk0 Hr0 Hn Hk0' Hrr0 Hw0];
      try (exfalso; eapply Hnotag; exact Hk0).
    + rewrite Hc'. reflexivity.
    + rewrite Hc'. reflexivity.
  - destruct (sv_invoked _ _ _ _ _ _ Hs) as (js1 & js2 & Hinv & Hp1 & Hp2).
    rewrite (sv_tasks_len _ _ _ _ _ _ Hs), Hids in Hp1.
    rewrite (sv_retry_len _ _ _ _ _ _ Hs), Hretry in Hp2. simpl in Hp1, Hp2.
    apply Permutation_nil_r in Hp1, Hp2. subst js1 js2. exact Hinv.
  - intros [].
    + rewrite (sv_disp1 _ _ _ _ _ _ Hs). exact Hids.
    + rewrite (sv_disp2 _ _ _ _ _ _ Hs), Hretry. reflexivity.
  - apply nil_of_no_elem. intros [[i id] b] Hin.
    destruct (sv_fetch2 _ _ _ _ _ _ Hs i id b Hin) as (k & r & Hk & _).
    eapply Hnotag. exact Hk.
  - exact Hwrites.
  - rewrite (sv_cache _ _ _ _ _ _ Hs), Hwrites. reflexivity.
Qed.

(** In a list of tags in increasing order of a key below [n] there are at
    most [n] tags. *)
Lemma increasing_length {A : Type} (f : A -> nat) (l : list A) (n : nat) :
  increasing f l -> (forall k x, l !! k = Some x -> (f x < n)%nat) -> (length l <= n)%nat.
Proof.
  intros Hinc Hlt.
  assert (Hidx : forall k x, l !! k = Some x -> (k <= f x)%nat).
  { induction k as [|k IH]; intros x Hk; [lia|].
    assert (Hk' : is_Some (l !! k)).
    { apply lookup_lt_is_Some. apply lookup_lt_Some in Hk. lia. }
    destruct Hk' as [y Hy].
    pose proof (Hinc k (S k) y x ltac:(lia) Hy Hk). specialize (IH y Hy). lia. }
  destruct (decide (length l <= n)%nat) as [Hle|Hgt]; [exact Hle|].
  assert (Hlast : is_Some (l !! n)) by (apply lookup_lt_is_Some; lia).
  destruct Hlast as [x Hx]. specialize (Hidx n x Hx). specialize (Hlt n x Hx). lia.
Qed.

(** X4: the oracle is called once for every coroutine created, and no more:
    at most one first attempt per position of the batch and at most one
    retry per first attempt, hence at most twice the length of the batch. *)
Theorem oracle_calls_bounded_by_batch (sched1 sched2 : list nat)
        (query : list ProductId) (s0 : store) :
  exists response s,
    forward fetch_product_data generate_review_score sched1 sched2 query s0
    = (Py.Return response, s) /\
    length (invoked (trace s))
    = (length (dispatched FirstWave (trace s)) + length (dispatched RetryWave (trace s)))%nat /\
    (length (dispatched RetryWave (trace s)) <= length (dispatched FirstWave (trace s)))%nat /\
    (length (dispatched FirstWave (trace s)) <= length query)%nat /\
    (length (invoked (trace s)) <= 2 * length query)%nat.
Proof.
  destruct (forward_spec fetch_product_data generate_review_score sched1 sched2 query s0)
    as (response & s & Hrun & Hs).
  exists response, s. split; [exact Hrun|].
  rewrite (sv_disp1 _ _ _ _ _ _ Hs), (sv_disp2 _ _ _ _ _ _ Hs), length_fmap.
  assert (Hcalls : length (invoked (trace s))
                   = (length (product_ids s) + length (retry_indices s))%nat).
  { destruct (sv_invoked _ _ _ _ _ _ Hs) as (js1 & js2 & -> & Hp1 & Hp2).
    rewrite length_app, Hp1, Hp2, !length_seq.
    rewrite (sv_tasks_len _ _ _ _ _ _ Hs), (sv_retry_len _ _ _ _ _ _ Hs). reflexivity. }
  assert (Hretry : (length (retry_indices s) <= length (product_ids s))%nat).
  { apply (increasing_length snd); [apply (sv_retry_sorted _ _ _ _ _ _ Hs)|].
    intros k' [[i id] k] Hk'. simpl.
    destruct (sv_retry _ _ _ _ _ _ Hs k' i id k Hk') as (Hk & _).
    eapply lookup_lt_Some. exact Hk. }
  assert (Hfirst : (length (product_ids s) <= length query)%nat).
  { apply (increasing_length fst); [apply (sv_ids_sorted _ _ _ _ _ _ Hs)|].
    intros k [i id] Hk. simpl.
    destruct (sv_ids _ _ _ _ _ _ Hs k i id Hk) as (Hq & _).
    eapply lookup_lt_Some. exact Hq. }
  split_and!; [exact Hcalls | exact Hretry | exact Hfirst | lia].
Qed.

(** A product id that was cached when the call began is answered with its
    score and keeps its entry. *)
Lemma served_cached (cache0 : gmap ProductId float) (query : list ProductId)
      (response : list (option float)) (s : store) (id : ProductId) (c : float) :
  served fetch_product_data generate_review_score cache0 query response s ->
  cache0 !! id = Some c ->
  miner_preds s !! id = Some c /\
  (forall i, query !! i = Some id -> response !! i = Some (Some c)) /\
  (forall wv i b, (i, id, b) ∉ fetched wv (trace s)) /\
  (forall wv i, (i, id) ∉ dispatched wv (trace s)).
Proof.
  intros Hs Hc.
  assert (Hnotag : forall k i, product_ids s !! k <> Some (i, id)).
  { intros k i Hk. destruct (sv_ids _ _ _ _ _ _ Hs k i id Hk) as (_ & Hc' & _). congruence. }
  split_and!.
  - rewrite (sv_cache _ _ _ _ _ _ Hs), replay_lookup_other; [exact Hc|].
    intros i sc Hw. destruct (served_write_response _ _ _ _ _ _ _ Hs Hw) as (_ & Hc' & _).
    congruence.
  - intros i Hq. pose proof (sv_slot _ _ _ _ _ _ Hs i id Hq) as Hslot.
    inversion Hslot as [c' Hc' | Hc' Hno Hf | k0 r0 sc0 Hc' Hk0 Hr0 Hsc0 Hw0
                        | k0 r0 Hc' Hk0 Hr0 Hn Hnoidx Hf
                        | k0 r0 k0' rr0 Hc' Hk0 Hr0 Hn Hk0' Hrr0 Hw0]; congruence.
  - intros [] i b Hf.
    + destruct (sv_fetch1 _ _ _ _ _ _ Hs i id b Hf) as (_ & Hc' & _). congruence.
    + destruct (sv_fetch2 _ _ _ _ _ _ Hs i id b Hf) as (k & r & Hk & _).
      eapply Hnotag. exact Hk.
  - intros [] i Hd.
    + rewrite (sv_disp1 _ _ _ _ _ _ Hs) in Hd. apply list_elem_of_lookup in Hd as [k Hk].
      eapply Hnotag. exact Hk.
    + rewrite (sv_disp2 _ _ _ _ _ _ Hs) in Hd.
      apply list_elem_of_fmap in Hd as ([[i' id'] k] & Heq & Hd).
      simpl in Heq. injection Heq as <- <-. apply list_elem_of_lookup in Hd as [k' Hk'].
      destruct (sv_retry _ _ _ _ _ _ Hs k' i id k Hk') as (Hk & _). eapply Hnotag. exact Hk.
Qed.

(** What the cache holds, after the call, for the id of a position that is
    the only one with that id: the score of the slot, or nothing when the
    slot is absent. *)
Lemma served_unique_slot (cache0 : gmap ProductId float) (query : list ProductId)
      (response : list (option float)) (s : store) (i : nat) (id : ProductId) :
  served fetch_product_data generate_review_score cache0 query response s ->
  query !! i = Some id ->
  (forall j, query !! j = Some id -> j = i) ->
  exists v, response !! i = Some v /\ miner_preds s !! id = v.
Proof.
  intros Hs Hq Honly.
  assert (Hsame : forall j sc, (j, id, sc) ∈ writes (trace s) -> response !! i = Some (Some sc)).
  { intros j sc Hw. destruct (served_write_response _ _ _ _ _ _ _ Hs Hw) as (Hqj & _ & Hresp).
    apply Honly in Hqj. subst j. exact Hresp. }
  pose proof (sv_slot _ _ _ _ _ _ Hs i id Hq) as Hslot.
  destruct (response !! i) as [v|] eqn:Hresp; [|inversion Hslot].
  exists v. split; [reflexivity|]. rewrite (sv_cache _ _ _ _ _ _ Hs).
  inversion Hslot as [c' Hc' | Hc' Hno Hf | k0 r0 sc0 Hc' Hk0 Hr0 Hsc0 Hw0
                      | k0 r0 Hc' Hk0 Hr0 Hn Hnoidx Hf
                      | k0 r0 k0' rr0 Hc' Hk0 Hr0 Hn Hk0' Hrr0 Hw0]; subst v.
  - rewrite replay_lookup_other; [exact Hc'|].
    intros j sc Hw. specialize (Hsame j sc Hw). 
    destruct (served_write_response _ _ _ _ _ _ _ Hs Hw) as (_ & Hc'' & _). congruence.
  - rewrite replay_lookup_other; [exact Hc'|].
    intros j sc Hw. specialize (Hsame j sc Hw). discriminate.
  - apply replay_lookup_same; [eauto|].
    intros j sc' Hw. specialize (Hsame j sc' Hw). congruence.
  - rewrite replay_lookup_other; [exact Hc'|].
    intros j sc Hw. specialize (Hsame j sc Hw). discriminate.
  - apply replay_lookup_same; [eauto|].
    intros j sc' Hw. specialize (Hsame j sc' Hw). congruence.
Qed.

(** X5: the cache and the response of a call agree: an entry of the cache after
    the call is an entry from before the call or the score of a slot holding
    that id; and when an id occurs at one position only, the cache holds for
    it what the slot holds, a score or, for an absent slot, nothing. *)
Theorem cache_agrees_with_response (sched1 sched2 : list nat)
        (query : list ProductId) (s0 : store) :
  exists response s,
    forward fetch_product_data generate_review_score sched1 sched2 query s0
    = (Py.Return response, s) /\
    (forall id c, miner_preds s !! id = Some c ->
       miner_preds s0 !! id = Some c \/
       exists i, query !! i = Some id /\ response !! i = Some (Some c)) /\
    (forall i id, query !! i = Some id ->
       (forall j, query !! j = Some id -> j = i) ->
       response !! i = Some (miner_preds s !! id)).
Proof.
  destruct (forward_spec fetch_product_data generate_review_score sched1 sched2 query s0)
    as (response & s & Hrun & Hs).
  exists response, s. split; [exact Hrun|]. split.
  - intros id c Hc. rewrite (sv_cache _ _ _ _ _ _ Hs) in Hc.
    apply replay_lookup_inv in Hc as [Hc | [i Hw]]; [left; exact Hc|].
    right. exists i. destruct (served_write_response _ _ _ _ _ _ _ Hs Hw) as (Hq & _ & Hr).
    auto.
  - intros i id Hq Honly.
    destruct (served_unique_slot _ _ _ _ _ _ Hs Hq Honly) as (v & Hv & Hc). congruence.
Qed.

(** The answers of a sequence of requests, one per request. *)
Lemma serve_length (requests : list (list nat * list nat * list ProductId)) (s0 : store) :
  length (serve fetch_product_data generate_review_score requests s0).1 = length requests.
Proof.
  revert s0. induction requests as [|[[sched1 sched2] query] requests IH]; intros s0; simpl;
    [reflexivity|].
  destruct (forward fetch_product_data generate_review_score sched1 sched2 query s0)
    as [response s].
  specialize (IH s).
  destruct (serve fetch_product_data generate_review_score requests s) as [responses s'].
  simpl in *. rewrite IH. reflexivity.
Qed.

(** Serving one sequence of requests after another. *)
Lemma serve_app (before after : list (list nat * list nat * list ProductId)) (s0 : store) :
  serve fetch_product_data generate_review_score (before ++ after) s0
  = let '(answers1, s1) := serve fetch_product_data generate_review_score before s0 in
    let '(answers2, s2) := serve fetch_product_data generate_review_score after s1 in
    (answers1 ++ answers2, s2).
Proof.
  revert s0. induction before as [|[[sched1 sched2] query] before IH]; intros s0; simpl.
  - destruct (serve fetch_product_data generate_review_score after s0). reflexivity.
  - destruct (forward fetch_product_data generate_review_score sched1 sched2 query s0)
      as [response s].
    rewrite IH.
    destruct (serve fetch_product_data generate_review_score before s) as [answers1 s1].
    destruct (serve fetch_product_data generate_review_score after s1) as [answers2 s2].
    reflexivity.
Qed.

(** A score that is in the cache when a sequence of requests begins is
    there when it ends, and is the answer for its id all along. *)
Lemma serve_keeps_cached (requests : list (list nat * list nat * list ProductId))
      (s0 : store) (id : ProductId) (c : float) :
  miner_preds s0 !! id = Some c ->
  miner_preds (serve fetch_product_data generate_review_score requests s0).2 !! id = Some c /\
  Forall2 (fun (request : list nat * list nat * list ProductId) answer =>
             exists response,
               answer = Py.Return response /\
               forall i, request.2 !! i = Some id -> response !! i = Some (Some c))
          requests (serve fetch_product_data generate_review_score requests s0).1.
Proof.
  revert s0. induction requests as [|[[sched1 sched2] query] requests IH]; intros s0 Hc; simpl.
  - split; [exact Hc | constructor].
  - destruct (forward_spec fetch_product_data generate_review_score sched1 sched2 query s0)
      as (response & s & Hrun & Hs).
    rewrite Hrun.
    destruct (served_cached _ _ _ _ _ _ Hs Hc) as (Hc' & Hresp & _).
    specialize (IH s Hc').
    destruct (serve fetch_product_data generate_review_score requests s)
      as [responses s'] eqn:Hserve.
    simpl in *. destruct IH as [IH1 IH2]. split; [exact IH1|].
    constructor; [|exact IH2]. exists response. auto.
Qed.

(** X6: in a process that serves its requests one after the other, a score
    that is in the cache when a call of forward has returned stays: whatever
    requests were served before and whatever requests follow, each of the
    following requests answers that id with that score, at each of its
    positions, and the entry is the same after the last of them. (Writes
    inside the call that made the entry are not meant: see X5.) *)
Theorem cached_score_is_permanent
        (before after : list (list nat * list nat * list ProductId)) (s0 : store)
        (id : ProductId) (c : float) :
  miner_preds (serve fetch_product_data generate_review_score before s0).2 !! id = Some c ->
  miner_preds (serve fetch_product_data generate_review_score (before ++ after) s0).2 !! id
  = Some c /\
  Forall2 (fun (request : list nat * list nat * list ProductId) answer =>
             exists response,
               answer = Py.Return response /\
               forall i, request.2 !! i = Some id -> response !! i = Some (Some c))
          after
          (drop (length before)
                (serve fetch_product_data generate_review_score (before ++ after) s0).1).
Proof.
  intros Hc. rewrite serve_app.
  pose proof (serve_length before s0) as Hlen.
  destruct (serve fetch_product_data generate_review_score before s0) as [answers1 s1].
  simpl in Hc, Hlen.
  destruct (serve_keeps_cached after s1 id c Hc) as [Hcache Hanswers].
  destruct (serve fetch_product_data generate_review_score after s1) as [answers2 s2].
  simpl in *. split; [exact Hcache|].
  rewrite <- Hlen, drop_app_length. exact Hanswers.
Qed.

(** X7: the same batch of distinct ids, requested twice: a slot that held a
    score the first time holds the same score the second time, and the
    second call makes no lookup and creates no oracle coroutine for its id;
    a slot that was absent the first time is looked up again, a result of
    "not found" not being cached. *)
Theorem repeated_batch_is_answered_from_cache (sched1 sched2 sched3 sched4 : list nat)
        (query : list ProductId) (s0 : store) :
  NoDup query ->
  exists response1 response2 s,
    serve fetch_product_data generate_review_score
          [(sched1, sched2, query); (sched3, sched4, query)] s0
    = ([Py.Return response1; Py.Return response2], s) /\
    (forall i id sc, query !! i = Some id -> response1 !! i = Some (Some sc) ->
       response2 !! i = Some (Some sc) /\
       (forall wv j b, (j, id, b) ∉ fetched wv (trace s)) /\
       (forall wv j, (j, id) ∉ dispatched wv (trace s))) /\
    (forall i id, query !! i = Some id -> response1 !! i = Some None ->
       exists b, (i, id, b) ∈ fetched FirstWave (trace s)).
Proof.
  intros Hnd.
  assert (Honly : forall i j id, query !! i = Some id -> query !! j = Some id -> j = i).
  { intros i j id Hi Hj. eapply NoDup_lookup; eauto. }
  simpl.
  destruct (forward_spec fetch_product_data generate_review_score sched1 sched2 query s0)
    as (response1 & s1 & Hrun1 & Hs1).
  rewrite Hrun1.
  destruct (forward_spec fetch_product_data generate_review_score sched3 sched4 query s1)
    as (response2 & s & Hrun2 & Hs2).
  rewrite Hrun2. exists response1, response2, s. split; [reflexivity|]. split.
  - intros i id sc Hq Hr1.
    destruct (served_unique_slot _ _ _ _ _ _ Hs1 Hq (fun j => Honly i j id Hq))
      as (v & Hv & Hc).
    assert (v = Some sc) as -> by congruence.
    destruct (served_cached _ _ _ _ _ _ Hs2 Hc) as (_ & Hresp & Hf & Hd). auto.
  - intros i id Hq Hr1.
    destruct (served_unique_slot _ _ _ _ _ _ Hs1 Hq (fun j => Honly i j id Hq))
      as (v & Hv & Hc).
    assert (v = None) as -> by congruence.
    pose proof (sv_slot _ _ _ _ _ _ Hs2 i id Hq) as Hslot.
    inversion Hslot as [c' Hc' | Hc' Hno Hf | k0 r0 sc0 Hc' Hk0 Hr0 Hsc0 Hw0
                        | k0 r0 Hc' Hk0 Hr0 Hn Hnoidx Hf
                        | k0 r0 k0' rr0 Hc' Hk0 Hr0 Hn Hk0' Hrr0 Hw0].
    + congruence.
    + exists false. exact Hf.
    + exists true. eapply sv_found1; eauto.
    + exists true. eapply sv_found1; eauto.
    + exists true. eapply sv_found1; eauto.
Qed.

End ForwardBatch.

(** *** The facts above on scripted runs *)

(** On the batch ["A"; "B"; "C"] the lookup finds nothing for "B", whose
    slot is absent. *)
Lemma absent_iff_lookup_found_nothing_witness :
  let cache : gmap ProductId float := {["A" := 42%float]} in
  let w : script := ([false; true], [Py.Return (review_of (uniform 7))]) in
  let out := run [] [] ["A"; "B"; "C"] cache w in
  (1%nat, "B", false) ∈ fetched FirstWave (trace out.2) /\
  exists response, out.1 = Py.Return response /\ response !! 1%nat = Some None.
Proof.
  intros cache w out.
  assert (Hin : (1%nat, "B", false) ∈ fetched FirstWave (trace out.2)).
  { vm_compute. apply list_elem_of_here. }
  split; [exact Hin|].
  destruct (absent_iff_lookup_found_nothing scripted_fetch scripted_oracle [] []
              ["A"; "B"; "C"] (at_rest cache w)) as (response & s & Hrun & Hiff).
  fold (run [] [] ["A"; "B"; "C"] cache w) in Hrun. fold out in Hrun.
  assert (Hs : s = out.2) by (rewrite Hrun; reflexivity). subst s.
  exists response. split; [rewrite Hrun; reflexivity|].
  apply (Hiff 1%nat "B" eq_refl). left. exact Hin.
Defined.

(** On the batch ["D"] the product is found, the oracle fails, and the
    lookup of the retry finds nothing: the slot is absent and nothing is
    cached. *)
Lemma retry_lookup_absent_no_fallback_witness :
  let w : script := ([true; false], []) in
  let out := run [] [] ["D"] ∅ w in
  (0%nat, "D", false) ∈ fetched RetryWave (trace out.2) /\
  miner_preds out.2 !! "D" = None /\
  exists response,
    out.1 = Py.Return response /\
    response !! 0%nat = Some None /\
    (0%nat, "D") ∈ dispatched FirstWave (trace out.2).
Proof.
  intros w out.
  assert (Hin : (0%nat, "D", false) ∈ fetched RetryWave (trace out.2)).
  { vm_compute. apply list_elem_of_here. }
  split; [exact Hin|]. split; [vm_compute; reflexivity|].
  destruct (retry_lookup_absent_no_fallback scripted_fetch scripted_oracle [] []
              ["D"] (at_rest ∅ w)) as (response & s & Hrun & Hclaim).
  fold (run [] [] ["D"] ∅ w) in Hrun. fold out in Hrun.
  assert (Hs : s = out.2) by (rewrite Hrun; reflexivity). subst s.
  exists response. split; [rewrite Hrun; reflexivity|].
  destruct (Hclaim 0%nat "D" Hin) as (_ & _ & Hd & _ & Hresp & _). auto.
Defined.

(** A lookup service that knows no product. *)
Definition knows_nothing (id : ProductId) (w : script) : option ProductId * script :=
  (None, w).

(** On the batch ["A"; "B"] with "A" cached and "B" unknown, the response
    is the cached score and an absent slot, and the oracle is not called. *)
Lemma nothing_to_score_returns_cache_witness :
  let cache : gmap ProductId float := {["A" := 42%float]} in
  (forall id, id ∈ ["A"; "B"] -> cache !! id = None ->
              forall w, (knows_nothing id w).1 = None) /\
  exists response s,
    forward knows_nothing scripted_oracle [] [] ["A"; "B"] (at_rest cache ([], []))
    = (Py.Return response, s) /\
    response !! 0%nat = Some (Some 42%float) /\
    response !! 1%nat = Some None /\
    invoked (trace s) = [] /\
    miner_preds s = cache.
Proof.
  intros cache.
  assert (Hnone : forall id, id ∈ ["A"; "B"] -> cache !! id = None ->
                             forall w, (knows_nothing id w).1 = None).
  { intros id _ _ w. reflexivity. }
  split; [exact Hnone|].
  destruct (nothing_to_score_returns_cache knows_nothing scripted_oracle [] []
              ["A"; "B"] (at_rest cache ([], [])) Hnone)
    as (response & s & Hrun & Hresp & Hinv & _ & _ & _ & Hcache).
  exists response, s. split; [exact Hrun|].
  split; [rewrite (Hresp 0%nat "A" eq_refl); vm_compute; reflexivity|].
  split; [rewrite (Hresp 1%nat "B" eq_refl); vm_compute; reflexivity|].
  split; [exact Hinv | exact Hcache].
Defined.

(** On the batch ["A"; "B"; "C"], "C" occurs once and is scored 70.0, which
    is what the cache then holds for it. *)
Lemma cache_agrees_with_response_witness :
  let cache : gmap ProductId float := {["A" := 42%float]} in
  let w : script := ([false; true], [Py.Return (review_of (uniform 7))]) in
  let out := run [] [] ["A"; "B"; "C"] cache w in
  (forall j, ["A"; "B"; "C"] !! j = Some "C" -> j = 2%nat) /\
  miner_preds out.2 !! "C" = Some 70%float /\
  exists response, out.1 = Py.Return response /\ response !! 2%nat = Some (Some 70%float).
Proof.
  intros cache w out.
  assert (Honly : forall j, ["A"; "B"; "C"] !! j = Some "C" -> j = 2%nat).
  { intros [|[|[|j]]] Hj; simpl in Hj; try discriminate; reflexivity. }
  assert (Hc : miner_preds out.2 !! "C" = Some 70%float) by (vm_compute; reflexivity).
  split; [exact Honly|]. split; [exact Hc|].
  destruct (cache_agrees_with_response scripted_fetch scripted_oracle [] []
              ["A"; "B"; "C"] (at_rest cache w)) as (response & s & Hrun & _ & Hagree).
  fold (run [] [] ["A"; "B"; "C"] cache w) in Hrun. fold out in Hrun.
  assert (Hs : s = out.2) by (rewrite Hrun; reflexivity). subst s.
  exists response. split; [rewrite Hrun; reflexivity|].
  rewrite (Hagree 2%nat "C" eq_refl Honly). vm_compute. reflexivity.
Defined.

(** The oracle fails twice for "D", which gets the fallback 50.0; "D" is
    answered with 50.0 ever after, although the oracle would now score it. *)
Lemma cached_score_is_permanent_witness :
  let failure := Py.Raise (Py.Exception "Failed to generate review score") in
  let w : script := ([], [failure; failure; Py.Return (review_of (uniform 7))]) in
  let before := [([], [], ["D"])] in
  let after := [([], [], ["C"; "D"]); ([], [], ["D"])] in
  miner_preds (serve scripted_fetch scripted_oracle before (at_rest ∅ w)).2 !! "D"
  = Some fallback_score /\
  miner_preds (serve scripted_fetch scripted_oracle (before ++ after) (at_rest ∅ w)).2 !! "D"
  = Some fallback_score /\
  (serve scripted_fetch scripted_oracle (before ++ after) (at_rest ∅ w)).1
  = [Py.Return [Some 50%float]; Py.Return [Some 70%float; Some 50%float];
     Py.Return [Some 50%float]].
Proof.
  intros failure w before after.
  assert (Hc : miner_preds (serve scripted_fetch scripted_oracle before (at_rest ∅ w)).2 !! "D"
               = Some fallback_score) by (vm_compute; reflexivity).
  split; [exact Hc|]. split; [|vm_compute; reflexivity].
  apply (cached_score_is_permanent scripted_fetch scripted_oracle before after
           (at_rest ∅ w) "D" fallback_score Hc).
Defined.

(** The batch ["C"; "D"] requested twice: "C" is scored 70.0 by the first
    call and answered with 70.0 by the second. *)
Lemma repeated_batch_is_answered_from_cache_witness :
  let w : script := ([], [Py.Return (review_of (uniform 7));
                          Py.Return (review_of (uniform 5))]) in
  NoDup ["C"; "D"] /\
  exists response1 response2 s,
    serve scripted_fetch scripted_oracle [([], [], ["C"; "D"]); ([], [], ["C"; "D"])]
          (at_rest ∅ w)
    = ([Py.Return response1; Py.Return response2], s) /\
    response1 !! 0%nat = Some (Some 70%float) /\
    response2 !! 0%nat = Some (Some 70%float) /\
    trace s = [].
Proof.
  intros w.
  assert (Hnd : NoDup ["C"; "D"]).
  { apply NoDup_cons. split; [|apply NoDup_singleton].
    intros Hin. apply list_elem_of_singleton in Hin. discriminate. }
  split; [exact Hnd|].
  destruct (repeated_batch_is_answered_from_cache scripted_fetch scripted_oracle
              [] [] [] [] ["C"; "D"] (at_rest ∅ w) Hnd)
    as (response1 & response2 & s & Hrun & Hsame & _).
  exists response1, response2, s. split; [exact Hrun|].
  assert (Hval : response1 = [Some 70%float; Some 50%float] /\ trace s = []).
  { vm_compute in Hrun. injection Hrun as Hr1 Hr2 Hstore.
    split; [congruence | rewrite <- Hstore; reflexivity]. }
  destruct Hval as [Hr1 Htrace].
  assert (H1 : response1 !! 0%nat = Some (Some 70%float)) by (rewrite Hr1; reflexivity).
  split; [exact H1|]. split; [|exact Htrace].
  apply (Hsame 0%nat "C" 70%float eq_refl H1).
Defined.

(** ** Further facts on get_overall_score *)

(** [float(n)] raises nothing but [OverflowError]. *)
Lemma float_of_int_raises (v : Z) (e : Py.exn) :
  Py.float_of_int v = Py.Raise e -> e = Py.OverflowError /\ ~ fits_float v.
Proof.
  intros Hv. split.
  - unfold Py.float_of_int in Hv.
    destruct (binary_normalize prec emax v 0 false); congruence.
  - intros [f Hf]. congruence.
Qed.

Lemma normalized_score_raises (v : Z) (e : Py.exn) :
  normalized_score v = Py.Raise e -> e = Py.OverflowError /\ ~ fits_float v.
Proof.
  unfold normalized_score, Py.mul_int_float, mbind, result_bind, Py.bind.
  destruct (v <=? 2); [|destruct (v >=? 9)];
    destruct (Py.float_of_int v) as [f|e'] eqn:Hf; try discriminate;
    intros He; injection He as <-; apply float_of_int_raises; exact Hf.
Qed.

(** A loop that raises does so at one of its items; one that returns has
    gone through all of them. *)
Lemma for_each_raises {A B : Type} (f : A -> Py.result B) (l : list A) (e : Py.exn) :
  Py.for_each f l = Py.Raise e -> exists x, In x l /\ f x = Py.Raise e.
Proof.
  induction l as [|x l IH]; simpl; [discriminate|].
  destruct (f x) as [y|e'] eqn:Hx; simpl.
  - destruct (Py.for_each f l) as [ys|e'']; simpl; [discriminate|].
    intros He. destruct (IH He) as (x' & Hin & Hx'). eauto.
  - intros He. injection He as <-. eauto.
Qed.

Lemma for_each_returned {A B : Type} (f : A -> Py.result B) (l : list A) (ys : list B) :
  Py.for_each f l = Py.Return ys -> forall x, In x l -> exists y, f x = Py.Return y.
Proof.
  revert ys. induction l as [|x l IH]; simpl; intros ys Hys x' Hin; [contradiction|].
  destruct (f x) as [y|e] eqn:Hx; simpl in Hys; [|discriminate].
  destruct (Py.for_each f l) as [ys'|e] eqn:Hl; simpl in Hys; [|discriminate].
  destruct Hin as [<-|Hin]; [eauto | eapply IH; eauto].
Qed.

Lemma model_fields_all (key : field) : In key model_fields.
Proof. destruct key; simpl; tauto. Qed.

(** X8: the aggregation raises exactly when one of the ten criteria is an
    integer too large to convert to binary64, and what it raises then is
    [OverflowError], from the product of line 48 or line 50; it raises
    nothing else. *)
Theorem get_overall_score_raises_on_huge_criterion (r : ReviewScoreSchema) :
  ((exists key, ~ fits_float (getattr (breakdown r) key)) <->
   get_overall_score (Review r) = Py.Raise Py.OverflowError) /\
  (forall e, get_overall_score (Review r) = Py.Raise e -> e = Py.OverflowError).
Proof.
  assert (Hraise : forall e, get_overall_score (Review r) = Py.Raise e ->
                             e = Py.OverflowError /\
                             exists key, ~ fits_float (getattr (breakdown r) key)).
  { intros e He. unfold get_overall_score, weighted_sum, mbind, result_bind in He.
    destruct (Py.for_each _ model_fields) as [terms|e'] eqn:Hterms; simpl in He;
      [discriminate|].
    injection He as ->. apply for_each_raises in Hterms as (key & _ & Hkey).
    destruct (normalized_score (getattr (breakdown r) key)) as [n|e'] eqn:Hn;
      simpl in Hkey; [discriminate|].
    injection Hkey as ->. apply normalized_score_raises in Hn as [-> Hn]. eauto. }
  split; [split|].
  - intros [key Hkey].
    destruct (get_overall_score (Review r)) as [sc|e] eqn:Hsc.
    + exfalso. apply Hkey.
      unfold get_overall_score, weighted_sum, mbind, result_bind in Hsc.
      destruct (Py.for_each _ model_fields) as [terms|e'] eqn:Hterms; simpl in Hsc;
        [|discriminate].
      destruct (for_each_returned _ _ _ Hterms key (model_fields_all key)) as [y Hy].
      unfold normalized_score, Py.mul_int_float, mbind, result_bind, Py.bind in Hy.
      destruct (Py.float_of_int (getattr (breakdown r) key)) as [f|e'] eqn:Hf.
      * exists f. exact Hf.
      * destruct (getattr (breakdown r) key <=? 2);
          [|destruct (getattr (breakdown r) key >=? 9)]; discriminate.
    + destruct (Hraise e eq_refl) as [-> _]. reflexivity.
  - intros He. apply Hraise in He. tauto.
  - intros e He. apply Hraise in He. tauto.
Qed.

Lemma get_overall_score_raises_on_huge_criterion_witness :
  let b := mkBreakdown 5 5 5 5 5 5 5 5 5 (- 2 ^ 1024) in
  ~ fits_float (getattr b Partnerships) /\
  get_overall_score (review_of b) = Py.Raise Py.OverflowError.
Proof.
  intros b.
  assert (Hhuge : ~ fits_float (getattr b Partnerships)).
  { intros [f Hf]. vm_compute in Hf. discriminate. }
  split; [exact Hhuge|].
  apply (proj1 (get_overall_score_raises_on_huge_criterion (mkReview "p" 0 b))).
  exists Partnerships. exact Hhuge.
Defined.

(** X9: whatever the breakdown, a score the aggregation returns is on the grid
    of two decimals: it is the binary64 nearest to [n / 100] for a whole
    number [n] of hundredths from 0 to 10000. *)
Theorem get_overall_score_on_hundredths_grid (obj : py_object) (sc : float) :
  get_overall_score obj = Py.Return (Some sc) ->
  exists n : Z, 0 <= n <= 10000 /\ sc = Py.of_hundredths false n.
Proof.
  destruct obj as [r|]; simpl; [|discriminate].
  unfold mbind, result_bind.
  destruct (weighted_sum (breakdown r)) as [x|e]; simpl; [|discriminate].
  intros Hsc. injection Hsc as <-.
  pose proof (clamp_0_100_in_range x) as Hr.
  pose proof (clamp_0_100_cases x) as Hcases.
  set (y := clamp_0_100 x) in *. unfold Py.round2.
  destruct (Prim2SF y) as [s | s | | s m e] eqn:Hy.
  - exists 0. split; [lia|]. destruct Hcases as [-> | Hpos]; [reflexivity|].
    rewrite ltb_spec, Hy, Prim2SF_0 in Hpos. destruct s; discriminate.
  - exfalso. unfold in_range in Hr. apply andb_prop in Hr as [Hlo Hhi].
    rewrite leb_spec, Hy in Hlo, Hhi. rewrite Prim2SF_0 in Hlo. rewrite Prim2SF_100 in Hhi.
    destruct s; discriminate.
  - exfalso. unfold in_range in Hr. apply andb_prop in Hr as [Hlo _].
    rewrite leb_spec, Hy, Prim2SF_0 in Hlo. discriminate.
  - destruct (in_range_finite y s m e Hy Hr) as (-> & He & Hm).
    exists (Py.hundredths m e). split; [|reflexivity].
    unfold Py.hundredths.
    destruct (0 <=? e) eqn:He'; [apply Z.leb_le in He'; lia|].
    apply div_half_even_bounds; [lia | apply Z.pow_pos_nonneg; lia | exact Hm].
Qed.

Lemma get_overall_score_on_hundredths_grid_witness :
  let b := mkBreakdown 25 (-3) 5 5 5 5 5 5 5 11 in
  exists sc n,
    get_overall_score (review_of b) = Py.Return (Some sc) /\
    0 <= n <= 10000 /\ sc = Py.of_hundredths false n.
Proof.
  intros b.
  assert (Hsc : exists sc, get_overall_score (review_of b) = Py.Return (Some sc)).
  { eexists. vm_compute. reflexivity. }
  destruct Hsc as [sc Hsc].
  destruct (get_overall_score_on_hundredths_grid (review_of b) sc Hsc) as (n & Hn & Heq).
  exists sc, n. auto.
Defined.

(** *** The score grows with the criteria *)

(** The zero and the finite numbers above it. *)
Definition nonneg (x : spec_float) : bool :=
  match x with
  | S754_zero false | S754_finite false _ _ => true
  | _ => false
  end.

Lemma SFleb_finite_intro (m1 m2 : positive) (e1 e2 : Z) :
  e1 < e2 \/ (e1 = e2 /\ Z.pos m1 <= Z.pos m2) ->
  SFleb (S754_finite false m1 e1) (S754_finite false m2 e2) = true.
Proof.
  intros H. unfold SFleb, SFcompare.
  destruct (Z.compare_spec e1 e2) as [He|He|He]; [|reflexivity|exfalso; lia].
  rewrite Pos.compare_cont_spec.
  destruct (Pos.compare_spec m1 m2) as [Hm|Hm|Hm]; simpl; try reflexivity.
  exfalso. lia.
Qed.

Lemma SFleb_refl_nonneg (x : spec_float) : nonneg x = true -> SFleb x x = true.
Proof.
  destruct x as [[]|[]| |[] m e]; try discriminate; intros _; [reflexivity|].
  apply SFleb_finite_intro. right. split; [reflexivity | lia].
Qed.

Lemma SFleb_trans_nonneg (x y z : spec_float) :
  nonneg x = true -> nonneg y = true -> nonneg z = true ->
  SFleb x y = true -> SFleb y z = true -> SFleb x z = true.
Proof.
  destruct x as [[]|[]| |[] m1 e1]; try discriminate;
    destruct y as [[]|[]| |[] m2 e2]; try discriminate;
    destruct z as [[]|[]| |[] m3 e3]; try discriminate;
    intros _ _ _ Hxy Hyz; try reflexivity; try discriminate.
  apply SFleb_finite in Hxy, Hyz. apply SFleb_finite_intro. lia.
Qed.

(** One step along the grid of two decimals: the binary64 read back from
    [k] hundredths is not above the one read back from [k + 1]. *)
Definition grid_step (k : Z) : bool :=
  let x := Prim2SF (Py.of_hundredths false k) in
  let y := Prim2SF (Py.of_hundredths false (k + 1)) in
  nonneg x && nonneg y && SFleb x y.

Lemma grid_steps (k : Z) : 0 <= k < 10000 -> grid_step k = true.
Proof.
  intros Hk.
  assert (Hall : forallb (fun a => forallb (fun b =>
                   grid_step (Z.of_nat a * 100 + Z.of_nat b))
                   (seq 0 100)) (seq 0 100) = true) by (vm_compute; reflexivity).
  rewrite List.forallb_forall in Hall.
  specialize (Hall (Z.to_nat (k / 100))).
  rewrite List.forallb_forall in Hall.
  pose proof (Z.div_mod k 100 ltac:(lia)) as Hdiv.
  pose proof (Z.mod_pos_bound k 100 ltac:(lia)) as Hmod.
  assert (Hq : 0 <= k / 100 < 100).
  { split; [apply Z.div_pos; lia | apply Z.div_lt_upper_bound; lia]. }
  specialize (Hall ltac:(apply in_seq; lia) (Z.to_nat (k mod 100)) ltac:(apply in_seq; lia)).
  rewrite !Z2Nat.id in Hall by lia.
  replace (k / 100 * 100 + k mod 100) with k in Hall by lia. exact Hall.
Qed.

Lemma grid_nonneg (n : Z) :
  0 <= n <= 10000 -> nonneg (Prim2SF (Py.of_hundredths false n)) = true.
Proof.
  intros Hn. destruct (Z.eq_dec n 10000) as [->|Hne].
  - pose proof (grid_steps 9999 ltac:(lia)) as H. unfold grid_step in H.
    apply andb_prop in H as [H _]. apply andb_prop in H as [_ H]. exact H.
  - pose proof (grid_steps n ltac:(lia)) as H. unfold grid_step in H.
    apply andb_prop in H as [H _]. apply andb_prop in H as [H _]. exact H.
Qed.

Lemma grid_monotone (n n' : Z) :
  0 <= n -> n <= n' -> n' <= 10000 ->
  (Py.of_hundredths false n <=? Py.of_hundredths false n')%float = true.
Proof.
  intros Hn Hle Hn'. rewrite leb_spec.
  assert (Hchain : forall d : nat, n + Z.of_nat d <= 10000 ->
             SFleb (Prim2SF (Py.of_hundredths false n))
                   (Prim2SF (Py.of_hundredths false (n + Z.of_nat d))) = true).
  { induction d as [|d IH]; intros Hd.
    - replace (n + Z.of_nat 0) with n by lia.
      apply SFleb_refl_nonneg. apply grid_nonneg. lia.
    - pose proof (grid_steps (n + Z.of_nat d) ltac:(lia)) as Hstep.
      unfold grid_step in Hstep.
      apply andb_prop in Hstep as [Hstep Hleb]. apply andb_prop in Hstep as [Hx Hy].
      replace (n + Z.of_nat (S d)) with (n + Z.of_nat d + 1) by lia.
      eapply SFleb_trans_nonneg; [| exact Hx | exact Hy | apply IH; lia | exact Hleb].
      apply grid_nonneg. lia. }
  specialize (Hchain (Z.to_nat (n' - n))).
  rewrite Z2Nat.id in Hchain by lia.
  replace (n + (n' - n)) with n' in Hchain by lia. apply Hchain. lia.
Qed.

Lemma normalized_hundredths_monotone (v v' : Z) :
  v <= v' -> normalized_hundredths v <= normalized_hundredths v'.
Proof.
  intros Hle. unfold normalized_hundredths.
  rewrite !Z.geb_leb.
  destruct (Z.leb_spec v 2); destruct (Z.leb_spec v' 2);
    destruct (Z.leb_spec 9 v); destruct (Z.leb_spec 9 v'); lia.
Qed.

Lemma weight_tenths_pos (key : field) : 0 < weight_tenths key.
Proof. destruct key; reflexivity. Qed.

Lemma sum_thousandths_monotone (b b' : ScoreBreakdown) :
  (forall key, getattr b key <= getattr b' key) ->
  sum_thousandths b <= sum_thousandths b'.
Proof.
  intros Hle. unfold sum_thousandths.
  assert (Hfold : forall keys z z', z <= z' ->
             fold_left (fun z key => z + term_thousandths key (getattr b key)) keys z
             <= fold_left (fun z key => z + term_thousandths key (getattr b' key)) keys z').
  { induction keys as [|key keys IH]; intros z z' Hz; simpl; [exact Hz|].
    apply IH. unfold term_thousandths.
    pose proof (normalized_hundredths_monotone _ _ (Hle key)).
    pose proof (weight_tenths_pos key). nia. }
  apply Hfold. lia.
Qed.

(** The reference result of a valid breakdown, as a number of hundredths. *)
Lemma reference_aggregate_bounds (b : ScoreBreakdown) :
  valid_breakdown b -> 0 <= Reference.aggregate b <= 10000.
Proof.
  intros Hb. rewrite (reference_aggregate b Hb).
  destruct (valid_sum_bounds b Hb) as [Hz _].
  apply div_half_even_bounds; lia.
Qed.

Lemma get_overall_score_monotone_valid (r r' : ReviewScoreSchema) :
  valid_breakdown (breakdown r) -> valid_breakdown (breakdown r') ->
  (forall key, getattr (breakdown r) key <= getattr (breakdown r') key) ->
  exists sc sc',
    get_overall_score (Review r) = Py.Return (Some sc) /\
    get_overall_score (Review r') = Py.Return (Some sc') /\
    (sc <=? sc')%float = true.
Proof.
  intros Hb Hb' Hle.
  exists (Py.of_hundredths false (Reference.aggregate (breakdown r))),
         (Py.of_hundredths false (Reference.aggregate (breakdown r'))).
  split; [apply get_overall_score_valid; exact Hb|].
  split; [apply get_overall_score_valid; exact Hb'|].
  pose proof (reference_aggregate_bounds _ Hb) as Hn.
  pose proof (reference_aggregate_bounds _ Hb') as Hn'.
  apply grid_monotone; [lia | | lia].
  rewrite (reference_aggregate _ Hb), (reference_aggregate _ Hb').
  apply div_half_even_monotone; [lia|]. apply sum_thousandths_monotone. exact Hle.
Qed.

(** X10: on breakdowns with criteria in [0, 10], raising criteria never lowers
    the score: the normalization steps at 2 and at 9 and the rounding of
    the binary64 sum keep the order. *)
Theorem get_overall_score_monotone (r r' : ReviewScoreSchema) :
  valid_breakdown (breakdown r) -> valid_breakdown (breakdown r') ->
  (forall key, getattr (breakdown r) key <= getattr (breakdown r') key) ->
  exists sc sc',
    get_overall_score (Review r) = Py.Return (Some sc) /\
    get_overall_score (Review r') = Py.Return (Some sc') /\
    (sc <=? sc')%float = true.
Proof. exact (get_overall_score_monotone_valid r r'). Qed.

Lemma get_overall_score_monotone_witness :
  let b := mkBreakdown 1 2 3 4 5 6 7 8 9 10 in
  let b' := mkBreakdown 2 2 3 9 5 6 7 8 9 10 in
  valid_breakdown b /\ valid_breakdown b' /\
  (forall key, getattr b key <= getattr b' key) /\
  get_overall_score (review_of b) = Py.Return (Some 51.08%float) /\
  get_overall_score (review_of b') = Py.Return (Some 60.48%float) /\
  (51.08 <=? 60.48)%float = true.
Proof.
  intros b b'.
  assert (Hv : valid_breakdown b) by (intros key; destruct key; simpl; lia).
  assert (Hv' : valid_breakdown b') by (intros key; destruct key; simpl; lia).
  assert (Hle : forall key, getattr b key <= getattr b' key)
    by (intros key; destruct key; simpl; lia).
  split; [exact Hv|]. split; [exact Hv'|]. split; [exact Hle|].
  destruct (get_overall_score_monotone (mkReview "p" 0 b) (mkReview "p" 0 b') Hv Hv' Hle)
    as (sc & sc' & Hsc & Hsc' & Hleb).
  assert (H1 : get_overall_score (review_of b) = Py.Return (Some 51.08%float))
    by (vm_compute; reflexivity).
  assert (H2 : get_overall_score (review_of b') = Py.Return (Some 60.48%float))
    by (vm_compute; reflexivity).
  split; [exact H1|]. split; [exact H2|].
  unfold review_of in H1, H2. rewrite H1 in Hsc. rewrite H2 in Hsc'.
  injection Hsc as <-. injection Hsc' as <-. exact Hleb.
Defined.

(** X11: on breakdowns with criteria in [0, 10] the score never exceeds 98.0,
    the score of the breakdown with 10 everywhere: a criterion of 10 counts
    as 9.8, so that 100 is out of reach. *)
Theorem valid_score_at_most_98 (r : ReviewScoreSchema) :
  valid_breakdown (breakdown r) ->
  exists sc,
    get_overall_score (Review r) = Py.Return (Some sc) /\
    (sc <=? 98)%float = true /\
    get_overall_score (review_of (uniform 10)) = Py.Return (Some 98%float).
Proof.
  intros Hb.
  assert (Hv : valid_breakdown (uniform 10)) by (intros key; destruct key; simpl; lia).
  destruct (get_overall_score_monotone_valid r (mkReview "p" 0 (uniform 10)) Hb Hv)
    as (sc & sc' & Hsc & Hsc' & Hleb).
  { intros key. destruct (Hb key) as [_ Hk]. destruct key; exact Hk. }
  assert (Htop : get_overall_score (review_of (uniform 10)) = Py.Return (Some 98%float))
    by (vm_compute; reflexivity).
  unfold review_of in Htop. rewrite Htop in Hsc'. injection Hsc' as <-.
  exists sc. auto.
Qed.

Lemma valid_score_at_most_98_witness :
  let b := mkBreakdown 10 10 10 10 9 10 10 10 10 10 in
  valid_breakdown b /\
  exists sc, get_overall_score (review_of b) = Py.Return (Some sc) /\
             (sc <=? 98)%float = true.
Proof.
  intros b.
  assert (Hv : valid_breakdown b) by (intros key; destruct key; simpl; lia).
  split; [exact Hv|].
  destruct (valid_score_at_most_98 (mkReview "p" 0 b) Hv) as (sc & Hsc & Hle & _).
  exists sc. auto.
Defined.

(** ** checkerchain/miner/llm.py: create_llm and generate_review_score *)

(** How a call of llm.py ends: with a value, with an exception that
    [except Exception] catches, or with [asyncio.CancelledError], which since
    Python 3.8 derives from [BaseException] and is not caught by it.
    ([KeyboardInterrupt] and [SystemExit], the other exceptions of that kind,
    stop the event loop and with it the process.) *)
Inductive outcome (A : Type) : Type :=
| Returned (a : A)
| Raised (e : Py.exn)
| Cancelled.
Arguments Returned {A} a.
Arguments Raised {A} e.
Arguments Cancelled {A}.

(** What [asyncio.gather(..., return_exceptions=True)] puts into its result
    list for an awaitable that ended so: the value; the exception, an
    instance of [Exception]; or the [CancelledError], an object that is
    neither an [Exception] nor a [ReviewScoreSchema]. *)
Definition gathered (o : outcome py_object) : Py.result py_object :=
  match o with
  | Returned obj => Py.Return obj
  | Raised e => Py.Raise e
  | Cancelled => Py.Return OtherObject
  end.

Section Llm.

(** The collaborators: the [ChatOpenAI] constructor with the fixed settings
    of lines 41-50, [with_structured_output(ReviewScoreSchema)] on the model
    it builds, [ainvoke] on the runnable that gives; [prompt], the f-string
    of lines 60-147 over the attributes of the product, whose type is
    declared outside these files and whose evaluation comes before the [try]
    of line 151; and [str(e)] on an exception. *)
Context {World Product Model Runnable : Type}.
Variable ChatOpenAI : World -> outcome Model * World.
Variable with_structured_output : Model -> World -> outcome Runnable * World.
Variable ainvoke : Runnable -> string -> string -> World -> outcome py_object * World.
Variable prompt : Product -> Py.result string.
Variable str : Py.exn -> string.

(** [str] of an [Exception] built from one message is that message. *)
Hypothesis str_Exception : forall msg, str (Py.Exception msg) = msg.

Definition system_message : string :=
  "You are a leading cryptocurrency and blockchain analyst with 10+ years of experience evaluating blockchain projects. Your analyses are known for being comprehensive, balanced, and highly accurate in predicting project success and security. You excel at identifying both red flags and promising indicators, even with limited information. Your reputation depends on delivering trustworthy, data-driven evaluations that closely match consensus opinion from other expert reviewers.".

(** Coroutines of llm.py: they run on the world. *)
Definition IO (A : Type) : Type := World -> outcome A * World.

Definition io_bind {A B : Type} (m : IO A) (k : A -> IO B) : IO B :=
  fun w => match m w with
           | (Returned a, w') => k a w'
           | (Raised e, w') => (Raised e, w')
           | (Cancelled, w') => (Cancelled, w')
           end.

(** [try: body  except Exception as e: raise Exception(prefix + str(e))]:
    what [except Exception] does not catch goes through. *)
Definition reraise_as {A : Type} (prefix : string) (body : IO A) : IO A :=
  fun w => match body w with
           | (Returned a, w') => (Returned a, w')
           | (Raised e, w') => (Raised (Py.Exception (prefix +:+ str e)), w')
           | (Cancelled, w') => (Cancelled, w')
           end.

(** Lines 36-53. *)
Definition create_llm : IO Runnable :=
  reraise_as "Failed to create LLM: "
    (io_bind ChatOpenAI with_structured_output).

(** Lines 56-161. *)
Definition generate_review_score (product : Product) : IO py_object :=
  fun w => match prompt product with
           | Py.Raise e => (Raised e, w)
           | Py.Return text =>
               reraise_as "Failed to generate review score: "
                 (io_bind create_llm (fun llm => ainvoke llm system_message text)) w
           end.

(** X12: once the prompt is built, an exception that [except Exception]
    catches, raised while the model is created or invoked, leaves
    generate_review_score as a plain [Exception] whose message is
    "Failed to generate review score: " and the text of the cause; when it
    is the creation of the model that raised, the cause is itself the
    [Exception] of create_llm, so that the message goes on with
    "Failed to create LLM: " and the text of the first cause, and the model
    is not invoked. A [CancelledError] of the invocation is not caught: it
    leaves generate_review_score as it is, unwrapped. A result of the model
    is returned as it is. *)
Theorem generate_review_score_wraps_failures (product : Product) (text : string) (w : World) :
  prompt product = Py.Return text ->
  (forall llm w1 cause w', create_llm w = (Returned llm, w1) ->
     ainvoke llm system_message text w1 = (Raised cause, w') ->
     generate_review_score product w
     = (Raised (Py.Exception ("Failed to generate review score: " +:+ str cause)), w')) /\
  (forall e w', create_llm w = (Raised e, w') ->
     exists cause, (ChatOpenAI w = (Raised cause, w') \/
                    exists model w1, ChatOpenAI w = (Returned model, w1) /\
                                     with_structured_output model w1 = (Raised cause, w')) /\
       generate_review_score product w
       = (Raised (Py.Exception ("Failed to generate review score: "
                                +:+ ("Failed to create LLM: " +:+ str cause))), w')) /\
  (forall llm w1 w', create_llm w = (Returned llm, w1) ->
     ainvoke llm system_message text w1 = (Cancelled, w') ->
     generate_review_score product w = (Cancelled, w')) /\
  (forall llm w1 obj w', create_llm w = (Returned llm, w1) ->
     ainvoke llm system_message text w1 = (Returned obj, w') ->
     generate_review_score product w = (Returned obj, w')) /\
  (forall e w', generate_review_score product w = (Raised e, w') ->
     exists cause, e = Py.Exception ("Failed to generate review score: " +:+ cause)).
Proof.
  intros Hp. unfold generate_review_score, reraise_as, io_bind. rewrite Hp.
  split_and!.
  - intros llm w1 cause w' Hllm Hcall. rewrite Hllm, Hcall. reflexivity.
  - unfold create_llm, reraise_as, io_bind. intros e w' Hrun.
    destruct (ChatOpenAI w) as [[model|c|] w1] eqn:Hmodel.
    + destruct (with_structured_output model w1) as [[llm|c|] w2] eqn:Hllm;
        try discriminate.
      inversion Hrun; subst. exists c. rewrite str_Exception. split; [|reflexivity].
      right. eauto.
    + inversion Hrun; subst. exists c. rewrite str_Exception. split; [|reflexivity].
      left. reflexivity.
    + discriminate.
  - intros llm w1 w' Hllm Hcall. rewrite Hllm, Hcall. reflexivity.
  - intros llm w1 obj w' Hllm Hobj. rewrite Hllm, Hobj. reflexivity.
  - intros e w' Hrun.
    destruct (create_llm w) as [[llm|e1|] w1];
      [destruct (ainvoke _ _ _ _) as [[obj|e2|] w2]| |];
      try discriminate; inversion Hrun; eauto.
Qed.

(** When the prompt cannot be built, its exception leaves
    generate_review_score as it is, not wrapped, and the model is neither
    created nor invoked. *)
Lemma generate_review_score_prompt_error (product : Product) (e : Py.exn) (w : World) :
  prompt product = Py.Raise e -> generate_review_score product w = (Raised e, w).
Proof. intros Hp. unfold generate_review_score. rewrite Hp. reflexivity. Qed.

(** When the model cannot be created, every call fails with an exception. *)
Lemma generate_review_score_fails (product : Product) (w : World) :
  (forall w0, exists c w1, ChatOpenAI w0 = (Raised c, w1)) ->
  exists e, (generate_review_score product w).1 = Raised e.
Proof.
  intros Hdown. unfold generate_review_score, reraise_as, io_bind, create_llm,
    reraise_as, io_bind.
  destruct (prompt product) as [text|e]; [|eauto].
  destruct (Hdown w) as (c & w1 & ->). simpl. eauto.
Qed.

(** *** forward on top of llm.py *)

Variable fetch_product_data : ProductId -> World -> option Product * World.

(** The oracle of forward: generate_review_score, awaited by a gather. *)
Definition awaited_review_score (product : Product) (w : World) :
  Py.result py_object * World :=
  let '(o, w') := generate_review_score product w in (gathered o, w').

(** X13: while the model cannot be created, forward answers every product that
    is not cached with the fallback 50.0, or with an absent slot when a
    lookup finds nothing, and every entry the call adds to the cache is
    50.0. *)
Theorem outage_caches_fallback (sched1 sched2 : list nat) (query : list ProductId)
        (s0 : store World Product) :
  (forall w0, exists c w1, ChatOpenAI w0 = (Raised c, w1)) ->
  exists response s,
    forward fetch_product_data awaited_review_score sched1 sched2 query s0
    = (Py.Return response, s) /\
    (forall i id, query !! i = Some id -> miner_preds s0 !! id = None ->
       response !! i = Some None \/ response !! i = Some (Some fallback_score)) /\
    (forall id c, miner_preds s !! id = Some c ->
       miner_preds s0 !! id = Some c \/ c = fallback_score).
Proof.
  intros Hdown.
  destruct (forward_spec fetch_product_data awaited_review_score sched1 sched2 query s0)
    as (response & s & Hrun & Hs).
  exists response, s. split; [exact Hrun|].
  assert (Hfails : forall p w, exists e, (awaited_review_score p w).1 = Py.Raise e).
  { intros p w. unfold awaited_review_score.
    destruct (generate_review_score_fails p w Hdown) as [e He].
    destruct (generate_review_score p w) as [o w']. simpl in He. subst o.
    exists e. reflexivity. }
  assert (Hfirst : forall k i id r, product_ids s !! k = Some (i, id) ->
             results s !! k = Some r -> first_wave_score r = None).
  { intros k i id r Hk Hr.
    destruct (sv_ids _ _ _ _ _ _ Hs k i id Hk) as (_ & _ & p & w & r' & w' & _ & _ & Hr' & ->).
    assert (r = (awaited_review_score p w').1) as -> by congruence.
    destruct (Hfails p w') as [e ->]. reflexivity. }
  assert (Hretry : forall k' i id k rr, retry_indices s !! k' = Some (i, id, k) ->
             retry_results s !! k' = Some rr -> retry_score rr = fallback_score).
  { intros k' i id k rr Hk' Hrr.
    destruct (sv_retry _ _ _ _ _ _ Hs k' i id k Hk')
      as (_ & _ & p & w & rr' & w' & _ & _ & Hrr' & ->).
    assert (rr = (awaited_review_score p w').1) as -> by congruence.
    destruct (Hfails p w') as [e ->]. reflexivity. }
  split.
  - intros i id Hq Hc. pose proof (sv_slot _ _ _ _ _ _ Hs i id Hq) as Hslot.
    inversion Hslot as [c' Hc' | Hc' Hno Hf | k0 r0 sc0 Hc' Hk0 Hr0 Hsc0 Hw0
                        | k0 r0 Hc' Hk0 Hr0 Hn Hnoidx Hf
                        | k0 r0 k0' rr0 Hc' Hk0 Hr0 Hn Hk0' Hrr0 Hw0].
    + congruence.
    + left. reflexivity.
    + rewrite (Hfirst k0 i id r0 Hk0 Hr0) in Hsc0. discriminate.
    + left. reflexivity.
    + right. rewrite (Hretry k0' i id k0 rr0 Hk0' Hrr0). reflexivity.
  - intros id c Hc. rewrite (sv_cache _ _ _ _ _ _ Hs) in Hc.
    apply replay_lookup_inv in Hc as [Hc | [i Hw]]; [left; exact Hc|]. right.
    destruct (sv_writes _ _ _ _ _ _ Hs i id c Hw)
      as [(k & r & Hk & Hr & Hsc) | (k' & k & rr & Hk' & Hrr & ->)].
    + rewrite (Hfirst k i id r Hk Hr) in Hsc. discriminate.
    + eapply Hretry; eauto.
Qed.

End Llm.

(** *** llm.py with scripted collaborators *)

(** A client that cannot be built, a client that can, an invocation that
    plays back the script of the oracle, an invocation that is cancelled, a
    prompt that is the product id, and the message of an exception. *)
Definition no_api_key (w : script) : outcome unit * script :=
  (Raised (Py.Exception "no api key"), w).

Definition chat_model (w : script) : outcome unit * script := (Returned tt, w).

Definition structured (model : unit) (w : script) : outcome unit * script :=
  (Returned tt, w).

Definition scripted_invoke (llm : unit) (system text : string) (w : script) :
  outcome py_object * script :=
  match scripted_oracle text w with
  | (Py.Return obj, w') => (Returned obj, w')
  | (Py.Raise e, w') => (Raised e, w')
  end.

Definition cancelled_invoke (llm : unit) (system text : string) (w : script) :
  outcome py_object * script :=
  (Cancelled, w).

Definition plain_prompt (product : ProductId) : Py.result string := Py.Return product.

Definition message_of (e : Py.exn) : string :=
  match e with
  | Py.Exception msg => msg
  | _ => ""
  end.

(** Without an API key the call fails with both prefixes; with a model
    whose invocation is cancelled it ends with the [CancelledError]. *)
Lemma generate_review_score_wraps_failures_witness :
  let w : script := ([], []) in
  (forall msg, message_of (Py.Exception msg) = msg) /\
  plain_prompt "D" = Py.Return "D" /\
  generate_review_score no_api_key structured scripted_invoke plain_prompt message_of "D" w
  = (Raised (Py.Exception
               "Failed to generate review score: Failed to create LLM: no api key"), w) /\
  generate_review_score chat_model structured cancelled_invoke plain_prompt message_of "D" w
  = (Cancelled, w).
Proof.
  intros w.
  assert (Hstr : forall msg, message_of (Py.Exception msg) = msg) by reflexivity.
  split; [exact Hstr|]. split; [reflexivity|]. split.
  - destruct (proj1 (proj2 (generate_review_score_wraps_failures no_api_key structured
                              scripted_invoke plain_prompt message_of Hstr "D" "D" w eq_refl))
                    (Py.Exception "Failed to create LLM: no api key") w eq_refl)
      as (cause & Hcause & Hrun).
    rewrite Hrun. destruct Hcause as [Hcause | (model & w1 & Hcause & _)];
      [|discriminate].
    injection Hcause as <-. reflexivity.
  - apply (proj1 (proj2 (proj2 (generate_review_score_wraps_failures chat_model structured
                                  cancelled_invoke plain_prompt message_of Hstr "D" "D" w
                                  eq_refl)))
                 tt w w eq_refl eq_refl).
Defined.

(** Without an API key the batch ["D"] is answered with 50.0. *)
Lemma outage_caches_fallback_witness :
  (forall w0 : script, exists c w1, no_api_key w0 = (Raised c, w1)) /\
  exists response s,
    forward scripted_fetch
            (awaited_review_score no_api_key structured scripted_invoke plain_prompt
                                  message_of)
            [] [] ["D"] (at_rest ∅ ([], []))
    = (Py.Return response, s) /\
    response !! 0%nat = Some (Some fallback_score) /\
    (forall id c, miner_preds s !! id = Some c -> c = fallback_score).
Proof.
  assert (Hdown : forall w0 : script, exists c w1, no_api_key w0 = (Raised c, w1)).
  { intros w0. eexists _, _. reflexivity. }
  split; [exact Hdown|].
  destruct (outage_caches_fallback no_api_key structured scripted_invoke plain_prompt
              message_of scripted_fetch [] [] ["D"] (at_rest ∅ ([], [])) Hdown)
    as (response & s & Hrun & Hresp & Hcache).
  exists response, s. split; [exact Hrun|]. split.
  - assert (Hval : response = [Some 50%float]).
    { vm_compute in Hrun. injection Hrun as Hr _. congruence. }
    rewrite Hval. reflexivity.
  - intros id c Hc. destruct (Hcache id c Hc) as [Hold | Hnew]; [|exact Hnew].
    simpl in Hold. rewrite lookup_empty in Hold. discriminate.
Defined.
